(** * get-proxies.py: the proxy pool lifecycle engine

    A shallow embedding of [src/get-proxies.py] (storage, validator,
    fetcher, rotator and the pool manager) together with the properties of
    the natural-language specification that are stated about it.

    Conventions of the embedding.
    - A Python [str] is a [string]; every character stands for a code point
      below 256.
    - A Python [list] or [deque] of endpoints is a [list string]; a Python
      [set] of endpoints is a [gset string].
    - A call that may raise returns a [Py.result]; every [try]/[except] of
      the source is written out as a [match] on that result.
    - The network, the clock and the file system are inputs: a [world]
      record of oracles and a [disk] value threaded through the calls. *)

From Stdlib Require Import ZArith String Ascii List Bool Lia DecimalString.
From stdpp Require Import base list strings gmap sets.

(** ** The Python primitives the source relies on *)

Module Py.

Inductive exn : Type :=
| IndexError
| ValueError
| OSError
| JSONDecodeError.

Inductive result (A : Type) : Type :=
| Ok (a : A)
| Raise (e : exn).
Arguments Ok {A} a.
Arguments Raise {A} e.

Definition bind {A B : Type} (r : result A) (k : A -> result B) : result B :=
  match r with
  | Ok a => k a
  | Raise e => Raise e
  end.

(** [seq[i]] for a non-negative index: [IndexError] out of range. *)
Definition getitem {A : Type} (l : list A) (i : nat) : result A :=
  match l !! i with
  | Some a => Ok a
  | None => Raise IndexError
  end.

(** [s.split(sep)] for a one-character separator: always at least one
    piece, the pieces are the maximal runs between separators. *)
Fixpoint split (sep : ascii) (s : string) : list string :=
  match s with
  | EmptyString => [EmptyString]
  | String c s' =>
      if Ascii.eqb c sep then EmptyString :: split sep s'
      else match split sep s' with
           | [] => [String c EmptyString]
           | piece :: pieces => String c piece :: pieces
           end
  end.

(** White space as [int()] sees it: the ASCII blanks tab, line feed,
    vertical tab, form feed, carriage return and space, and the two
    Latin-1 spaces U+0085 and U+00A0. *)
Definition is_space (c : ascii) : bool :=
  let n := nat_of_ascii c in
  (Nat.leb 9 n && Nat.leb n 13) || Nat.eqb n 32 || Nat.eqb n 133 || Nat.eqb n 160.

Definition digit_value (c : ascii) : option Z :=
  let n := nat_of_ascii c in
  if Nat.leb 48 n && Nat.leb n 57 then Some (Z.of_nat (n - 48)) else None.

Fixpoint lstrip (l : list ascii) : list ascii :=
  match l with
  | c :: l' => if is_space c then lstrip l' else l
  | [] => []
  end.

Definition strip (l : list ascii) : list ascii :=
  rev (lstrip (rev (lstrip l))).

(** Decimal digits with single underscores allowed between two digits.
    [acc] is the value so far, [n] the number of digits read, [after_digit]
    tells whether the previous character was a digit. *)
Fixpoint digits (l : list ascii) (acc : Z) (n : nat) (after_digit : bool)
  : option (Z * nat) :=
  match l with
  | [] => if after_digit then Some (acc, n) else None
  | c :: l' =>
      match digit_value c with
      | Some d => digits l' (10 * acc + d)%Z (S n) true
      | None =>
          if Ascii.eqb c "_"%char && after_digit then digits l' acc n false
          else None
      end
  end.

(** CPython's default bound on the number of digits [int()] converts. *)
Definition int_max_str_digits : nat := 4300.

(** [int(s)] in base ten: surrounding white space is dropped, one sign is
    allowed, anything else is a [ValueError]. *)
Definition int (s : string) : result Z :=
  let body := strip (list_ascii_of_string s) in
  let '(negative, ds) :=
    match body with
    | c :: ds' =>
        if Ascii.eqb c "-"%char then (true, ds')
        else if Ascii.eqb c "+"%char then (false, ds')
        else (false, body)
    | [] => (false, body)
    end in
  match digits ds 0%Z 0 false with
  | Some (v, n) =>
      if Nat.ltb int_max_str_digits n then Raise ValueError
      else Ok (if negative then (- v)%Z else v)
  | None => Raise ValueError
  end.

(** Truth value of an [Optional[str]]: [None] and the empty string are
    false. *)
Definition truthy (o : option string) : bool :=
  match o with
  | Some s => negb (String.eqb s EmptyString)
  | None => false
  end.

End Py.

(** ** ProxyConfig *)

Record ProxyConfig : Type := {
  min_working_proxies : nat;
  validation_timeout : nat;
  max_workers : nat;
  proxy_cache_file : string;
  ssl_only : bool;
  verbose : bool;
  max_pages_per_source : nat
}.

Definition default_config : ProxyConfig := {|
  min_working_proxies := 3;
  validation_timeout := 3;
  max_workers := 10;
  proxy_cache_file := "saved-proxies.json";
  ssl_only := true;
  verbose := false;
  max_pages_per_source := 10
|}.

(** The configuration with another minimum pool size. *)
Definition with_min_working_proxies (cfg : ProxyConfig) (n : nat) : ProxyConfig :=
  {| min_working_proxies := n;
     validation_timeout := validation_timeout cfg;
     max_workers := max_workers cfg;
     proxy_cache_file := proxy_cache_file cfg;
     ssl_only := ssl_only cfg;
     verbose := verbose cfg;
     max_pages_per_source := max_pages_per_source cfg |}.

(** ** ProxyStorage *)

Module ProxyStorage.

(** The JSON object of the cache file. A key may be missing, which is what
    [load_saved_proxies] tests with [in] and [data.get]. *)
Record snapshot : Type := {
  working_proxies : option (list string);
  ssl_proxies : option (list string);
  http_proxies : option (list string);
  saved_at : option string;
  count : option nat;
  ssl_count : option nat;
  http_count : option nat
}.

(** What is found at [cache_file]. *)
Inductive file_state : Type :=
| NoFile
| Unreadable (e : Py.exn)
| Json (data : snapshot).

(** The file together with the behaviour of the next write: [write_error]
    is the exception [os.makedirs]/[open] raises, if any; [writes] counts
    the completed writes. *)
Record disk : Type := {
  content : file_state;
  write_error : option Py.exn;
  writes : nat
}.

(** [_deduplicate_list]: the loop over [proxy_list] with its [seen] set and
    its [result] list. *)
Fixpoint _deduplicate_loop (proxy_list : list string) (seen : gset string)
    (result : list string) : list string :=
  match proxy_list with
  | [] => result
  | proxy :: rest =>
      if decide (proxy ∈ seen) then _deduplicate_loop rest seen result
      else _deduplicate_loop rest ({[proxy]} ∪ seen) (result ++ [proxy])
  end.

Definition _deduplicate_list (proxy_list : list string) : list string :=
  _deduplicate_loop proxy_list ∅ [].

Definition ssl_ports : list Z :=
  [443; 8443; 8442; 9443; 10443; 11443; 12443; 8080; 3128; 1080; 8081; 8888]%Z.

(** The body of the [try] of [_is_ssl_capable_port]. *)
Definition _is_ssl_capable_port_try (proxy : string) : Py.result bool :=
  Py.bind (Py.getitem (Py.split ":"%char proxy) 1) (fun field =>
  Py.bind (Py.int field) (fun port =>
  Py.Ok (bool_decide (port ∈ ssl_ports)))).

(** [_is_ssl_capable_port]: the bare [except] turns every exception into
    [False]. *)
Definition _is_ssl_capable_port (proxy : string) : bool :=
  match _is_ssl_capable_port_try proxy with
  | Py.Ok b => b
  | Py.Raise _ => false
  end.

(** The body of the [try] of [load_saved_proxies]. *)
Definition load_saved_proxies_try (f : file_state)
  : Py.result (list string * list string) :=
  match f with
  | NoFile => Py.Ok ([], [])
  | Unreadable e => Py.Raise e
  | Json data =>
      match ssl_proxies data, http_proxies data with
      | Some ssl, Some http =>
          Py.Ok (_deduplicate_list ssl, _deduplicate_list http)
      | _, _ =>
          let saved_proxies :=
            _deduplicate_list (default [] (working_proxies data)) in
          Py.Ok (filter (fun p => _is_ssl_capable_port p = true) saved_proxies,
                 filter (fun p => ¬ (_is_ssl_capable_port p = true)) saved_proxies)
      end
  end.

Definition load_saved_proxies (d : disk) : list string * list string :=
  match load_saved_proxies_try (content d) with
  | Py.Ok pools => pools
  | Py.Raise _ => ([], [])
  end.

(** The dictionary [save_working_proxies] dumps; [now] is the value of
    [time.strftime]. *)
Definition saved_data (now : string) (ssl http : list string) : snapshot :=
  let ssl_proxies := _deduplicate_list ssl in
  let http_proxies := _deduplicate_list http in
  {| working_proxies := Some (ssl_proxies ++ http_proxies);
     ssl_proxies := Some ssl_proxies;
     http_proxies := Some http_proxies;
     saved_at := Some now;
     count := Some (length (ssl_proxies ++ http_proxies));
     ssl_count := Some (length ssl_proxies);
     http_count := Some (length http_proxies) |}.

(** [save_working_proxies]: a failing write is logged and leaves the file
    as it was. *)
Definition save_working_proxies (now : string) (d : disk)
    (ssl http : list string) : disk :=
  match write_error d with
  | Some _ => d
  | None =>
      {| content := Json (saved_data now ssl http);
         write_error := None;
         writes := S (writes d) |}
  end.

End ProxyStorage.

(** ** The outside world

    What the engine observes and cannot control: the answer to an HTTP(S)
    request sent through a proxy, the endpoints a source page yields, and
    the clock. *)

Inductive response : Type :=
| Status (code : Z)
| Failed.

#[global] Instance response_eq_dec : EqDecision response.
Proof. solve_decision. Defined.

Record world : Type := {
  (** [session.get(url, proxy=..., ssl=verify)] over HTTPS *)
  https_get : bool -> string -> string -> response;
  (** [session.get(url, proxy=...)] over plain HTTP *)
  http_get : string -> string -> response;
  (** [_fetch_from_source_async(source)]: the page fetch and its parser *)
  fetch_from_source : string -> Py.result (list string);
  (** [time.strftime('%Y-%m-%d %H:%M:%S')] *)
  strftime : string
}.

(** ** ProxyValidator *)

Module ProxyValidator.

Definition ssl_test_urls : list string :=
  ["https://icanhazip.com"; "https://checkip.amazonaws.com";
   "https://ipinfo.io/ip"; "https://httpbin.org/ip"].

Definition http_test_urls : list string :=
  ["http://icanhazip.com"; "http://checkip.amazonaws.com";
   "http://ipinfo.io/ip"; "http://httpbin.org/ip"].

(** A request as it leaves the validator: [Strict] and [Relaxed] are the
    HTTPS requests with and without certificate verification. *)
Inductive mode : Type := Strict | Relaxed | Plain.

Record request : Type := { req_mode : mode; req_url : string }.

(** [for url in test_urls]: return [True] at the first status 200, go on
    after any other status or exception. The second component lists the
    URLs requested, in order. *)
Fixpoint first_ok (get : string -> response) (urls : list string)
  : bool * list string :=
  match urls with
  | [] => (false, [])
  | url :: rest =>
      match get url with
      | Status 200 => (true, [url])
      | _ => let '(ok, asked) := first_ok get rest in (ok, url :: asked)
      end
  end.

(** [_validate_ssl_proxy_async], with the requests it sent. *)
Definition _validate_ssl_proxy_async (w : world) (proxy : string)
  : bool * list request :=
  let '(ok, asked) := first_ok (fun url => https_get w true url proxy) ssl_test_urls in
  let sent := map (Build_request Strict) asked in
  if ok then (true, sent)
  else
    let '(ok', asked') :=
      first_ok (fun url => https_get w false url proxy) ssl_test_urls in
    (ok', sent ++ map (Build_request Relaxed) asked').

(** [_validate_http_proxy_async], with the requests it sent. *)
Definition _validate_http_proxy_async (w : world) (proxy : string)
  : bool * list request :=
  let '(ok, asked) := first_ok (fun url => http_get w url proxy) http_test_urls in
  (ok, map (Build_request Plain) asked).

Definition ssl_ports : list Z :=
  [443; 8443; 8442; 9443; 10443; 11443; 12443; 8080; 3128; 1080; 8081; 8888]%Z.

Definition _is_ssl_capable_port (proxy : string) : bool :=
  match
    Py.bind (Py.getitem (Py.split ":"%char proxy) 1) (fun field =>
    Py.bind (Py.int field) (fun port =>
    Py.Ok (bool_decide (port ∈ ssl_ports))))
  with
  | Py.Ok b => b
  | Py.Raise _ => false
  end.

(** An element of the list [asyncio.gather] returns when it is called with
    [return_exceptions=True]. *)
Inductive outcome : Type :=
| Returned (b : bool)
| Excepted (e : Py.exn).

(** The variables of the loop that processes the results. *)
Record tally : Type := {
  working_ssl_proxies : list string;
  working_http_proxies : list string;
  ssl_index : nat;
  http_index : nat;
  dead_proxies : gset string
}.

(** [for i, result in enumerate(results)]. *)
Fixpoint process_results (ssl_proxies regular_proxies : list string)
    (results : list outcome) (i : nat) (t : tally) : Py.result tally :=
  match results with
  | [] => Py.Ok t
  | result :: rest =>
      match result with
      | Excepted _ => process_results ssl_proxies regular_proxies rest (S i) t
      | Returned b =>
          if Nat.ltb i (length ssl_proxies) then
            Py.bind (Py.getitem ssl_proxies (ssl_index t)) (fun proxy =>
            process_results ssl_proxies regular_proxies rest (S i)
              (if b then
                 {| working_ssl_proxies := working_ssl_proxies t ++ [proxy];
                    working_http_proxies := working_http_proxies t;
                    ssl_index := S (ssl_index t);
                    http_index := http_index t;
                    dead_proxies := dead_proxies t |}
               else
                 {| working_ssl_proxies := working_ssl_proxies t;
                    working_http_proxies := working_http_proxies t;
                    ssl_index := S (ssl_index t);
                    http_index := http_index t;
                    dead_proxies := {[proxy]} ∪ dead_proxies t |}))
          else
            Py.bind (Py.getitem regular_proxies (http_index t)) (fun proxy =>
            process_results ssl_proxies regular_proxies rest (S i)
              (if b then
                 {| working_ssl_proxies := working_ssl_proxies t;
                    working_http_proxies := working_http_proxies t ++ [proxy];
                    ssl_index := ssl_index t;
                    http_index := S (http_index t);
                    dead_proxies := dead_proxies t |}
               else
                 {| working_ssl_proxies := working_ssl_proxies t;
                    working_http_proxies := working_http_proxies t;
                    ssl_index := ssl_index t;
                    http_index := S (http_index t);
                    dead_proxies := {[proxy]} ∪ dead_proxies t |}))
      end
  end.

(** The tasks handed to [gather], run to completion: both probes catch
    every exception themselves, so each task returns a boolean. *)
Definition gather (w : world) (cfg : ProxyConfig)
    (ssl_proxies regular_proxies : list string) : list outcome :=
  map (fun proxy => Returned (fst (_validate_ssl_proxy_async w proxy))) ssl_proxies
  ++ (if negb (ssl_only cfg)
      then map (fun proxy => Returned (fst (_validate_http_proxy_async w proxy)))
               regular_proxies
      else []).

(** [validate_proxies_async]; [dead] is [self.dead_proxies] before the
    call, the result carries it after the call. *)
Definition validate_proxies_async (w : world) (cfg : ProxyConfig)
    (dead : gset string) (proxies : list string)
  : Py.result (list string * list string * gset string) :=
  match proxies with
  | [] => Py.Ok ([], [], dead)
  | _ =>
      let ssl_proxies := filter (fun p => _is_ssl_capable_port p = true) proxies in
      let regular_proxies :=
        if ssl_only cfg then []
        else filter (fun p => ¬ (_is_ssl_capable_port p = true)) proxies in
      let results := gather w cfg ssl_proxies regular_proxies in
      Py.bind
        (process_results ssl_proxies regular_proxies results 0
           {| working_ssl_proxies := []; working_http_proxies := [];
              ssl_index := 0; http_index := 0; dead_proxies := dead |})
        (fun t => Py.Ok (working_ssl_proxies t, working_http_proxies t, dead_proxies t))
  end.

End ProxyValidator.

(** ** ProxyFetcher *)

Module ProxyFetcher.

Record source_config : Type := {
  enabled : bool;
  url : string;
  description : string
}.

(** [_rebuild_sources_list]: the URLs of the enabled entries, in the order
    of the configuration dictionary. *)
Fixpoint _rebuild_sources_list (cfgs : list (string * source_config))
  : list string :=
  match cfgs with
  | [] => []
  | (_, c) :: rest =>
      if enabled c then url c :: _rebuild_sources_list rest
      else _rebuild_sources_list rest
  end.

(** [self.proxy_sources_config] as [__init__] builds it; a dictionary keeps
    its keys in insertion order. *)
Definition proxy_sources_config : list (string * source_config) :=
  [("monosans",
    {| enabled := true;
       url := "https://raw.githubusercontent.com/monosans/proxy-list/main/proxies/http.txt";
       description := "High success rate, good SSL coverage" |});
   ("spys_one",
    {| enabled := true;
       url := "https://spys.one/en/free-proxy-list/";
       description := "High-quality proxies with SSL indicators (may be blocked)" |});
   ("proxyscrape_all",
    {| enabled := true;
       url := "https://api.proxyscrape.com/v4/free-proxy-list/get?request=displayproxies&protocol=http&timeout=10000&country=all&ssl=all&anonymity=all&skip=0&limit=2000";
       description := "All proxies (let our SSL filtering handle it)" |});
   ("proxyscrape_premium",
    {| enabled := true;
       url := "https://api.proxyscrape.com/v4/free-proxy-list/get?request=displayproxies&protocol=http&timeout=5000&country=all&ssl=all&anonymity=elite,anonymous&skip=0&limit=1000";
       description := "High-quality proxies" |});
   ("free_proxy_list",
    {| enabled := true;
       url := "https://free-proxy-list.net/en/";
       description := "Good SSL proxy ratio (3/300 = 1%)" |});
   ("freeproxy_world_https",
    {| enabled := true;
       url := "https://www.freeproxy.world/?type=https&anonymity=&country=&speed=1800&port=&page=1";
       description := "FreeProxy.world HTTPS proxies (may be blocked by Cloudflare)" |});
   ("freeproxy_world_http",
    {| enabled := true;
       url := "https://www.freeproxy.world/?type=http&anonymity=&country=&speed=1800&port=&page=1";
       description := "FreeProxy.world HTTP proxies (may be blocked by Cloudflare)" |});
   ("advanced_name",
    {| enabled := true;
       url := "https://advanced.name/freeproxy/68df12417db3f";
       description := "Advanced.name proxy list" |});
   ("thespeedx",
    {| enabled := true;
       url := "https://raw.githubusercontent.com/TheSpeedX/PROXY-List/master/http.txt";
       description := "Large volume, test last" |})].

(** The two progress messages of the loop that depend on the totals. *)
Inductive message : Type :=
| MinimumReached (total_working : nat)
| LargePoolAchieved (total_working : nat).

(** The variables of [fetch_new_proxies_async]; [consulted] lists the
    sources handed to [_fetch_from_source_async], [printed] the messages,
    [dead] is the validator's dead set. *)
Record run : Type := {
  all_ssl_proxies : list string;
  all_http_proxies : list string;
  tested_sources : nat;
  consulted : list string;
  printed : list message;
  dead : gset string
}.

Definition large_pool : nat := 20.

(** The body of [for source in self.proxy_sources], for one source. The
    boolean tells whether the body ended in [break]. *)
Definition loop_body (w : world) (cfg : ProxyConfig) (source : string)
    (r : run) : run * bool :=
  let asked := consulted r ++ [source] in
  match fetch_from_source w source with
  | Py.Raise _ =>
      ({| all_ssl_proxies := all_ssl_proxies r;
          all_http_proxies := all_http_proxies r;
          tested_sources := S (tested_sources r);
          consulted := asked; printed := printed r; dead := dead r |}, false)
  | Py.Ok [] =>
      ({| all_ssl_proxies := all_ssl_proxies r;
          all_http_proxies := all_http_proxies r;
          tested_sources := tested_sources r;
          consulted := asked; printed := printed r; dead := dead r |}, false)
  | Py.Ok source_proxies =>
      match ProxyValidator.validate_proxies_async w cfg (dead r) source_proxies with
      | Py.Raise _ =>
          ({| all_ssl_proxies := all_ssl_proxies r;
              all_http_proxies := all_http_proxies r;
              tested_sources := S (tested_sources r);
              consulted := asked; printed := printed r; dead := dead r |}, false)
      | Py.Ok (ssl_proxies, http_proxies, dead') =>
          let all_ssl := all_ssl_proxies r ++ ssl_proxies in
          let all_http := all_http_proxies r ++ http_proxies in
          let total_working := length all_ssl + length all_http in
          let printed1 :=
            if Nat.leb (min_working_proxies cfg) total_working
            then printed r ++ [MinimumReached total_working]
            else printed r in
          if Nat.leb large_pool total_working then
            ({| all_ssl_proxies := all_ssl; all_http_proxies := all_http;
                tested_sources := tested_sources r;
                consulted := asked;
                printed := printed1 ++ [LargePoolAchieved total_working];
                dead := dead' |}, true)
          else
            ({| all_ssl_proxies := all_ssl; all_http_proxies := all_http;
                tested_sources := S (tested_sources r);
                consulted := asked; printed := printed1; dead := dead' |}, false)
      end
  end.

(** [for source in self.proxy_sources]. *)
Fixpoint fetch_loop (w : world) (cfg : ProxyConfig) (sources : list string)
    (r : run) : run :=
  match sources with
  | [] => r
  | source :: rest =>
      let '(r', stop) := loop_body w cfg source r in
      if stop then r' else fetch_loop w cfg rest r'
  end.

(** [fetch_new_proxies_async(validator)]. *)
Definition fetch_new_proxies_async (w : world) (cfg : ProxyConfig)
    (sources : list string) (validator_dead : gset string) : run :=
  fetch_loop w cfg sources
    {| all_ssl_proxies := []; all_http_proxies := []; tested_sources := 0;
       consulted := []; printed := []; dead := validator_dead |}.

Definition total_working (r : run) : nat :=
  length (all_ssl_proxies r) + length (all_http_proxies r).

(** What a run hands back, apart from the messages it printed. *)
Definition outcome_of (r : run)
  : list string * list string * nat * list string * gset string :=
  (all_ssl_proxies r, all_http_proxies r, tested_sources r, consulted r, dead r).

End ProxyFetcher.

(** ** ProxyRotator *)

Module ProxyRotator.

Record t : Type := {
  ssl_proxies : list string;
  http_proxies : list string;
  current_ssl_index : nat;
  current_http_index : nat
}.

(** [__init__]: two empty deques, both cursors at 0. *)
Definition init : t :=
  {| ssl_proxies := []; http_proxies := [];
     current_ssl_index := 0; current_http_index := 0 |}.

(** [for proxy in proxies: if proxy not in pool: pool.append(proxy)]. *)
Fixpoint append_new (pool proxies : list string) : list string :=
  match proxies with
  | [] => pool
  | proxy :: rest =>
      if decide (proxy ∈ pool) then append_new pool rest
      else append_new (pool ++ [proxy]) rest
  end.

Definition add_ssl_proxies (r : t) (proxies : list string) : t :=
  {| ssl_proxies := append_new (ssl_proxies r) proxies;
     http_proxies := http_proxies r;
     current_ssl_index := current_ssl_index r;
     current_http_index := current_http_index r |}.

Definition add_http_proxies (r : t) (proxies : list string) : t :=
  {| ssl_proxies := ssl_proxies r;
     http_proxies := append_new (http_proxies r) proxies;
     current_ssl_index := current_ssl_index r;
     current_http_index := current_http_index r |}.

Definition get_next_ssl_proxy (r : t) : Py.result (option string * t) :=
  match ssl_proxies r with
  | [] => Py.Ok (None, r)
  | _ =>
      Py.bind (Py.getitem (ssl_proxies r) (current_ssl_index r)) (fun proxy =>
      Py.Ok (Some proxy,
             {| ssl_proxies := ssl_proxies r;
                http_proxies := http_proxies r;
                current_ssl_index :=
                  (current_ssl_index r + 1) mod length (ssl_proxies r);
                current_http_index := current_http_index r |}))
  end.

Definition get_next_http_proxy (r : t) : Py.result (option string * t) :=
  match http_proxies r with
  | [] => Py.Ok (None, r)
  | _ =>
      Py.bind (Py.getitem (http_proxies r) (current_http_index r)) (fun proxy =>
      Py.Ok (Some proxy,
             {| ssl_proxies := ssl_proxies r;
                http_proxies := http_proxies r;
                current_ssl_index := current_ssl_index r;
                current_http_index :=
                  (current_http_index r + 1) mod length (http_proxies r) |}))
  end.

(** [get_next_proxy(site)]; [site] is [None] when the argument is left
    out. *)
Definition get_next_proxy (r : t) (site : option string)
  : Py.result (option string * t) :=
  if decide (site = Some "linkedin") then get_next_ssl_proxy r
  else if decide (site = Some "indeed") then get_next_http_proxy r
  else
    Py.bind (get_next_ssl_proxy r) (fun '(ssl_proxy, r1) =>
    if Py.truthy ssl_proxy then Py.Ok (ssl_proxy, r1)
    else get_next_http_proxy r1).

(** [deque.remove(value)]: drops the first occurrence. The source calls it
    only under [if proxy in pool], where it cannot raise. *)
Fixpoint remove (value : string) (pool : list string) : list string :=
  match pool with
  | [] => []
  | x :: rest => if decide (x = value) then rest else x :: remove value rest
  end.

Definition mark_proxy_dead (r : t) (proxy : string) : bool * t :=
  let '(removed_ssl, ssl, ssl_index) :=
    if decide (proxy ∈ ssl_proxies r) then
      let ssl := remove proxy (ssl_proxies r) in
      (true, ssl,
       if Nat.leb (length ssl) (current_ssl_index r) then 0
       else current_ssl_index r)
    else (false, ssl_proxies r, current_ssl_index r) in
  let '(removed_http, http, http_index) :=
    if decide (proxy ∈ http_proxies r) then
      let http := remove proxy (http_proxies r) in
      (true, http,
       if Nat.leb (length http) (current_http_index r) then 0
       else current_http_index r)
    else (false, http_proxies r, current_http_index r) in
  (removed_ssl || removed_http,
   {| ssl_proxies := ssl; http_proxies := http;
      current_ssl_index := ssl_index; current_http_index := http_index |}).

(** The calls a client can make on a rotator. *)
Inductive call : Type :=
| AddSsl (proxies : list string)
| AddHttp (proxies : list string)
| NextSsl
| NextHttp
| Next (site : option string)
| MarkDead (proxy : string).

(** One call: what it returns to a caller that expects an endpoint, and the
    rotator afterwards. *)
Definition step (r : t) (c : call) : Py.result (option string * t) :=
  match c with
  | AddSsl proxies => Py.Ok (None, add_ssl_proxies r proxies)
  | AddHttp proxies => Py.Ok (None, add_http_proxies r proxies)
  | NextSsl => get_next_ssl_proxy r
  | NextHttp => get_next_http_proxy r
  | Next site => get_next_proxy r site
  | MarkDead proxy => Py.Ok (None, snd (mark_proxy_dead r proxy))
  end.

(** A sequence of calls; the endpoints dispensed are collected in order. *)
Fixpoint steps (r : t) (cs : list call) : Py.result (list (option string) * t) :=
  match cs with
  | [] => Py.Ok ([], r)
  | c :: rest =>
      Py.bind (step r c) (fun '(out, r1) =>
      Py.bind (steps r1 rest) (fun '(outs, r2) =>
      Py.Ok (out :: outs, r2)))
  end.

Definition is_addition (c : call) : bool :=
  match c with
  | AddSsl _ | AddHttp _ => true
  | _ => false
  end.

(** The states a rotator can be in: built by [__init__] and changed by its
    methods only. *)
Inductive reachable : t -> Prop :=
| reachable_init : reachable init
| reachable_step r c out r' :
    reachable r -> step r c = Py.Ok (out, r') -> reachable r'.

(** [n] successive calls of one dispensing method. *)
Fixpoint repeat_next (next : t -> Py.result (option string * t)) (n : nat)
    (r : t) : Py.result (list (option string) * t) :=
  match n with
  | 0 => Py.Ok ([], r)
  | S n' =>
      Py.bind (next r) (fun '(out, r1) =>
      Py.bind (repeat_next next n' r1) (fun '(outs, r2) =>
      Py.Ok (out :: outs, r2)))
  end.

End ProxyRotator.

(** ** SmartProxyManager *)

Module SmartProxyManager.

Record t : Type := {
  config : ProxyConfig;
  (** the file behind [self.storage] *)
  storage : ProxyStorage.disk;
  (** [self.validator.dead_proxies] *)
  validator : gset string;
  (** [self.fetcher.proxy_sources] *)
  fetcher : list string;
  rotator : ProxyRotator.t;
  working_proxies : list string;
  http_proxies : list string;
  ssl_proxies : list string;
  dead_proxies : gset string;
  current_proxy_index : nat;
  current_http_index : nat;
  current_ssl_index : nat
}.

(** [__init__]. *)
Definition init (cfg : ProxyConfig) (d : ProxyStorage.disk)
    (sources : list string) : t :=
  {| config := cfg; storage := d; validator := ∅; fetcher := sources;
     rotator := ProxyRotator.init;
     working_proxies := []; http_proxies := []; ssl_proxies := [];
     dead_proxies := ∅;
     current_proxy_index := 0; current_http_index := 0; current_ssl_index := 0 |}.

(** The rotator after [add_ssl_proxies] and [add_http_proxies], and the
    legacy attributes copied from it. *)
Definition with_pools (m : t) (validator_dead : gset string)
    (r : ProxyRotator.t) : t :=
  {| config := config m; storage := storage m; validator := validator_dead;
     fetcher := fetcher m; rotator := r;
     working_proxies := ProxyRotator.ssl_proxies r ++ ProxyRotator.http_proxies r;
     http_proxies := ProxyRotator.http_proxies r;
     ssl_proxies := ProxyRotator.ssl_proxies r;
     dead_proxies := dead_proxies m;
     current_proxy_index := current_proxy_index m;
     current_http_index := current_http_index m;
     current_ssl_index := current_ssl_index m |}.

Definition load_saved_proxies (m : t) : list string * t :=
  let '(ssl, http) := ProxyStorage.load_saved_proxies (storage m) in
  let r := ProxyRotator.add_http_proxies
             (ProxyRotator.add_ssl_proxies (rotator m) ssl) http in
  let m' := with_pools m (validator m) r in
  (working_proxies m', m').

Definition save_working_proxies (w : world) (m : t)
    (proxies : option (list string)) : t :=
  let '(ssl, http) :=
    match proxies with
    | Some ps =>
        (filter (fun p => ProxyStorage._is_ssl_capable_port p = true) ps,
         filter (fun p => ¬ (ProxyStorage._is_ssl_capable_port p = true)) ps)
    | None =>
        (ProxyRotator.ssl_proxies (rotator m), ProxyRotator.http_proxies (rotator m))
    end in
  {| config := config m;
     storage := ProxyStorage.save_working_proxies (strftime w) (storage m) ssl http;
     validator := validator m; fetcher := fetcher m; rotator := rotator m;
     working_proxies := working_proxies m; http_proxies := http_proxies m;
     ssl_proxies := ssl_proxies m; dead_proxies := dead_proxies m;
     current_proxy_index := current_proxy_index m;
     current_http_index := current_http_index m;
     current_ssl_index := current_ssl_index m |}.

Definition quick_validate_proxies (w : world) (m : t) (proxies : list string)
  : Py.result (list string * t) :=
  match proxies with
  | [] => Py.Ok ([], m)
  | _ =>
      Py.bind
        (ProxyValidator.validate_proxies_async w (config m) (validator m) proxies)
        (fun '(working_ssl_proxies, working_http_proxies, dead) =>
         let r := ProxyRotator.add_http_proxies
                    (ProxyRotator.add_ssl_proxies (rotator m) working_ssl_proxies)
                    working_http_proxies in
         let m' := with_pools m dead r in
         Py.Ok (working_proxies m', m'))
  end.

Definition fetch_new_proxies (w : world) (m : t) : list string * t :=
  let run := ProxyFetcher.fetch_new_proxies_async w (config m) (fetcher m)
               (validator m) in
  let r := ProxyRotator.add_http_proxies
             (ProxyRotator.add_ssl_proxies (rotator m)
                (ProxyFetcher.all_ssl_proxies run))
             (ProxyFetcher.all_http_proxies run) in
  let m' := with_pools m (ProxyFetcher.dead run) r in
  (working_proxies m', m').

Definition mark_proxy_dead (w : world) (m : t) (proxy : string) : t :=
  let '(removed_from_any, r) := ProxyRotator.mark_proxy_dead (rotator m) proxy in
  if removed_from_any then
    let m1 :=
      {| config := config m; storage := storage m; validator := validator m;
         fetcher := fetcher m; rotator := r;
         working_proxies := ProxyRotator.ssl_proxies r ++ ProxyRotator.http_proxies r;
         http_proxies := ProxyRotator.http_proxies r;
         ssl_proxies := ProxyRotator.ssl_proxies r;
         dead_proxies := {[proxy]} ∪ dead_proxies m;
         current_proxy_index := current_proxy_index m;
         current_http_index := current_http_index m;
         current_ssl_index := current_ssl_index m |} in
    save_working_proxies w m1 None
  else
    {| config := config m; storage := storage m; validator := validator m;
       fetcher := fetcher m; rotator := r;
       working_proxies := working_proxies m; http_proxies := http_proxies m;
       ssl_proxies := ssl_proxies m; dead_proxies := dead_proxies m;
       current_proxy_index := current_proxy_index m;
       current_http_index := current_http_index m;
       current_ssl_index := current_ssl_index m |}.

End SmartProxyManager.

(** ** What a request was answered

    The answer of the world to a request the validator sent through
    [proxy]. *)

Module Probe.

Definition answer (w : world) (proxy : string) (req : ProxyValidator.request)
  : response :=
  match ProxyValidator.req_mode req with
  | ProxyValidator.Strict => https_get w true (ProxyValidator.req_url req) proxy
  | ProxyValidator.Relaxed => https_get w false (ProxyValidator.req_url req) proxy
  | ProxyValidator.Plain => http_get w (ProxyValidator.req_url req) proxy
  end.

(** A probe's requests: failures, then at most one success, which ends
    the probe with [True]. *)
Definition stops_at_first_success (w : world) (proxy : string)
    (probe : bool * list ProxyValidator.request) : Prop :=
  ∃ fails final,
    snd probe = fails ++ final
    ∧ Forall (fun req => answer w proxy req ≠ Status 200) fails
    ∧ ((fst probe = false ∧ final = [])
       ∨ (fst probe = true ∧ ∃ req, final = [req] ∧ answer w proxy req = Status 200)).

End Probe.

(** ** The vocabulary of the specification

    Definitions written after the words of the specification, to be
    compared with the functions of the source. *)

Module Spec.

(** "Deduplicated, order-preserving": every endpoint once, at the place of
    its first occurrence. *)
Fixpoint first_occurrences (l : list string) : list string :=
  match l with
  | [] => []
  | x :: rest => x :: filter (fun y => y ≠ x) (first_occurrences rest)
  end.

(** The fixed port allow-list of the specification. *)
Definition allow_list : list Z :=
  [443; 8443; 8442; 9443; 10443; 11443; 12443; 8080; 3128; 1080; 8081; 8888]%Z.

(** The port field of an endpoint: what stands after its first colon, up
    to the next one. *)
Definition port_field (endpoint : string) : option string :=
  Py.split ":"%char endpoint !! 1.

(** The endpoint has a port that reads as the integer [port]. *)
Definition has_port (endpoint : string) (port : Z) : Prop :=
  ∃ field, port_field endpoint = Some field ∧ Py.int field = Py.Ok port.

(** The port of the endpoint is on the allow-list. *)
Definition presumed_ssl (endpoint : string) : Prop :=
  ∃ port, has_port endpoint port ∧ port ∈ allow_list.

(** The pool invariant of the data model: no endpoint twice within a pool,
    no endpoint in both pools. *)
Definition pools_exclusive (ssl http : list string) : Prop :=
  NoDup ssl ∧ NoDup http ∧ ∀ e, e ∈ ssl → e ∉ http.

(** The cursor invariant of the data model. *)
Definition cursor_in_range (pool : list string) (cursor : nat) : Prop :=
  pool ≠ [] → 0 ≤ cursor < length pool.

(** The invariant the rotator keeps: no duplicate within a pool, and each
    cursor either at 0 or on an element of its pool. *)
Definition cursor_ok (pool : list string) (cursor : nat) : Prop :=
  cursor = 0 ∨ cursor < length pool.

Definition rotator_wf (r : ProxyRotator.t) : Prop :=
  NoDup (ProxyRotator.ssl_proxies r)
  ∧ NoDup (ProxyRotator.http_proxies r)
  ∧ cursor_ok (ProxyRotator.ssl_proxies r) (ProxyRotator.current_ssl_index r)
  ∧ cursor_ok (ProxyRotator.http_proxies r) (ProxyRotator.current_http_index r).

(** The cursor after [n] dispenses that started at [k]. *)
Definition cursor_after (len k n : nat) : nat :=
  match n with
  | 0 => k
  | S _ => (k + n) mod len
  end.

(** Sorted by port: the SSL list holds only endpoints whose port is on the
    allow-list, the HTTP list holds none. *)
Definition sorted_by_port (ssl http : list string) : Prop :=
  (∀ e, e ∈ ssl → presumed_ssl e) ∧ (∀ e, e ∈ http → ¬ presumed_ssl e).

(** A cache file that puts no endpoint into the wrong pool: it is absent,
    unreadable, in the legacy shape, or its two pool fields are sorted by
    port. *)
Definition file_sorted_by_port (d : ProxyStorage.disk) : Prop :=
  ∀ data ssl http,
    ProxyStorage.content d = ProxyStorage.Json data →
    ProxyStorage.ssl_proxies data = Some ssl →
    ProxyStorage.http_proxies data = Some http →
    sorted_by_port ssl http.

End Spec.

(** ** More Python string primitives *)

Module PyStr.

(** [c.isspace()] for a code point below 256: what [str.strip()] and
    [str.split()] without argument treat as white space. *)
Definition isspace (c : ascii) : bool :=
  let n := nat_of_ascii c in
  (Nat.leb 9 n && Nat.leb n 13) || (Nat.leb 28 n && Nat.leb n 32)
  || Nat.eqb n 133 || Nat.eqb n 160.

Fixpoint lstrip (l : list ascii) : list ascii :=
  match l with
  | c :: l' => if isspace c then lstrip l' else l
  | [] => []
  end.

(** [s.strip()]. *)
Definition strip (s : string) : string :=
  string_of_list_ascii (rev (lstrip (rev (lstrip (list_ascii_of_string s))))).

(** [s.split()]: the maximal runs of characters that are not white space.
    [cur] is the run being read. *)
Fixpoint words (l : list ascii) (cur : list ascii) : list string :=
  match l with
  | [] => match cur with [] => [] | _ => [string_of_list_ascii cur] end
  | c :: l' =>
      if isspace c then
        match cur with
        | [] => words l' []
        | _ => string_of_list_ascii cur :: words l' []
        end
      else words l' (cur ++ [c])
  end.

Definition split_whitespace (s : string) : list string :=
  words (list_ascii_of_string s) [].

(** [c in s] for a one-character string [c]. *)
Definition contains (c : ascii) (s : string) : bool :=
  existsb (Ascii.eqb c) (list_ascii_of_string s).

(** [s.startswith(c)] for a one-character string [c]. *)
Definition startswith (c : ascii) (s : string) : bool :=
  match s with
  | String c' _ => Ascii.eqb c' c
  | EmptyString => false
  end.

(** [s.split(sep, 1)]: one piece when there is no separator, otherwise what
    stands before the first separator and what stands after it. *)
Fixpoint split_once (sep : ascii) (s : string) : list string :=
  match s with
  | EmptyString => [EmptyString]
  | String c s' =>
      if Ascii.eqb c sep then [EmptyString; s']
      else match split_once sep s' with
           | piece :: pieces => String c piece :: pieces
           | [] => [String c EmptyString]
           end
  end.

(** [a, b = pieces]: a [ValueError] unless there are exactly two. *)
Definition unpack2 (pieces : list string) : Py.result (string * string) :=
  match pieces with
  | [a; b] => Py.Ok (a, b)
  | _ => Py.Raise Py.ValueError
  end.

End PyStr.

(** ** ProxyFetcher: the plain-text parsers *)

Module ProxyParsers.

(** The body of the [try] of [_is_valid_format]. *)
Definition _is_valid_format_try (proxy : string) : Py.result bool :=
  if negb (PyStr.contains ":" proxy) then Py.Ok false
  else
    Py.bind (PyStr.unpack2 (PyStr.split_once ":" proxy)) (fun '(ip, port) =>
    if String.eqb ip "" || String.eqb port "" then Py.Ok false
    else
      Py.bind (Py.int port) (fun port_num =>
      Py.Ok (Z.leb 1 port_num && Z.leb port_num 65535))).

(** [_is_valid_format]: the bare [except] turns every exception into
    [False]. *)
Definition _is_valid_format (proxy : string) : bool :=
  match _is_valid_format_try proxy with
  | Py.Ok b => b
  | Py.Raise _ => false
  end.

(** The body of [for line in ...] of [_parse_text_proxies]: the list
    [proxies] after the line. *)
Definition text_line (proxies : list string) (line : string)
  : Py.result (list string) :=
  let line := PyStr.strip line in
  if negb (String.eqb line "") && PyStr.contains ":" line
     && negb (PyStr.startswith "#" line)
  then
    Py.bind
      (if PyStr.contains " " line then Py.getitem (PyStr.split_whitespace line) 0
       else Py.Ok line)
      (fun proxy =>
       if _is_valid_format proxy then Py.Ok (proxies ++ [proxy])
       else Py.Ok proxies)
  else Py.Ok proxies.

Fixpoint text_lines (lines : list string) (proxies : list string)
  : Py.result (list string) :=
  match lines with
  | [] => Py.Ok proxies
  | line :: rest => Py.bind (text_line proxies line) (text_lines rest)
  end.

(** [_parse_text_proxies]; it has no [try] of its own. *)
Definition _parse_text_proxies (text : string) : Py.result (list string) :=
  text_lines (Py.split "010" (PyStr.strip text)) [].

(** The loop of [_parse_advanced_name_proxies]. *)
Fixpoint advanced_name_words (ws : list string) (proxies : list string)
  : list string :=
  match ws with
  | [] => proxies
  | proxy :: rest =>
      let proxy := PyStr.strip proxy in
      if _is_valid_format proxy then advanced_name_words rest (proxies ++ [proxy])
      else advanced_name_words rest proxies
  end.

(** [_parse_advanced_name_proxies]; nothing in the body of its [try] can
    raise. *)
Definition _parse_advanced_name_proxies (text : string) : list string :=
  advanced_name_words (PyStr.split_whitespace (PyStr.strip text)) [].

(** An endpoint in the format the parsers accept: a non-empty host without
    colon, a colon, and a port field that reads as an integer between 1 and
    65535. *)
Definition well_formed (proxy : string) (port : Z) : Prop :=
  ∃ host field,
    proxy = (host +:+ ":" +:+ field)%string
    ∧ host ≠ ""
    ∧ (":"%char ∉ list_ascii_of_string host)
    ∧ Py.int field = Py.Ok port
    ∧ (1 ≤ port ≤ 65535)%Z.

End ProxyParsers.

(** ** The plain-text list format *)

Module TextFormat.

(** [chr(10).join(lines)]: the lines with a line feed between them. *)
Fixpoint join_lines (lines : list string) : string :=
  match lines with
  | [] => ""
  | [line] => line
  | line :: rest => line +:+ String "010" (join_lines rest)
  end.

(** An endpoint as a plain list carries it: in the accepted format, free
    of white space, and not looking like a comment. *)
Definition clean (proxy : string) : Prop :=
  ProxyParsers._is_valid_format proxy = true
  ∧ Forall (fun c => PyStr.isspace c = false) (list_ascii_of_string proxy)
  ∧ PyStr.startswith "#" proxy = false.

End TextFormat.

(** ** ProxyFetcher: the pages of FreeProxy.world *)

Module Pagination.

(** [str(n)], what the f-string [{page}] prints for a number that is not
    negative. *)
Definition str (n : nat) : string := NilZero.string_of_uint (Nat.to_uint n).

(** What follows [prefix] at the start of [s], when [s] starts with it. *)
Fixpoint after_prefix (prefix s : list ascii) : option (list ascii) :=
  match prefix with
  | [] => Some s
  | p :: prefix' =>
      match s with
      | c :: s' => if Ascii.eqb c p then after_prefix prefix' s' else None
      | [] => None
      end
  end.

(** [needle in s], on the characters of the two strings. *)
Fixpoint occurs (needle s : list ascii) : bool :=
  match after_prefix needle s with
  | Some _ => true
  | None =>
      match s with
      | [] => false
      | _ :: s' => occurs needle s'
      end
  end.

(** [needle in s]. *)
Definition contains (needle s : string) : bool :=
  occurs (list_ascii_of_string needle) (list_ascii_of_string s).

(** What [\d] matches among the code points below 256. *)
Definition isdigit (c : ascii) : bool :=
  let n := nat_of_ascii c in
  Nat.leb 48 n && Nat.leb n 57.

(** [s] without the digits it starts with. *)
Fixpoint after_digits (s : list ascii) : list ascii :=
  match s with
  | c :: s' => if isdigit c then after_digits s' else s
  | [] => []
  end.

(** A match of [page=\d+] at the start of [s]: what follows the match. The
    match takes every digit it can. *)
Definition page_match (s : list ascii) : option (list ascii) :=
  match after_prefix (list_ascii_of_string "page=") s with
  | Some (d :: rest) => if isdigit d then Some (after_digits rest) else None
  | _ => None
  end.

(** The scan of [re.sub(r'page=\d+', repl, s)]: at a match the replacement
    is written and the scan goes on behind the match, elsewhere the
    character is copied. Every step takes at least one character off [s],
    so that a [fuel] of the length of [s] lets the scan reach the end. *)
Fixpoint sub_steps (fuel : nat) (repl s : list ascii) : list ascii :=
  match fuel, s with
  | S fuel', c :: s' =>
      match page_match s with
      | Some rest => repl ++ sub_steps fuel' repl rest
      | None => c :: sub_steps fuel' repl s'
      end
  | _, _ => s
  end.

(** [re.sub(r'page=\d+', repl, s)] for a replacement without backslash. *)
Definition re_sub_page (repl s : string) : string :=
  let chars := list_ascii_of_string s in
  string_of_list_ascii (sub_steps (length chars) (list_ascii_of_string repl) chars).

(** [_construct_page_url(base_url, page)]. *)
Definition _construct_page_url (base_url : string) (page : nat) : string :=
  if contains "page=" base_url then
    re_sub_page ("page=" +:+ str page) base_url
  else if contains "?" base_url then
    base_url +:+ "&page=" +:+ str page
  else
    base_url +:+ "?page=" +:+ str page.



End Pagination.

(** ** The source registry of the fetcher

    [proxy_sources_config] and [proxy_sources] of the fetcher, and the
    methods of the manager that switch sources on and off. *)

Module SourceRegistry.

Record t : Type := {
  proxy_sources_config : list (string * ProxyFetcher.source_config);
  proxy_sources : list string
}.

(** The fetcher as [__init__] leaves it. *)
Definition init : t :=
  {| proxy_sources_config := ProxyFetcher.proxy_sources_config;
     proxy_sources :=
       ProxyFetcher._rebuild_sources_list ProxyFetcher.proxy_sources_config |}.

(** [source_name in self.fetcher.proxy_sources_config]. *)
Definition known (f : t) (source_name : string) : bool :=
  bool_decide (source_name ∈ map fst (proxy_sources_config f)).

(** [config[source_name]["enabled"]]; the test [known] guards it. *)
Definition enabled_of (f : t) (source_name : string) : bool :=
  match list_find (fun entry => fst entry = source_name) (proxy_sources_config f) with
  | Some (_, (_, c)) => ProxyFetcher.enabled c
  | None => false
  end.

(** [config[source_name]["enabled"] = value]: the entry keeps its place. *)
Definition set_enabled (source_name : string) (value : bool)
    (cfgs : list (string * ProxyFetcher.source_config))
  : list (string * ProxyFetcher.source_config) :=
  map (fun entry =>
         if decide (fst entry = source_name)
         then (fst entry,
               {| ProxyFetcher.enabled := value;
                  ProxyFetcher.url := ProxyFetcher.url (snd entry);
                  ProxyFetcher.description := ProxyFetcher.description (snd entry) |})
         else entry)
      cfgs.

(** The assignment followed by [_rebuild_sources_list]. *)
Definition switch (f : t) (source_name : string) (value : bool) : t :=
  let cfgs := set_enabled source_name value (proxy_sources_config f) in
  {| proxy_sources_config := cfgs;
     proxy_sources := ProxyFetcher._rebuild_sources_list cfgs |}.

Definition enable_source (f : t) (source_name : string) : t :=
  if known f source_name then switch f source_name true else f.

Definition disable_source (f : t) (source_name : string) : t :=
  if known f source_name then switch f source_name false else f.

Definition toggle_source (f : t) (source_name : string) : t :=
  if known f source_name
  then switch f source_name (negb (enabled_of f source_name))
  else f.

Definition get_enabled_sources (f : t) : list string :=
  map fst (filter (fun entry => ProxyFetcher.enabled (snd entry) = true)
             (proxy_sources_config f)).

Definition get_disabled_sources (f : t) : list string :=
  map fst (filter (fun entry => ¬ (ProxyFetcher.enabled (snd entry) = true))
             (proxy_sources_config f)).

(** A dictionary has each key once, and the source list is what
    [_rebuild_sources_list] last built. *)
Definition consistent (f : t) : Prop :=
  NoDup (map fst (proxy_sources_config f))
  ∧ proxy_sources f = ProxyFetcher._rebuild_sources_list (proxy_sources_config f).

End SourceRegistry.

(** ** SmartProxyManager: maintenance and start-up *)

Module Lifecycle.

Definition with_verbose (cfg : ProxyConfig) (value : bool) : ProxyConfig :=
  {| min_working_proxies := min_working_proxies cfg;
     validation_timeout := validation_timeout cfg;
     max_workers := max_workers cfg;
     proxy_cache_file := proxy_cache_file cfg;
     ssl_only := ssl_only cfg;
     verbose := value;
     max_pages_per_source := max_pages_per_source cfg |}.

(** [self.config.verbose = value]. *)
Definition set_verbose (m : SmartProxyManager.t) (value : bool)
  : SmartProxyManager.t :=
  {| SmartProxyManager.config := with_verbose (SmartProxyManager.config m) value;
     SmartProxyManager.storage := SmartProxyManager.storage m;
     SmartProxyManager.validator := SmartProxyManager.validator m;
     SmartProxyManager.fetcher := SmartProxyManager.fetcher m;
     SmartProxyManager.rotator := SmartProxyManager.rotator m;
     SmartProxyManager.working_proxies := SmartProxyManager.working_proxies m;
     SmartProxyManager.http_proxies := SmartProxyManager.http_proxies m;
     SmartProxyManager.ssl_proxies := SmartProxyManager.ssl_proxies m;
     SmartProxyManager.dead_proxies := SmartProxyManager.dead_proxies m;
     SmartProxyManager.current_proxy_index := SmartProxyManager.current_proxy_index m;
     SmartProxyManager.current_http_index := SmartProxyManager.current_http_index m;
     SmartProxyManager.current_ssl_index := SmartProxyManager.current_ssl_index m |}.

(** [_quick_validate_proxies_silent]: [verbose] is switched off for the
    validation and put back in the [finally]. *)
Definition _quick_validate_proxies_silent (w : world) (m : SmartProxyManager.t)
    (proxies : list string) : Py.result (list string * SmartProxyManager.t) :=
  match proxies with
  | [] => Py.Ok ([], m)
  | _ =>
      let original_verbose := verbose (SmartProxyManager.config m) in
      let m0 := set_verbose m false in
      Py.bind
        (ProxyValidator.validate_proxies_async w (SmartProxyManager.config m0)
           (SmartProxyManager.validator m0) proxies)
        (fun '(working_ssl_proxies, working_http_proxies, dead) =>
         let r := ProxyRotator.add_http_proxies
                    (ProxyRotator.add_ssl_proxies (SmartProxyManager.rotator m0)
                       working_ssl_proxies)
                    working_http_proxies in
         let m' := SmartProxyManager.with_pools m0 dead r in
         Py.Ok (SmartProxyManager.working_proxies m', set_verbose m' original_verbose))
  end.

(** [maintain_proxy_pool(target_count, min_count)]. *)
Definition maintain_proxy_pool (w : world) (m : SmartProxyManager.t)
    (target_count min_count : nat) : nat * SmartProxyManager.t :=
  let m' :=
    if Nat.ltb (length (SmartProxyManager.working_proxies m)) min_count then
      let '(new_proxies, m1) := SmartProxyManager.fetch_new_proxies w m in
      match new_proxies with
      | [] => m1
      | _ => SmartProxyManager.save_working_proxies w m1 None
      end
    else m in
  (length (SmartProxyManager.working_proxies m'), m').

(** The dictionary [initialize_smart] returns. *)
Record report : Type := {
  status : string;
  working_proxies : nat;
  source : string;
  user_choice : option string
}.

(** What the keyboard delivers to one call of [input()]: a line, or an
    interrupt. A call that finds nothing left raises [EOFError]. *)
Inductive keyboard : Type :=
| Line (s : string)
| Interrupt.

(** How [initialize_smart] ends: it returns its report, or an exception
    leaves it. *)
Inductive ending : Type :=
| Returns (r : report)
| EOFError
| Raises (e : Py.exn).

(** The inner [while True] that asks for 1 or 2 after a fetch without
    result. An interrupt is caught by the [except KeyboardInterrupt] of the
    outer loop. *)
Fixpoint ask_after_fetch (keys : list keyboard) : ending * list keyboard :=
  match keys with
  | [] => (EOFError, [])
  | Interrupt :: rest =>
      (Returns {| status := "exit"; working_proxies := 0; source := "none";
                  user_choice := Some "interrupt" |}, rest)
  | Line s :: rest =>
      let final_choice := PyStr.strip s in
      if String.eqb final_choice "1" then
        (Returns {| status := "no_proxies"; working_proxies := 0; source := "none";
                    user_choice := Some "no_proxies_after_fetch" |}, rest)
      else if String.eqb final_choice "2" then
        (Returns {| status := "exit"; working_proxies := 0; source := "none";
                    user_choice := Some "exit" |}, rest)
      else ask_after_fetch rest
  end.

(** Choice 2 up to the outcome of the fetch: [Some] report when the fetch
    found endpoints, [None] when it found none. *)
Definition fetch_and_report (w : world) (m : SmartProxyManager.t)
  : option report * SmartProxyManager.t :=
  let '(new_proxies, m1) := SmartProxyManager.fetch_new_proxies w m in
  match new_proxies with
  | [] => (None, m1)
  | _ =>
      (Some {| status := "ready"; working_proxies := length new_proxies;
               source := "new"; user_choice := Some "wait" |},
       SmartProxyManager.save_working_proxies w m1 None)
  end.

(** The outer [while True] of the interactive mode. *)
Fixpoint ask (w : world) (m : SmartProxyManager.t) (keys : list keyboard)
  : ending * SmartProxyManager.t * list keyboard :=
  match keys with
  | [] => (EOFError, m, [])
  | Interrupt :: rest =>
      (Returns {| status := "exit"; working_proxies := 0; source := "none";
                  user_choice := Some "interrupt" |}, m, rest)
  | Line s :: rest =>
      let choice := PyStr.strip s in
      if String.eqb choice "1" then
        (Returns {| status := "no_proxies"; working_proxies := 0; source := "none";
                    user_choice := Some "no_proxies" |}, m, rest)
      else if String.eqb choice "2" then
        match fetch_and_report w m with
        | (Some r, m1) => (Returns r, m1, rest)
        | (None, m1) =>
            let '(e, rest') := ask_after_fetch rest in (e, m1, rest')
        end
      else if String.eqb choice "3" then
        (Returns {| status := "exit"; working_proxies := 0; source := "none";
                    user_choice := Some "exit" |}, m, rest)
      else ask w m rest
  end.

(** Step 3 of [initialize_smart]: no working proxies. Without a terminal
    the choice is '2'; when the fetch then finds nothing, [final_choice] is
    set but never looked at, and the function ends at its last [return]. *)
Definition no_working_proxies (w : world) (m : SmartProxyManager.t)
    (interactive : bool) (keys : list keyboard)
  : ending * SmartProxyManager.t * list keyboard :=
  if interactive then ask w m keys
  else
    match fetch_and_report w m with
    | (Some r, m1) => (Returns r, m1, keys)
    | (None, m1) =>
        (Returns {| status := "error"; working_proxies := 0; source := "none";
                    user_choice := Some "error" |}, m1, keys)
    end.

(** [initialize_smart(interactive)]. *)
Definition initialize_smart (w : world) (m : SmartProxyManager.t)
    (interactive : bool) (keys : list keyboard)
  : ending * SmartProxyManager.t * list keyboard :=
  let '(saved_proxies, m1) := SmartProxyManager.load_saved_proxies m in
  match saved_proxies with
  | [] => no_working_proxies w m1 interactive keys
  | _ =>
      match SmartProxyManager.quick_validate_proxies w m1 saved_proxies with
      | Py.Raise e => (Raises e, m1, keys)
      | Py.Ok (working_saved, m2) =>
          let minimum := min_working_proxies (SmartProxyManager.config m2) in
          if Nat.leb minimum (length working_saved) then
            (Returns {| status := "ready"; working_proxies := length working_saved;
                        source := "saved"; user_choice := None |},
             SmartProxyManager.save_working_proxies w m2 None, keys)
          else if Nat.ltb 0 (length working_saved) then
            let m3 := SmartProxyManager.save_working_proxies w m2 None in
            let m4 :=
              if Nat.ltb (length (SmartProxyManager.working_proxies m3)) minimum then
                let '(new_proxies, m') := SmartProxyManager.fetch_new_proxies w m3 in
                match new_proxies with
                | [] => m'
                | _ => SmartProxyManager.save_working_proxies w m' None
                end
              else m3 in
            if Nat.leb minimum (length (SmartProxyManager.working_proxies m4)) then
              (Returns {| status := "ready";
                          working_proxies :=
                            length (SmartProxyManager.working_proxies m4);
                          source := "mixed"; user_choice := None |}, m4, keys)
            else
              (Returns {| status := "insufficient_proxies";
                          working_proxies :=
                            length (SmartProxyManager.working_proxies m4);
                          source := "mixed"; user_choice := None |}, m4, keys)
          else no_working_proxies w m2 interactive keys
      end
  end.

End Lifecycle.

(** ** SmartProxyManager: the calls of a client *)

Module Manager.

(** The manager after a method of its rotator has run. *)
Definition with_rotator (m : SmartProxyManager.t) (r : ProxyRotator.t)
  : SmartProxyManager.t :=
  {| SmartProxyManager.config := SmartProxyManager.config m;
     SmartProxyManager.storage := SmartProxyManager.storage m;
     SmartProxyManager.validator := SmartProxyManager.validator m;
     SmartProxyManager.fetcher := SmartProxyManager.fetcher m;
     SmartProxyManager.rotator := r;
     SmartProxyManager.working_proxies := SmartProxyManager.working_proxies m;
     SmartProxyManager.http_proxies := SmartProxyManager.http_proxies m;
     SmartProxyManager.ssl_proxies := SmartProxyManager.ssl_proxies m;
     SmartProxyManager.dead_proxies := SmartProxyManager.dead_proxies m;
     SmartProxyManager.current_proxy_index := SmartProxyManager.current_proxy_index m;
     SmartProxyManager.current_http_index := SmartProxyManager.current_http_index m;
     SmartProxyManager.current_ssl_index := SmartProxyManager.current_ssl_index m |}.

(** [get_next_proxy(site)]: the rotator's method. *)
Definition get_next_proxy (m : SmartProxyManager.t) (site : option string)
  : Py.result (option string * SmartProxyManager.t) :=
  Py.bind (ProxyRotator.get_next_proxy (SmartProxyManager.rotator m) site)
    (fun '(proxy, r) => Py.Ok (proxy, with_rotator m r)).

Definition get_next_ssl_proxy (m : SmartProxyManager.t)
  : Py.result (option string * SmartProxyManager.t) :=
  Py.bind (ProxyRotator.get_next_ssl_proxy (SmartProxyManager.rotator m))
    (fun '(proxy, r) => Py.Ok (proxy, with_rotator m r)).

Definition get_next_http_proxy (m : SmartProxyManager.t)
  : Py.result (option string * SmartProxyManager.t) :=
  Py.bind (ProxyRotator.get_next_http_proxy (SmartProxyManager.rotator m))
    (fun '(proxy, r) => Py.Ok (proxy, with_rotator m r)).

(** The dictionary [ProxyRotator.get_stats] returns. *)
Record rotator_stats : Type := {
  rotator_ssl_proxies : nat;
  rotator_http_proxies : nat;
  total_proxies : nat;
  rotator_current_ssl_index : nat;
  rotator_current_http_index : nat
}.

Definition rotator_get_stats (r : ProxyRotator.t) : rotator_stats :=
  {| rotator_ssl_proxies := length (ProxyRotator.ssl_proxies r);
     rotator_http_proxies := length (ProxyRotator.http_proxies r);
     total_proxies :=
       length (ProxyRotator.ssl_proxies r) + length (ProxyRotator.http_proxies r);
     rotator_current_ssl_index := ProxyRotator.current_ssl_index r;
     rotator_current_http_index := ProxyRotator.current_http_index r |}.

(** The dictionary [SmartProxyManager.get_stats] returns. *)
Record stats : Type := {
  working_proxies : nat;
  ssl_proxies : nat;
  http_proxies : nat;
  dead_proxies : nat;
  current_index : nat;
  current_ssl_index : nat;
  current_http_index : nat
}.

Definition get_stats (m : SmartProxyManager.t) : stats :=
  let rotator_stats := rotator_get_stats (SmartProxyManager.rotator m) in
  {| working_proxies := total_proxies rotator_stats;
     ssl_proxies := rotator_ssl_proxies rotator_stats;
     http_proxies := rotator_http_proxies rotator_stats;
     dead_proxies := size (SmartProxyManager.dead_proxies m);
     current_index := SmartProxyManager.current_proxy_index m;
     current_ssl_index := rotator_current_ssl_index rotator_stats;
     current_http_index := rotator_current_http_index rotator_stats |}.

(** The methods a client calls on a manager. *)
Inductive call : Type :=
| LoadSaved
| Save (proxies : option (list string))
| QuickValidate (proxies : list string)
| QuickValidateSilent (proxies : list string)
| Fetch
| Next (site : option string)
| NextSsl
| NextHttp
| MarkDead (proxy : string)
| Maintain (target_count min_count : nat)
| InitializeSmart (interactive : bool) (keys : list Lifecycle.keyboard).

(** The manager after one call, in the world the call runs in. For
    [initialize_smart] this is the manager it leaves, whichever way it
    ends. *)
Definition step (w : world) (m : SmartProxyManager.t) (c : call)
  : Py.result SmartProxyManager.t :=
  match c with
  | LoadSaved => Py.Ok (snd (SmartProxyManager.load_saved_proxies m))
  | Save proxies => Py.Ok (SmartProxyManager.save_working_proxies w m proxies)
  | QuickValidate proxies =>
      Py.bind (SmartProxyManager.quick_validate_proxies w m proxies)
        (fun '(_, m') => Py.Ok m')
  | QuickValidateSilent proxies =>
      Py.bind (Lifecycle._quick_validate_proxies_silent w m proxies)
        (fun '(_, m') => Py.Ok m')
  | Fetch => Py.Ok (snd (SmartProxyManager.fetch_new_proxies w m))
  | Next site => Py.bind (get_next_proxy m site) (fun '(_, m') => Py.Ok m')
  | NextSsl => Py.bind (get_next_ssl_proxy m) (fun '(_, m') => Py.Ok m')
  | NextHttp => Py.bind (get_next_http_proxy m) (fun '(_, m') => Py.Ok m')
  | MarkDead proxy => Py.Ok (SmartProxyManager.mark_proxy_dead w m proxy)
  | Maintain target_count min_count =>
      Py.Ok (snd (Lifecycle.maintain_proxy_pool w m target_count min_count))
  | InitializeSmart interactive keys =>
      Py.Ok (snd (fst (Lifecycle.initialize_smart w m interactive keys)))
  end.

(** The states a manager can be in: built by [__init__] and changed by its
    methods only, each call in a world of its own. *)
Inductive reachable : SmartProxyManager.t -> Prop :=
| reachable_init cfg d sources : reachable (SmartProxyManager.init cfg d sources)
| reachable_step w m c m' :
    reachable m -> step w m c = Py.Ok m' -> reachable m'.

(** The states a manager reaches from [m0] through its methods. *)
Inductive reaches (m0 : SmartProxyManager.t) : SmartProxyManager.t -> Prop :=
| reaches_refl : reaches m0 m0
| reaches_step w m c m' :
    reaches m0 m -> step w m c = Py.Ok m' -> reaches m0 m'.

(** The legacy attributes are the rotator's pools. *)
Definition mirrors (m : SmartProxyManager.t) : Prop :=
  SmartProxyManager.ssl_proxies m
  = ProxyRotator.ssl_proxies (SmartProxyManager.rotator m)
  ∧ SmartProxyManager.http_proxies m
    = ProxyRotator.http_proxies (SmartProxyManager.rotator m)
  ∧ SmartProxyManager.working_proxies m
    = ProxyRotator.ssl_proxies (SmartProxyManager.rotator m)
      ++ ProxyRotator.http_proxies (SmartProxyManager.rotator m).

End Manager.

(** ** The cache file as an older reader sees it *)

Module Compat.

(** The snapshot without its two pool fields: only the combined list and
    what came with it. *)
Definition legacy_view (data : ProxyStorage.snapshot) : ProxyStorage.snapshot :=
  {| ProxyStorage.working_proxies := ProxyStorage.working_proxies data;
     ProxyStorage.ssl_proxies := None;
     ProxyStorage.http_proxies := None;
     ProxyStorage.saved_at := ProxyStorage.saved_at data;
     ProxyStorage.count := ProxyStorage.count data;
     ProxyStorage.ssl_count := None;
     ProxyStorage.http_count := None |}.

End Compat.

(** ** What a fetch run harvests *)

Module Fetched.

(** The working endpoints a run has collected and the validator's dead
    set: what the run hands on, apart from its bookkeeping. *)
Definition harvest (r : ProxyFetcher.run)
  : list string * list string * gset string :=
  (ProxyFetcher.all_ssl_proxies r, ProxyFetcher.all_http_proxies r,
   ProxyFetcher.dead r).

(** A source listed the endpoint. *)
Definition listed (w : world) (sources : list string) (e : string) : Prop :=
  ∃ source l, source ∈ sources ∧ fetch_from_source w source = Py.Ok l ∧ e ∈ l.

(** The endpoint was listed, has an SSL-capable port and passed the SSL
    probe. *)
Definition ssl_fact (w : world) (sources : list string) (e : string) : Prop :=
  listed w sources e
  ∧ Spec.presumed_ssl e
  ∧ fst (ProxyValidator._validate_ssl_proxy_async w e) = true.

(** The endpoint was listed, has no SSL-capable port, passed the HTTP
    probe, and the run was not in SSL-only mode. *)
Definition http_fact (w : world) (cfg : ProxyConfig) (sources : list string)
    (e : string) : Prop :=
  listed w sources e
  ∧ ¬ Spec.presumed_ssl e
  ∧ fst (ProxyValidator._validate_http_proxy_async w e) = true
  ∧ ssl_only cfg = false.

End Fetched.

(** ** Concrete scenarios

    Files, worlds and pools used to exercise the engine on explicit
    inputs. *)

Module Scenario.

(** A cache file in the legacy shape: only the combined list. *)
Definition legacy_file (l : list string) : ProxyStorage.disk :=
  {| ProxyStorage.content :=
       ProxyStorage.Json
         {| ProxyStorage.working_proxies := Some l;
            ProxyStorage.ssl_proxies := None;
            ProxyStorage.http_proxies := None;
            ProxyStorage.saved_at := None;
            ProxyStorage.count := Some (length l);
            ProxyStorage.ssl_count := None;
            ProxyStorage.http_count := None |};
     ProxyStorage.write_error := None;
     ProxyStorage.writes := 0 |}.

(** A cache file in the current shape, as a hand could have written it. *)
Definition current_file (ssl http : list string) : ProxyStorage.disk :=
  {| ProxyStorage.content :=
       ProxyStorage.Json
         {| ProxyStorage.working_proxies := Some (ssl ++ http);
            ProxyStorage.ssl_proxies := Some ssl;
            ProxyStorage.http_proxies := Some http;
            ProxyStorage.saved_at := Some "2024-01-01 00:00:00";
            ProxyStorage.count := Some (length (ssl ++ http));
            ProxyStorage.ssl_count := Some (length ssl);
            ProxyStorage.http_count := Some (length http) |};
     ProxyStorage.write_error := None;
     ProxyStorage.writes := 0 |}.

(** No cache file yet, on a writable disk. *)
Definition empty_disk : ProxyStorage.disk :=
  {| ProxyStorage.content := ProxyStorage.NoFile;
     ProxyStorage.write_error := None;
     ProxyStorage.writes := 0 |}.

(** A world in which nothing answers: every request through every proxy
    fails and no source yields an endpoint. *)
Definition silent_world : world :=
  {| https_get := fun _ _ _ => Failed;
     http_get := fun _ _ => Failed;
     fetch_from_source := fun _ => Py.Ok [];
     strftime := "2024-01-01 00:00:00" |}.

(** A world in which every proxy passes HTTPS only when certificates are
    not verified. *)
Definition relaxed_world : world :=
  {| https_get := fun verify _ _ => if verify then Failed else Status 200;
     http_get := fun _ _ => Failed;
     fetch_from_source := fun _ => Py.Ok [];
     strftime := "2024-01-01 00:00:00" |}.

(** A manager whose cache file lists one SSL endpoint. *)
Definition fresh_manager : SmartProxyManager.t :=
  SmartProxyManager.init default_config (current_file ["1.2.3.4:8080"] [])
    (ProxyFetcher._rebuild_sources_list ProxyFetcher.proxy_sources_config).

(** Three sources: the first lists 12 endpoints, the second 15, the third
    5, all on SSL-capable ports. *)
Definition first_source_proxies : list string :=
  ["10.0.1.1:8080"; "10.0.1.2:8080"; "10.0.1.3:8080"; "10.0.1.4:8080";
   "10.0.1.5:8080"; "10.0.1.6:8080"; "10.0.1.7:8080"; "10.0.1.8:8080";
   "10.0.1.9:8080"; "10.0.1.10:8080"; "10.0.1.11:8080"; "10.0.1.12:8080"].

Definition second_source_proxies : list string :=
  ["10.0.2.1:3128"; "10.0.2.2:3128"; "10.0.2.3:3128"; "10.0.2.4:3128";
   "10.0.2.5:3128"; "10.0.2.6:3128"; "10.0.2.7:3128"; "10.0.2.8:3128";
   "10.0.2.9:3128"; "10.0.2.10:3128"; "10.0.2.11:3128"; "10.0.2.12:3128";
   "10.0.2.13:3128"; "10.0.2.14:3128"; "10.0.2.15:3128"].

Definition third_source_proxies : list string :=
  ["10.0.3.1:443"; "10.0.3.2:443"; "10.0.3.3:443"; "10.0.3.4:443";
   "10.0.3.5:443"].

(** A world in which every proxy works and the three sources answer with
    their lists. *)
Definition generous_world : world :=
  {| https_get := fun _ _ _ => Status 200;
     http_get := fun _ _ => Status 200;
     fetch_from_source := fun source =>
       if String.eqb source "https://first.example/list" then Py.Ok first_source_proxies
       else if String.eqb source "https://second.example/list" then Py.Ok second_source_proxies
       else if String.eqb source "https://third.example/list" then Py.Ok third_source_proxies
       else Py.Raise Py.OSError;
     strftime := "2024-01-01 00:00:00" |}.

Definition three_sources : list string :=
  ["https://first.example/list"; "https://second.example/list";
   "https://third.example/list"].

(** A manager that has just loaded a cache file with one endpoint in each
    pool. *)
Definition loaded_manager : SmartProxyManager.t :=
  snd (SmartProxyManager.load_saved_proxies
         (SmartProxyManager.init default_config
            (current_file ["1.2.3.4:8080"] ["5.6.7.8:80"]) [])).

(** A manager that asks for one working endpoint, whose cache file lists
    one. *)
Definition modest_manager : SmartProxyManager.t :=
  SmartProxyManager.init (with_min_working_proxies default_config 1)
    (current_file ["1.2.3.4:8080"] [])
    (ProxyFetcher._rebuild_sources_list ProxyFetcher.proxy_sources_config).

(** A manager that has no cache file yet. *)
Definition first_run_manager : SmartProxyManager.t :=
  SmartProxyManager.init default_config empty_disk
    (ProxyFetcher._rebuild_sources_list ProxyFetcher.proxy_sources_config).

(** A manager that has loaded a cache file with one endpoint in each pool
    and can no longer write it. *)
Definition read_only_manager : SmartProxyManager.t :=
  snd (SmartProxyManager.load_saved_proxies
         (SmartProxyManager.init default_config
            {| ProxyStorage.content :=
                 ProxyStorage.content (current_file ["1.2.3.4:8080"] ["5.6.7.8:80"]);
               ProxyStorage.write_error := Some Py.OSError;
               ProxyStorage.writes := 0 |} [])).

(** A manager without cache file and without endpoints, which fetches from
    the three sources of the example. *)
Definition starving_manager : SmartProxyManager.t :=
  SmartProxyManager.init default_config empty_disk three_sources.

End Scenario.

(** * Properties *)

(** ** Storage: deduplication *)

Section Deduplication.

Import ProxyStorage.

Lemma filter_all_id (P : string → Prop) `{!∀ x, Decision (P x)} (l : list string) :
  (∀ x, x ∈ l → P x) → filter P l = l.
Proof.
  induction l as [|y l IH]; intros HP; [done|].
  rewrite filter_cons_True by (apply HP; left).
  f_equal. apply IH. intros x Hx. apply HP. by right.
Qed.

Lemma first_occurrences_elem (l : list string) (x : string) :
  x ∈ Spec.first_occurrences l ↔ x ∈ l.
Proof.
  induction l as [|y l IH]; simpl; [done|].
  rewrite !elem_of_cons, list_elem_of_filter, IH.
  destruct (decide (x = y)); tauto.
Qed.

Lemma first_occurrences_NoDup (l : list string) :
  NoDup (Spec.first_occurrences l).
Proof.
  induction l as [|y l IH]; simpl; [constructor|].
  apply NoDup_cons; split.
  - rewrite list_elem_of_filter. tauto.
  - by apply NoDup_filter.
Qed.

Lemma first_occurrences_id (l : list string) :
  NoDup l → Spec.first_occurrences l = l.
Proof.
  induction 1 as [|y l Hy Hl IH]; simpl; [done|].
  rewrite IH. f_equal. apply filter_all_id.
  intros x Hx ->. by apply Hy.
Qed.

Lemma first_occurrences_idemp (l : list string) :
  Spec.first_occurrences (Spec.first_occurrences l) = Spec.first_occurrences l.
Proof. apply first_occurrences_id, first_occurrences_NoDup. Qed.

Lemma first_occurrences_sublist (l : list string) :
  Spec.first_occurrences l `sublist_of` l.
Proof.
  induction l as [|y l IH]; simpl; [done|].
  apply sublist_skip. etrans; [apply sublist_filter|done].
Qed.

(** The loop invariant of [_deduplicate_list]: [seen] holds exactly the
    endpoints of [result], and what is still appended are the first
    occurrences not yet in [result]. *)
Lemma _deduplicate_loop_spec (l : list string) (seen : gset string)
    (result : list string) :
  (∀ x, x ∈ seen ↔ x ∈ result) →
  _deduplicate_loop l seen result
  = result ++ filter (fun x => x ∉ result) (Spec.first_occurrences l).
Proof.
  revert seen result.
  induction l as [|y l IH]; intros seen result Hseen; simpl.
  - by rewrite app_nil_r.
  - destruct (decide (y ∈ seen)) as [Hy|Hy].
    + rewrite (IH _ _ Hseen). f_equal.
      rewrite filter_cons_False by (rewrite <- Hseen; tauto).
      rewrite list_filter_filter. apply list_filter_iff.
      intros x. split; [|tauto].
      intros Hx. split; [done|]. intros ->. apply Hx. by apply Hseen.
    + rewrite (IH ({[y]} ∪ seen) (result ++ [y])).
      2:{ intros x. rewrite elem_of_union, elem_of_singleton, elem_of_app,
            list_elem_of_singleton, Hseen. tauto. }
      rewrite filter_cons_True by (rewrite <- Hseen; done).
      rewrite <- app_assoc. simpl. do 2 f_equal.
      rewrite list_filter_filter. apply list_filter_iff.
      intros x. rewrite elem_of_app, list_elem_of_singleton. tauto.
Qed.

(** [_deduplicate_list] computes the first occurrences. *)
Lemma _deduplicate_list_spec (l : list string) :
  _deduplicate_list l = Spec.first_occurrences l.
Proof.
  unfold _deduplicate_list.
  rewrite _deduplicate_loop_spec by (intros x; rewrite elem_of_empty, elem_of_nil; tauto).
  simpl. apply filter_all_id. intros x _. apply not_elem_of_nil.
Qed.

End Deduplication.

(** ** Storage: classification by port *)

Section Classification.

Import ProxyStorage.

(** The allow-list of the source is the one the specification prints. *)
Lemma ssl_ports_allow_list : ssl_ports = Spec.allow_list.
Proof. reflexivity. Qed.

(** The validator carries its own copy of the port test; both copies are
    the same function. *)
Lemma validator_is_ssl_capable_port (proxy : string) :
  ProxyValidator._is_ssl_capable_port proxy = _is_ssl_capable_port proxy.
Proof. reflexivity. Qed.

Lemma _is_ssl_capable_port_true (proxy : string) :
  _is_ssl_capable_port proxy = true ↔ Spec.presumed_ssl proxy.
Proof.
  unfold _is_ssl_capable_port, _is_ssl_capable_port_try, Spec.presumed_ssl,
    Spec.has_port, Spec.port_field, Py.getitem.
  destruct (Py.split ":" proxy !! 1) as [field|] eqn:Hfield; simpl.
  - destruct (Py.int field) as [port|e] eqn:Hport; simpl.
    + rewrite bool_decide_eq_true. split.
      * intros Hin. exists port. split; [by exists field|done].
      * intros (port' & (field' & Hf & Hp) & Hin).
        injection Hf as <-. rewrite Hport in Hp. injection Hp as <-. exact Hin.
    + split; [done|]. intros (port' & (field' & Hf & Hp) & Hin). congruence.
  - split; [done|]. intros (port' & (field' & Hf & Hp) & Hin). congruence.
Qed.

(** An endpoint without a port field, or whose port field does not read as
    an integer, fails the port test. *)
Lemma _is_ssl_capable_port_unparsable (proxy : string) :
  (∀ port, ¬ Spec.has_port proxy port) → _is_ssl_capable_port proxy = false.
Proof.
  intros Hno. apply not_true_is_false. rewrite _is_ssl_capable_port_true.
  intros (port & Hport & _). by apply (Hno port).
Qed.

(** The legacy branch of [load_saved_proxies], in the words of the
    specification. *)
Lemma load_legacy (d : disk) (data : snapshot) (l : list string) :
  content d = Json data →
  ssl_proxies data = None ∨ http_proxies data = None →
  working_proxies data = Some l →
  load_saved_proxies_try (content d)
  = Py.Ok (filter (fun p => _is_ssl_capable_port p = true) (Spec.first_occurrences l),
           filter (fun p => ¬ (_is_ssl_capable_port p = true)) (Spec.first_occurrences l)).
Proof.
  intros -> Hshape Hl. simpl. rewrite Hl. simpl. rewrite _deduplicate_list_spec.
  destruct Hshape as [-> | Hh]; [done|].
  rewrite Hh. by destruct (ssl_proxies data).
Qed.

End Classification.

(** C6. When the cache file holds only the legacy combined list (one of
    the two pool fields is missing), [load_saved_proxies] sorts every entry
    by the port allow-list 443, 8443, 8442, 9443, 10443, 11443, 12443,
    8080, 3128, 1080, 8081, 8888: the SSL pool holds exactly the entries
    whose port is on the list, the HTTP pool all the others, both in the
    order of the file; and the file with ["1.2.3.4:443"; "5.6.7.8:80"]
    loads as SSL pool ["1.2.3.4:443"] and HTTP pool ["5.6.7.8:80"]. *)
Theorem legacy_load_reclassifies_by_port :
  (∀ (d : ProxyStorage.disk) (data : ProxyStorage.snapshot) (l : list string),
     ProxyStorage.content d = ProxyStorage.Json data →
     ProxyStorage.ssl_proxies data = None ∨ ProxyStorage.http_proxies data = None →
     ProxyStorage.working_proxies data = Some l →
     ∃ ssl http,
       ProxyStorage.load_saved_proxies d = (ssl, http)
       ∧ (∀ p, p ∈ ssl ↔ p ∈ l ∧ Spec.presumed_ssl p)
       ∧ (∀ p, p ∈ http ↔ p ∈ l ∧ ¬ Spec.presumed_ssl p)
       ∧ ssl `sublist_of` l ∧ http `sublist_of` l)
  ∧ ProxyStorage.load_saved_proxies
      (Scenario.legacy_file ["1.2.3.4:443"; "5.6.7.8:80"])
    = (["1.2.3.4:443"], ["5.6.7.8:80"]).
Proof.
  split; [|by vm_compute].
  intros d data l Hd Hshape Hl.
  unfold ProxyStorage.load_saved_proxies.
  rewrite (load_legacy d data l Hd Hshape Hl).
  eexists _, _. split; [reflexivity|].
  split; [|split; [|split]].
  - intros p.
    rewrite list_elem_of_filter, first_occurrences_elem, _is_ssl_capable_port_true.
    tauto.
  - intros p.
    rewrite list_elem_of_filter, first_occurrences_elem, _is_ssl_capable_port_true.
    tauto.
  - etrans; [apply sublist_filter|apply first_occurrences_sublist].
  - etrans; [apply sublist_filter|apply first_occurrences_sublist].
Qed.

(** The general part of C6 at the file of the specification's example. *)
Lemma legacy_load_reclassifies_by_port_witness :
  ∃ ssl http,
    ProxyStorage.load_saved_proxies
      (Scenario.legacy_file ["1.2.3.4:443"; "5.6.7.8:80"]) = (ssl, http)
    ∧ (∀ p, p ∈ ssl ↔ p ∈ ["1.2.3.4:443"; "5.6.7.8:80"] ∧ Spec.presumed_ssl p)
    ∧ (∀ p, p ∈ http ↔ p ∈ ["1.2.3.4:443"; "5.6.7.8:80"] ∧ ¬ Spec.presumed_ssl p)
    ∧ ssl `sublist_of` ["1.2.3.4:443"; "5.6.7.8:80"]
    ∧ http `sublist_of` ["1.2.3.4:443"; "5.6.7.8:80"].
Proof.
  eapply (proj1 legacy_load_reclassifies_by_port
            (Scenario.legacy_file ["1.2.3.4:443"; "5.6.7.8:80"]));
    [reflexivity | left; reflexivity | reflexivity].
Defined.

(** ** Storage: saving and loading *)

Section RoundTrip.

Import ProxyStorage.

Lemma load_current (d : disk) (data : snapshot) (ssl http : list string) :
  content d = Json data →
  ssl_proxies data = Some ssl →
  http_proxies data = Some http →
  load_saved_proxies d = (Spec.first_occurrences ssl, Spec.first_occurrences http).
Proof.
  intros Hd Hs Hh. unfold load_saved_proxies. rewrite Hd. simpl.
  by rewrite Hs, Hh, !_deduplicate_list_spec.
Qed.

Lemma save_content (now : string) (d : disk) (ssl http : list string) :
  write_error d = None →
  content (save_working_proxies now d ssl http) = Json (saved_data now ssl http).
Proof. intros Hw. unfold save_working_proxies. by rewrite Hw. Qed.

(** A failed write leaves the disk as it was. *)
Lemma save_failed (now : string) (d : disk) (ssl http : list string) (e : Py.exn) :
  write_error d = Some e → save_working_proxies now d ssl http = d.
Proof. intros Hw. unfold save_working_proxies. by rewrite Hw. Qed.

(** Whatever the file holds, the two loaded pools have no duplicates. *)
Lemma load_NoDup (d : disk) :
  NoDup (fst (load_saved_proxies d)) ∧ NoDup (snd (load_saved_proxies d)).
Proof.
  unfold load_saved_proxies.
  destruct (content d) as [|e|data]; simpl; try (split; constructor).
  destruct (ssl_proxies data) as [ssl|], (http_proxies data) as [http|]; simpl;
    rewrite ?_deduplicate_list_spec;
    split; try apply NoDup_filter; apply first_occurrences_NoDup.
Qed.

End RoundTrip.

(** C8. For every pair of pools, [save_working_proxies] followed by
    [load_saved_proxies] returns the deduplicated, order-preserving
    versions of the two pools (the write itself succeeding); for pools
    without duplicates the round trip is the identity. *)
Theorem save_then_load_round_trip (now : string) (d : ProxyStorage.disk)
    (sslList httpList : list string) :
  ProxyStorage.write_error d = None →
  ProxyStorage.load_saved_proxies
    (ProxyStorage.save_working_proxies now d sslList httpList)
  = (Spec.first_occurrences sslList, Spec.first_occurrences httpList)
  ∧ (NoDup sslList → NoDup httpList →
     ProxyStorage.load_saved_proxies
       (ProxyStorage.save_working_proxies now d sslList httpList)
     = (sslList, httpList)).
Proof.
  intros Hw.
  assert (ProxyStorage.load_saved_proxies
            (ProxyStorage.save_working_proxies now d sslList httpList)
          = (Spec.first_occurrences sslList, Spec.first_occurrences httpList)) as Hload.
  { rewrite (load_current _ (ProxyStorage.saved_data now sslList httpList)
               (ProxyStorage._deduplicate_list sslList)
               (ProxyStorage._deduplicate_list httpList));
      [|by apply save_content|done|done].
    by rewrite !_deduplicate_list_spec, !first_occurrences_idemp. }
  split; [done|].
  intros Hs Hh. rewrite Hload. by rewrite !first_occurrences_id.
Qed.

(** C8 on a fresh disk, with a duplicate in each pool. *)
Lemma save_then_load_round_trip_witness :
  ProxyStorage.load_saved_proxies
    (ProxyStorage.save_working_proxies "2024-01-01 00:00:00" Scenario.empty_disk
       ["1.2.3.4:443"; "9.9.9.9:8080"; "1.2.3.4:443"] ["5.6.7.8:80"; "5.6.7.8:80"])
  = (["1.2.3.4:443"; "9.9.9.9:8080"], ["5.6.7.8:80"]).
Proof.
  exact (proj1 (save_then_load_round_trip "2024-01-01 00:00:00" Scenario.empty_disk
                  ["1.2.3.4:443"; "9.9.9.9:8080"; "1.2.3.4:443"]
                  ["5.6.7.8:80"; "5.6.7.8:80"] eq_refl)).
Defined.

(** ** The port test on malformed endpoints *)

Section Malformed.

Import ProxyStorage.

(** A string without the separator is its own single piece, so it has no
    port field. *)
Lemma split_no_separator (sep : ascii) (s : string) :
  sep ∉ list_ascii_of_string s → Py.split sep s = [s].
Proof.
  induction s as [|c s IH]; simpl; [done|].
  intros Hnot. apply not_elem_of_cons in Hnot as [Hc Hs].
  destruct (Ascii.eqb_spec c sep) as [->|_]; [done|].
  by rewrite (IH Hs).
Qed.

Lemma no_separator_no_port (proxy : string) (port : Z) :
  ":"%char ∉ list_ascii_of_string proxy → ¬ Spec.has_port proxy port.
Proof.
  intros Hnot (field & Hfield & _). unfold Spec.port_field in Hfield.
  by rewrite (split_no_separator _ _ Hnot) in Hfield.
Qed.

End Malformed.

(** C9. [_is_ssl_capable_port] never raises: whatever the body of its
    [try] does, it returns a boolean, and [False] when the body raised.
    Every string whose port does not read as an integer (no port field at
    all, as for the empty string or a string without a colon, or a field
    that is not an integer) is classified non-SSL. Hence a malformed entry
    of a legacy file is loaded, without failure, into the HTTP pool and not
    into the SSL pool. *)
Theorem port_test_never_raises :
  (∀ proxy : string,
     match ProxyStorage._is_ssl_capable_port_try proxy with
     | Py.Ok b => ProxyStorage._is_ssl_capable_port proxy = b
     | Py.Raise _ => ProxyStorage._is_ssl_capable_port proxy = false
     end)
  ∧ (∀ proxy : string,
       (∀ port, ¬ Spec.has_port proxy port) →
       ProxyStorage._is_ssl_capable_port proxy = false)
  ∧ (∀ proxy : string,
       ":"%char ∉ list_ascii_of_string proxy →
       ProxyStorage._is_ssl_capable_port proxy = false)
  ∧ ProxyStorage._is_ssl_capable_port "" = false
  ∧ ProxyStorage._is_ssl_capable_port "1.2.3.4:http" = false
  ∧ (∀ (d : ProxyStorage.disk) (data : ProxyStorage.snapshot)
       (l : list string) (p : string),
       ProxyStorage.content d = ProxyStorage.Json data →
       ProxyStorage.ssl_proxies data = None ∨ ProxyStorage.http_proxies data = None →
       ProxyStorage.working_proxies data = Some l →
       p ∈ l →
       (∀ port, ¬ Spec.has_port p port) →
       ∃ ssl http,
         ProxyStorage.load_saved_proxies_try (ProxyStorage.content d) = Py.Ok (ssl, http)
         ∧ ProxyStorage.load_saved_proxies d = (ssl, http)
         ∧ p ∈ http ∧ p ∉ ssl).
Proof.
  split; [|split; [|split; [|split; [|split]]]].
  - intros proxy. unfold ProxyStorage._is_ssl_capable_port.
    by destruct (ProxyStorage._is_ssl_capable_port_try proxy).
  - apply _is_ssl_capable_port_unparsable.
  - intros proxy Hnot. apply _is_ssl_capable_port_unparsable.
    intros port. by apply no_separator_no_port.
  - reflexivity.
  - by vm_compute.
  - intros d data l p Hd Hshape Hl Hp Hbad.
    pose proof (_is_ssl_capable_port_unparsable p Hbad) as Hfalse.
    eexists _, _. split; [by apply (load_legacy d data l)|].
    split.
    { unfold ProxyStorage.load_saved_proxies.
      by rewrite (load_legacy d data l Hd Hshape Hl). }
    rewrite !list_elem_of_filter, first_occurrences_elem, Hfalse.
    split; [split; [discriminate|done]|]. intros [? _]. discriminate.
Qed.

(** C9 at a legacy file whose second entry has a port that is no
    integer. *)
Lemma port_test_never_raises_witness :
  ∃ ssl http,
    ProxyStorage.load_saved_proxies_try
      (ProxyStorage.content (Scenario.legacy_file ["1.2.3.4:443"; "1.2.3.4:http"]))
    = Py.Ok (ssl, http)
    ∧ ProxyStorage.load_saved_proxies
        (Scenario.legacy_file ["1.2.3.4:443"; "1.2.3.4:http"]) = (ssl, http)
    ∧ "1.2.3.4:http" ∈ http ∧ "1.2.3.4:http" ∉ ssl.
Proof.
  eapply (proj2 (proj2 (proj2 (proj2 (proj2 port_test_never_raises))))
            (Scenario.legacy_file ["1.2.3.4:443"; "1.2.3.4:http"])).
  - reflexivity.
  - left; reflexivity.
  - reflexivity.
  - right; left.
  - intros port (field & Hfield & Hport).
    vm_compute in Hfield. injection Hfield as <-.
    vm_compute in Hport. discriminate Hport.
Defined.

(** ** Rotator: pools *)

Section Pools.

Import ProxyRotator.

Lemma append_new_elem (proxies pool : list string) (x : string) :
  x ∈ append_new pool proxies ↔ x ∈ pool ∨ x ∈ proxies.
Proof.
  revert pool. induction proxies as [|p proxies IH]; intros pool; simpl.
  - rewrite elem_of_nil. tauto.
  - destruct (decide (p ∈ pool)) as [Hp|Hp]; rewrite IH, ?elem_of_app,
      ?list_elem_of_singleton, elem_of_cons.
    + split; [tauto|]. intros [?|[->|?]]; tauto.
    + tauto.
Qed.

Lemma append_new_NoDup (proxies pool : list string) :
  NoDup pool → NoDup (append_new pool proxies).
Proof.
  revert pool. induction proxies as [|p proxies IH]; intros pool Hpool; simpl.
  - done.
  - destruct (decide (p ∈ pool)) as [Hp|Hp]; apply IH; [done|].
    apply NoDup_app. split; [done|]. split; [|apply NoDup_singleton].
    intros x Hx. rewrite list_elem_of_singleton. by intros ->.
Qed.

(** Additions only append: the pool before is a prefix of the pool after. *)
Lemma append_new_prefix (proxies pool : list string) :
  ∃ added, append_new pool proxies = pool ++ added.
Proof.
  revert pool. induction proxies as [|p proxies IH]; intros pool; simpl.
  - exists []. by rewrite app_nil_r.
  - destruct (decide (p ∈ pool)) as [Hp|Hp]; [apply IH|].
    destruct (IH (pool ++ [p])) as [added ->].
    exists (p :: added). by rewrite <- app_assoc.
Qed.

Lemma append_new_length (proxies pool : list string) :
  length pool ≤ length (append_new pool proxies).
Proof.
  destruct (append_new_prefix proxies pool) as [added ->].
  rewrite length_app. lia.
Qed.

Lemma remove_elem (value : string) (pool : list string) (x : string) :
  x ∈ remove value pool → x ∈ pool.
Proof.
  induction pool as [|y pool IH]; simpl; [done|].
  destruct (decide (y = value)); rewrite ?elem_of_cons; [tauto|].
  intros [->|?]; [tauto|]. right. by apply IH.
Qed.

Lemma remove_NoDup (value : string) (pool : list string) :
  NoDup pool → NoDup (remove value pool).
Proof.
  induction 1 as [|y pool Hy Hpool IH]; simpl; [constructor|].
  destruct (decide (y = value)); [done|].
  apply NoDup_cons. split; [|done]. intros Hin. by apply Hy, (remove_elem value).
Qed.

Lemma remove_gone (value : string) (pool : list string) :
  NoDup pool → value ∉ remove value pool.
Proof.
  induction 1 as [|y pool Hy Hpool IH]; simpl; [apply not_elem_of_nil|].
  destruct (decide (y = value)) as [->|Hne]; [done|].
  apply not_elem_of_cons. split; [congruence|done].
Qed.

Lemma remove_absent (value : string) (pool : list string) :
  value ∉ pool → remove value pool = pool.
Proof.
  induction pool as [|y pool IH]; simpl; [done|].
  intros Hnot. apply not_elem_of_cons in Hnot as [Hne Hnot].
  destruct (decide (y = value)); [congruence|]. by rewrite IH.
Qed.

End Pools.

(** ** Rotator: the invariant *)

Section Invariant.

Import ProxyRotator.

Lemma cursor_ok_in_range (pool : list string) (cursor : nat) :
  Spec.cursor_ok pool cursor → Spec.cursor_in_range pool cursor.
Proof.
  unfold Spec.cursor_ok, Spec.cursor_in_range.
  intros Hc Hne. destruct pool as [|x pool]; [done|].
  simpl in *. lia.
Qed.

Lemma cursor_ok_grow (pool pool' : list string) (cursor : nat) :
  length pool ≤ length pool' → Spec.cursor_ok pool cursor → Spec.cursor_ok pool' cursor.
Proof. unfold Spec.cursor_ok. lia. Qed.

Lemma cursor_ok_reset (pool : list string) (cursor : nat) :
  Spec.cursor_ok pool (if Nat.leb (length pool) cursor then 0 else cursor).
Proof.
  destruct (Nat.leb_spec (length pool) cursor); [by left|by right].
Qed.

Lemma init_wf : Spec.rotator_wf init.
Proof.
  unfold Spec.rotator_wf, Spec.cursor_ok. simpl.
  split; [constructor|]. split; [constructor|]. split; by left.
Qed.

Lemma add_ssl_proxies_wf (r : t) (proxies : list string) :
  Spec.rotator_wf r → Spec.rotator_wf (add_ssl_proxies r proxies).
Proof.
  intros (Hs & Hh & Hcs & Hch). repeat split; simpl; try done.
  - by apply append_new_NoDup.
  - eapply cursor_ok_grow; [apply append_new_length|done].
Qed.

Lemma add_http_proxies_wf (r : t) (proxies : list string) :
  Spec.rotator_wf r → Spec.rotator_wf (add_http_proxies r proxies).
Proof.
  intros (Hs & Hh & Hcs & Hch). repeat split; simpl; try done.
  - by apply append_new_NoDup.
  - eapply cursor_ok_grow; [apply append_new_length|done].
Qed.

(** Under the invariant the cursor of a non-empty pool points at an
    element, so dispensing cannot raise. *)
Lemma cursor_lookup (pool : list string) (cursor : nat) :
  pool ≠ [] → Spec.cursor_ok pool cursor → ∃ proxy, pool !! cursor = Some proxy.
Proof.
  unfold Spec.cursor_ok. intros Hne Hc. apply lookup_lt_is_Some.
  destruct pool; [done|]. simpl in *. lia.
Qed.

Lemma cursor_ok_advance (pool : list string) (cursor : nat) :
  pool ≠ [] → Spec.cursor_ok pool ((cursor + 1) mod length pool).
Proof.
  intros Hne. right. apply Nat.mod_upper_bound.
  destruct pool; [done|]. simpl. lia.
Qed.

Lemma get_next_ssl_proxy_wf (r : t) :
  Spec.rotator_wf r →
  ∃ out r', get_next_ssl_proxy r = Py.Ok (out, r')
    ∧ Spec.rotator_wf r'
    ∧ ssl_proxies r' = ssl_proxies r ∧ http_proxies r' = http_proxies r
    ∧ (∀ x, out = Some x → x ∈ ssl_proxies r)
    ∧ (out = None → ssl_proxies r = []).
Proof.
  intros Hwf. pose proof Hwf as (Hs & Hh & Hcs & Hch).
  unfold get_next_ssl_proxy.
  destruct (ssl_proxies r) as [|p pool] eqn:Hpool.
  - exists None, r. by rewrite Hpool.
  - destruct (cursor_lookup (p :: pool) (current_ssl_index r)) as [x Hx]; [done|done|].
    unfold Py.getitem. rewrite Hx. unfold Py.bind.
    eexists _, _. split; [reflexivity|].
    unfold Spec.rotator_wf.
    cbn [ssl_proxies http_proxies current_ssl_index current_http_index].
    repeat split; try done.
    + by apply cursor_ok_advance.
    + intros y [= <-]. by eapply list_elem_of_lookup_2.
Qed.

Lemma get_next_http_proxy_wf (r : t) :
  Spec.rotator_wf r →
  ∃ out r', get_next_http_proxy r = Py.Ok (out, r')
    ∧ Spec.rotator_wf r'
    ∧ ssl_proxies r' = ssl_proxies r ∧ http_proxies r' = http_proxies r
    ∧ (∀ x, out = Some x → x ∈ http_proxies r)
    ∧ (out = None → http_proxies r = []).
Proof.
  intros Hwf. pose proof Hwf as (Hs & Hh & Hcs & Hch).
  unfold get_next_http_proxy.
  destruct (http_proxies r) as [|p pool] eqn:Hpool.
  - exists None, r. by rewrite Hpool.
  - destruct (cursor_lookup (p :: pool) (current_http_index r)) as [x Hx]; [done|done|].
    unfold Py.getitem. rewrite Hx. unfold Py.bind.
    eexists _, _. split; [reflexivity|].
    unfold Spec.rotator_wf.
    cbn [ssl_proxies http_proxies current_ssl_index current_http_index].
    repeat split; try done.
    + by apply cursor_ok_advance.
    + intros y [= <-]. by eapply list_elem_of_lookup_2.
Qed.

Lemma get_next_proxy_wf (r : t) (site : option string) :
  Spec.rotator_wf r →
  ∃ out r', get_next_proxy r site = Py.Ok (out, r')
    ∧ Spec.rotator_wf r'
    ∧ ssl_proxies r' = ssl_proxies r ∧ http_proxies r' = http_proxies r
    ∧ (∀ x, out = Some x → x ∈ ssl_proxies r ∨ x ∈ http_proxies r).
Proof.
  intros Hwf. unfold get_next_proxy.
  destruct (decide (site = Some "linkedin")).
  { destruct (get_next_ssl_proxy_wf r Hwf) as (out & r' & -> & ? & ? & ? & Hout & _).
    exists out, r'. do 4 (split; [done|]). intros x Hx. left. by apply Hout. }
  destruct (decide (site = Some "indeed")).
  { destruct (get_next_http_proxy_wf r Hwf) as (out & r' & -> & ? & ? & ? & Hout & _).
    exists out, r'. do 4 (split; [done|]). intros x Hx. right. by apply Hout. }
  destruct (get_next_ssl_proxy_wf r Hwf) as (out & r1 & -> & Hwf1 & Hs1 & Hh1 & Hout & _).
  unfold Py.bind. destruct (Py.truthy out).
  - exists out, r1. do 4 (split; [done|]). intros x Hx. left. by apply Hout.
  - destruct (get_next_http_proxy_wf r1 Hwf1) as (out2 & r2 & -> & ? & Hs2 & Hh2 & Hout2 & _).
    exists out2, r2. split; [done|]. split; [done|].
    split; [congruence|]. split; [congruence|].
    intros x Hx. right. rewrite <- Hh1. by apply Hout2.
Qed.

Lemma mark_proxy_dead_wf (r r' : t) (proxy : string) (removed : bool) :
  Spec.rotator_wf r →
  mark_proxy_dead r proxy = (removed, r') →
  Spec.rotator_wf r'
  ∧ (proxy ∉ ssl_proxies r')
  ∧ (proxy ∉ http_proxies r')
  ∧ (∀ x, x ∈ ssl_proxies r' → x ∈ ssl_proxies r)
  ∧ (∀ x, x ∈ http_proxies r' → x ∈ http_proxies r).
Proof.
  intros (Hs & Hh & Hcs & Hch). unfold mark_proxy_dead, Spec.rotator_wf.
  destruct (decide (proxy ∈ ssl_proxies r)) as [Hins|Hins];
    destruct (decide (proxy ∈ http_proxies r)) as [Hinh|Hinh];
    intros [= <- <-];
    cbn [ssl_proxies http_proxies current_ssl_index current_http_index];
    (split; [split; [|split; [|split]]|split; [|split; [|split]]]);
    eauto using remove_NoDup, remove_gone, cursor_ok_reset, remove_elem.
Qed.

(** A pool endpoint is removed exactly when it is in a pool. *)
Lemma mark_proxy_dead_removed (r : t) (proxy : string) :
  fst (mark_proxy_dead r proxy) = true
  ↔ proxy ∈ ssl_proxies r ∨ proxy ∈ http_proxies r.
Proof.
  unfold mark_proxy_dead.
  destruct (decide (proxy ∈ ssl_proxies r)) as [Hins|Hins];
    destruct (decide (proxy ∈ http_proxies r)) as [Hinh|Hinh]; simpl;
    intuition discriminate.
Qed.

Lemma step_wf (r : t) (c : call) :
  Spec.rotator_wf r →
  ∃ out r', step r c = Py.Ok (out, r') ∧ Spec.rotator_wf r'.
Proof.
  intros Hwf. destruct c as [ps|ps| | |site|p]; simpl.
  - eexists _, _. split; [done|]. by apply add_ssl_proxies_wf.
  - eexists _, _. split; [done|]. by apply add_http_proxies_wf.
  - destruct (get_next_ssl_proxy_wf r Hwf) as (out & r' & ? & ? & _). eauto.
  - destruct (get_next_http_proxy_wf r Hwf) as (out & r' & ? & ? & _). eauto.
  - destruct (get_next_proxy_wf r site Hwf) as (out & r' & ? & ? & _). eauto.
  - eexists _, _. split; [done|].
    by eapply mark_proxy_dead_wf; [|apply surjective_pairing].
Qed.

(** Every state a rotator can be in satisfies the invariant. *)
Lemma reachable_wf (r : t) : reachable r → Spec.rotator_wf r.
Proof.
  induction 1 as [|r c out r' Hr IH Hstep]; [apply init_wf|].
  destruct (step_wf r c IH) as (out' & r'' & Hstep' & Hwf).
  rewrite Hstep in Hstep'. by injection Hstep' as -> ->.
Qed.

End Invariant.

(** ** Rotator: eviction *)

Section Eviction.

Import ProxyRotator.

(** One call that is not an addition, on a rotator that does not hold
    [e]: the call succeeds, does not dispense [e], and [e] stays out. *)
Lemma step_without (e : string) (r : t) (c : call) :
  Spec.rotator_wf r →
  e ∉ ssl_proxies r → e ∉ http_proxies r →
  is_addition c = false →
  ∃ out r', step r c = Py.Ok (out, r')
    ∧ out ≠ Some e
    ∧ Spec.rotator_wf r'
    ∧ (e ∉ ssl_proxies r') ∧ (e ∉ http_proxies r').
Proof.
  intros Hwf Hs Hh Hc. destruct c as [ps|ps| | |site|p]; try discriminate; simpl.
  - destruct (get_next_ssl_proxy_wf r Hwf) as (out & r' & -> & ? & Hs' & Hh' & Hout & _).
    exists out, r'. rewrite Hs', Hh'. split_and!; try done.
    intros ->. by apply Hs, Hout.
  - destruct (get_next_http_proxy_wf r Hwf) as (out & r' & -> & ? & Hs' & Hh' & Hout & _).
    exists out, r'. rewrite Hs', Hh'. split_and!; try done.
    intros ->. by apply Hh, Hout.
  - destruct (get_next_proxy_wf r site Hwf) as (out & r' & -> & ? & Hs' & Hh' & Hout).
    exists out, r'. rewrite Hs', Hh'. split_and!; try done.
    intros ->. destruct (Hout e eq_refl); tauto.
  - destruct (mark_proxy_dead r p) as [removed r'] eqn:Hmark.
    destruct (mark_proxy_dead_wf r r' p removed Hwf Hmark) as (? & _ & _ & Hs' & Hh').
    exists None, r'. simpl. split_and!; try done.
    + intros Hin. by apply Hs, Hs'.
    + intros Hin. by apply Hh, Hh'.
Qed.

Lemma steps_without (e : string) (cs : list call) (r : t) :
  Spec.rotator_wf r →
  e ∉ ssl_proxies r → e ∉ http_proxies r →
  Forall (fun c => is_addition c = false) cs →
  ∃ outs r', steps r cs = Py.Ok (outs, r')
    ∧ (Some e ∉ outs)
    ∧ Spec.rotator_wf r'
    ∧ (e ∉ ssl_proxies r') ∧ (e ∉ http_proxies r').
Proof.
  revert r. induction cs as [|c cs IH]; intros r Hwf Hs Hh Hcs.
  - exists [], r. simpl. split_and!; try done. apply not_elem_of_nil.
  - apply Forall_cons in Hcs as [Hc Hcs].
    destruct (step_without e r c Hwf Hs Hh Hc) as (out & r1 & Hstep & Hout & Hwf1 & Hs1 & Hh1).
    destruct (IH r1 Hwf1 Hs1 Hh1 Hcs) as (outs & r2 & Hsteps & Houts & Hwf2 & Hs2 & Hh2).
    exists (out :: outs), r2. simpl. rewrite Hstep. simpl. rewrite Hsteps. simpl.
    split_and!; try done.
    apply not_elem_of_cons. split; [congruence|done].
Qed.

End Eviction.

(** C2. For every state a rotator can be in and every endpoint [e] held
    by one of its pools, [mark_proxy_dead e] reports a removal and leaves
    [e] in neither pool; each cursor lies within its pool whenever that
    pool is non-empty, having been reset to 0 where the removal pushed it
    out of range; and whatever calls follow, as long as none of them is an
    addition, none of them raises or dispenses [e], [e] stays out of both
    pools and the cursors stay in range. *)
Theorem eviction_consistency (r : ProxyRotator.t) (e : string) :
  ProxyRotator.reachable r →
  e ∈ ProxyRotator.ssl_proxies r ∨ e ∈ ProxyRotator.http_proxies r →
  ∃ r', ProxyRotator.mark_proxy_dead r e = (true, r')
    ∧ (e ∉ ProxyRotator.ssl_proxies r')
    ∧ (e ∉ ProxyRotator.http_proxies r')
    ∧ Spec.cursor_in_range (ProxyRotator.ssl_proxies r')
        (ProxyRotator.current_ssl_index r')
    ∧ Spec.cursor_in_range (ProxyRotator.http_proxies r')
        (ProxyRotator.current_http_index r')
    ∧ (e ∈ ProxyRotator.ssl_proxies r →
       length (ProxyRotator.ssl_proxies r') ≤ ProxyRotator.current_ssl_index r →
       ProxyRotator.current_ssl_index r' = 0)
    ∧ (e ∈ ProxyRotator.http_proxies r →
       length (ProxyRotator.http_proxies r') ≤ ProxyRotator.current_http_index r →
       ProxyRotator.current_http_index r' = 0)
    ∧ ∀ cs : list ProxyRotator.call,
        Forall (fun c => ProxyRotator.is_addition c = false) cs →
        ∃ outs r'',
          ProxyRotator.steps r' cs = Py.Ok (outs, r'')
          ∧ (Some e ∉ outs)
          ∧ (e ∉ ProxyRotator.ssl_proxies r'')
          ∧ (e ∉ ProxyRotator.http_proxies r'')
          ∧ Spec.cursor_in_range (ProxyRotator.ssl_proxies r'')
              (ProxyRotator.current_ssl_index r'')
          ∧ Spec.cursor_in_range (ProxyRotator.http_proxies r'')
              (ProxyRotator.current_http_index r'').
Proof.
  intros Hreach Hin. pose proof (reachable_wf r Hreach) as Hwf.
  destruct (ProxyRotator.mark_proxy_dead r e) as [removed r'] eqn:Hmark.
  assert (removed = true) as ->.
  { change removed with (fst (removed, r')). rewrite <- Hmark.
    by apply mark_proxy_dead_removed. }
  destruct (mark_proxy_dead_wf r r' e true Hwf Hmark) as (Hwf' & Hs' & Hh' & _ & _).
  exists r'. split; [done|]. split; [done|]. split; [done|].
  pose proof Hwf' as (_ & _ & Hcs & Hch).
  split; [by apply cursor_ok_in_range|]. split; [by apply cursor_ok_in_range|].
  split; [|split].
  - intros Hins Hlen. revert Hmark Hlen. unfold ProxyRotator.mark_proxy_dead.
    rewrite decide_True by done.
    destruct (decide (e ∈ ProxyRotator.http_proxies r)); intros [= <-]; simpl;
      intros Hlen; by apply Nat.leb_le in Hlen as ->.
  - intros Hinh Hlen. revert Hmark Hlen. unfold ProxyRotator.mark_proxy_dead.
    rewrite (decide_True (P := e ∈ ProxyRotator.http_proxies r)) by done.
    destruct (decide (e ∈ ProxyRotator.ssl_proxies r)); intros [= <-]; simpl;
      intros Hlen; by apply Nat.leb_le in Hlen as ->.
  - intros cs Hnoadd.
    destruct (steps_without e cs r' Hwf' Hs' Hh' Hnoadd)
      as (outs & r'' & Hsteps & Houts & (_ & _ & Hcs'' & Hch'') & Hs'' & Hh'').
    exists outs, r''. split_and!; try done; by apply cursor_ok_in_range.
Qed.

(** C2 on the rotator that was given three SSL endpoints and has dispensed
    two of them: its last endpoint is marked dead. *)
Lemma eviction_consistency_witness :
  let r := {| ProxyRotator.ssl_proxies := ["1.1.1.1:443"; "2.2.2.2:443"; "3.3.3.3:443"];
              ProxyRotator.http_proxies := [];
              ProxyRotator.current_ssl_index := 2;
              ProxyRotator.current_http_index := 0 |} in
  ProxyRotator.reachable r
  ∧ "3.3.3.3:443" ∈ ProxyRotator.ssl_proxies r
  ∧ ∃ r', ProxyRotator.mark_proxy_dead r "3.3.3.3:443" = (true, r')
      ∧ ("3.3.3.3:443" ∉ ProxyRotator.ssl_proxies r')
      ∧ ("3.3.3.3:443" ∉ ProxyRotator.http_proxies r').
Proof.
  intros r.
  assert (ProxyRotator.reachable r) as Hreach.
  { apply (ProxyRotator.reachable_step
             {| ProxyRotator.ssl_proxies := ["1.1.1.1:443"; "2.2.2.2:443"; "3.3.3.3:443"];
                ProxyRotator.http_proxies := [];
                ProxyRotator.current_ssl_index := 1;
                ProxyRotator.current_http_index := 0 |}
             ProxyRotator.NextSsl (Some "2.2.2.2:443")); [|reflexivity].
    apply (ProxyRotator.reachable_step
             {| ProxyRotator.ssl_proxies := ["1.1.1.1:443"; "2.2.2.2:443"; "3.3.3.3:443"];
                ProxyRotator.http_proxies := [];
                ProxyRotator.current_ssl_index := 0;
                ProxyRotator.current_http_index := 0 |}
             ProxyRotator.NextSsl (Some "1.1.1.1:443")); [|reflexivity].
    apply (ProxyRotator.reachable_step ProxyRotator.init
             (ProxyRotator.AddSsl ["1.1.1.1:443"; "2.2.2.2:443"; "3.3.3.3:443"]) None);
      [apply ProxyRotator.reachable_init|reflexivity]. }
  assert ("3.3.3.3:443" ∈ ProxyRotator.ssl_proxies r) as Hin.
  { simpl. right; right; left. }
  split; [exact Hreach|]. split; [exact Hin|].
  destruct (eviction_consistency r "3.3.3.3:443" Hreach (or_introl Hin))
    as (r' & Hmark & Hs & Hh & _).
  exists r'. split; [exact Hmark|]. split; [exact Hs|exact Hh].
Defined.

(** ** Rotator: round-robin dispensing *)

Section RoundRobin.

Import ProxyRotator.

Lemma repeat_next_app (next : t → Py.result (option string * t)) (n m : nat) (r : t) :
  repeat_next next (n + m) r
  = Py.bind (repeat_next next n r) (fun '(outs1, r1) =>
    Py.bind (repeat_next next m r1) (fun '(outs2, r2) =>
    Py.Ok (outs1 ++ outs2, r2))).
Proof.
  revert r. induction n as [|n IH]; intros r; simpl.
  - by destruct (repeat_next next m r) as [[outs2 r2]|].
  - destruct (next r) as [[out r1]|]; simpl; [|done].
    rewrite IH. destruct (repeat_next next n r1) as [[outs1 r2]|]; simpl; [|done].
    by destruct (repeat_next next m r2) as [[outs2 r3]|].
Qed.

Lemma repeat_next_ssl_from (pool other : list string) (c n k : nat) :
  k + n ≤ length pool →
  repeat_next get_next_ssl_proxy n
    {| ssl_proxies := pool; http_proxies := other;
       current_ssl_index := k; current_http_index := c |}
  = Py.Ok (Some <$> take n (drop k pool),
           {| ssl_proxies := pool; http_proxies := other;
              current_ssl_index := Spec.cursor_after (length pool) k n;
              current_http_index := c |}).
Proof.
  revert k. induction n as [|n IH]; intros k Hle; [done|].
  destruct (lookup_lt_is_Some_2 pool k) as [x Hx]; [lia|].
  cbn [repeat_next]. unfold get_next_ssl_proxy at 1.
  cbn [ssl_proxies http_proxies current_ssl_index current_http_index].
  destruct pool as [|p pool'] eqn:Hpool; [done|]. rewrite <- Hpool in *.
  unfold Py.getitem. rewrite Hx. cbn [Py.bind].
  destruct n as [|n'].
  - cbn [repeat_next Py.bind]. by rewrite (drop_S _ _ _ Hx).
  - rewrite (Nat.mod_small (k + 1)) by lia.
    rewrite IH by lia. cbn [Py.bind].
    rewrite (drop_S _ _ _ Hx). rewrite Nat.add_1_r.
    do 3 f_equal. unfold Spec.cursor_after. f_equal. lia.
Qed.

Lemma repeat_next_http_from (pool other : list string) (c n k : nat) :
  k + n ≤ length pool →
  repeat_next get_next_http_proxy n
    {| ssl_proxies := other; http_proxies := pool;
       current_ssl_index := c; current_http_index := k |}
  = Py.Ok (Some <$> take n (drop k pool),
           {| ssl_proxies := other; http_proxies := pool;
              current_ssl_index := c;
              current_http_index := Spec.cursor_after (length pool) k n |}).
Proof.
  revert k. induction n as [|n IH]; intros k Hle; [done|].
  destruct (lookup_lt_is_Some_2 pool k) as [x Hx]; [lia|].
  cbn [repeat_next]. unfold get_next_http_proxy at 1.
  cbn [ssl_proxies http_proxies current_ssl_index current_http_index].
  destruct pool as [|p pool'] eqn:Hpool; [done|]. rewrite <- Hpool in *.
  unfold Py.getitem. rewrite Hx. cbn [Py.bind].
  destruct n as [|n'].
  - cbn [repeat_next Py.bind]. by rewrite (drop_S _ _ _ Hx).
  - rewrite (Nat.mod_small (k + 1)) by lia.
    rewrite IH by lia. cbn [Py.bind].
    rewrite (drop_S _ _ _ Hx). rewrite Nat.add_1_r.
    do 3 f_equal. unfold Spec.cursor_after. f_equal. lia.
Qed.

Lemma cursor_after_full (len : nat) : Spec.cursor_after len 0 len = 0.
Proof. destruct len as [|len]; [done|]. unfold Spec.cursor_after. apply Nat.Div0.mod_same. Qed.

End RoundRobin.

(** C7. For a pool of size N whose cursor is at 0, N successive calls of
    its dispensing method (nothing added or removed in between) return its
    N endpoints, each once, in insertion order, and bring the rotator back
    to where it was; so the call after them returns the first endpoint
    again. This holds for the SSL pool and for the HTTP pool. *)
Theorem rotation_fairness (pool other : list string) (c : nat) :
  (let r := {| ProxyRotator.ssl_proxies := pool;
               ProxyRotator.http_proxies := other;
               ProxyRotator.current_ssl_index := 0;
               ProxyRotator.current_http_index := c |} in
   ProxyRotator.repeat_next ProxyRotator.get_next_ssl_proxy (length pool) r
   = Py.Ok (Some <$> pool, r)
   ∧ ∃ r', ProxyRotator.repeat_next ProxyRotator.get_next_ssl_proxy
             (length pool + 1) r
           = Py.Ok ((Some <$> pool) ++ [head pool], r'))
  ∧ (let r := {| ProxyRotator.ssl_proxies := other;
                 ProxyRotator.http_proxies := pool;
                 ProxyRotator.current_ssl_index := c;
                 ProxyRotator.current_http_index := 0 |} in
     ProxyRotator.repeat_next ProxyRotator.get_next_http_proxy (length pool) r
     = Py.Ok (Some <$> pool, r)
     ∧ ∃ r', ProxyRotator.repeat_next ProxyRotator.get_next_http_proxy
               (length pool + 1) r
             = Py.Ok ((Some <$> pool) ++ [head pool], r')).
Proof.
  split; intros r.
  - assert (ProxyRotator.repeat_next ProxyRotator.get_next_ssl_proxy (length pool) r
            = Py.Ok (Some <$> pool, r)) as Hround.
    { unfold r. rewrite repeat_next_ssl_from by (simpl; lia).
      by rewrite drop_0, firstn_all, cursor_after_full. }
    split; [exact Hround|].
    rewrite repeat_next_app, Hround. cbn [Py.bind].
    destruct pool as [|x pool'].
    + by eexists.
    + unfold r. rewrite (repeat_next_ssl_from _ _ _ 1 0) by (simpl; lia).
      by eexists.
  - assert (ProxyRotator.repeat_next ProxyRotator.get_next_http_proxy (length pool) r
            = Py.Ok (Some <$> pool, r)) as Hround.
    { unfold r. rewrite repeat_next_http_from by (simpl; lia).
      by rewrite drop_0, firstn_all, cursor_after_full. }
    split; [exact Hround|].
    rewrite repeat_next_app, Hround. cbn [Py.bind].
    destruct pool as [|x pool'].
    + by eexists.
    + unfold r. rewrite (repeat_next_http_from _ _ _ 1 0) by (simpl; lia).
      by eexists.
Qed.

(** The rotation of the specification on three endpoints: the fourth call
    repeats the first endpoint. *)
Example rotation_of_three :
  ∃ r', ProxyRotator.repeat_next ProxyRotator.get_next_ssl_proxy 4
          (ProxyRotator.add_ssl_proxies ProxyRotator.init
             ["1.1.1.1:443"; "2.2.2.2:443"; "3.3.3.3:443"])
        = Py.Ok ([Some "1.1.1.1:443"; Some "2.2.2.2:443"; Some "3.3.3.3:443";
                  Some "1.1.1.1:443"], r').
Proof. by eexists. Qed.

(** ** Marking an endpoint that no pool holds *)

Lemma rotator_mark_absent (r : ProxyRotator.t) (proxy : string) :
  proxy ∉ ProxyRotator.ssl_proxies r →
  proxy ∉ ProxyRotator.http_proxies r →
  ProxyRotator.mark_proxy_dead r proxy = (false, r).
Proof.
  intros Hs Hh. unfold ProxyRotator.mark_proxy_dead.
  rewrite !decide_False by done. by destruct r.
Qed.

(** C10. For an endpoint that is in neither pool, the rotator's
    [mark_proxy_dead] returns [False] and leaves pools and cursors as they
    were; the manager's [mark_proxy_dead] then changes nothing at all: the
    cache file is not written (its content and its count of writes are the
    same), the manager's dead set does not receive the endpoint, and the
    legacy mirror attributes keep their values. *)
Theorem mark_absent_proxy_is_noop (w : world) (m : SmartProxyManager.t)
    (proxy : string) :
  proxy ∉ ProxyRotator.ssl_proxies (SmartProxyManager.rotator m) →
  proxy ∉ ProxyRotator.http_proxies (SmartProxyManager.rotator m) →
  ProxyRotator.mark_proxy_dead (SmartProxyManager.rotator m) proxy
  = (false, SmartProxyManager.rotator m)
  ∧ SmartProxyManager.mark_proxy_dead w m proxy = m
  ∧ SmartProxyManager.storage (SmartProxyManager.mark_proxy_dead w m proxy)
    = SmartProxyManager.storage m
  ∧ SmartProxyManager.dead_proxies (SmartProxyManager.mark_proxy_dead w m proxy)
    = SmartProxyManager.dead_proxies m
  ∧ SmartProxyManager.working_proxies (SmartProxyManager.mark_proxy_dead w m proxy)
    = SmartProxyManager.working_proxies m
  ∧ SmartProxyManager.ssl_proxies (SmartProxyManager.mark_proxy_dead w m proxy)
    = SmartProxyManager.ssl_proxies m
  ∧ SmartProxyManager.http_proxies (SmartProxyManager.mark_proxy_dead w m proxy)
    = SmartProxyManager.http_proxies m.
Proof.
  intros Hs Hh.
  pose proof (rotator_mark_absent _ _ Hs Hh) as Hmark.
  assert (SmartProxyManager.mark_proxy_dead w m proxy = m) as Hm.
  { unfold SmartProxyManager.mark_proxy_dead. rewrite Hmark. by destruct m. }
  split; [exact Hmark|]. split; [exact Hm|]. by rewrite Hm.
Qed.

(** C10 on a manager that holds two endpoints, for a third one. *)
Lemma mark_absent_proxy_is_noop_witness :
  SmartProxyManager.mark_proxy_dead Scenario.silent_world Scenario.loaded_manager
    "9.9.9.9:3128"
  = Scenario.loaded_manager.
Proof.
  apply (mark_absent_proxy_is_noop Scenario.silent_world Scenario.loaded_manager
           "9.9.9.9:3128"); compute_done.
Defined.

(** ** Validator: probes *)

Section Probes.

Import ProxyValidator.

Lemma first_ok_cons (get : string → response) (url : string) (rest : list string) :
  first_ok get (url :: rest)
  = if decide (get url = Status 200) then (true, [url])
    else let '(ok, asked) := first_ok get rest in (ok, url :: asked).
Proof.
  simpl. destruct (get url) as [code|]; [|by rewrite decide_False].
  destruct code as [|p|p]; try by rewrite decide_False.
  do 8 (destruct p as [p|p|]; try by rewrite decide_False).
  by rewrite decide_True.
Qed.

Lemma first_ok_true (get : string → response) (urls : list string) :
  fst (first_ok get urls) = true ↔ ∃ url, url ∈ urls ∧ get url = Status 200.
Proof.
  induction urls as [|url rest IH].
  - simpl. split; [done|]. intros (url & Hin & _). by apply elem_of_nil in Hin.
  - rewrite first_ok_cons. destruct (decide (get url = Status 200)) as [Hok|Hno].
    + split; [|done]. intros _. exists url. split; [left|done].
    + destruct (first_ok get rest) as [ok asked]. simpl in *. rewrite IH.
      split.
      * intros (u & Hin & Hu). exists u. split; [by right|done].
      * intros (u & Hin & Hu). apply elem_of_cons in Hin as [->|Hin]; [done|eauto].
Qed.

(** A pass that fails has asked every URL, in order. *)
Lemma first_ok_false_asked (get : string → response) (urls : list string) :
  fst (first_ok get urls) = false → snd (first_ok get urls) = urls.
Proof.
  induction urls as [|url rest IH]; [done|].
  rewrite first_ok_cons. destruct (decide (get url = Status 200)); [done|].
  destruct (first_ok get rest) as [ok asked]. simpl in *.
  intros Hok. by rewrite IH.
Qed.

(** A pass stops at its first success: what it asked is a prefix of the
    URL list. *)
Lemma first_ok_asked_prefix (get : string → response) (urls : list string) :
  snd (first_ok get urls) `prefix_of` urls.
Proof.
  induction urls as [|url rest IH]; [done|].
  rewrite first_ok_cons. destruct (decide (get url = Status 200)).
  - by exists rest.
  - destruct (first_ok get rest) as [ok asked]. simpl in *.
    by apply prefix_cons.
Qed.

(** The SSL probe succeeds exactly when some target answers 200 in the
    strict pass or, failing that, in the relaxed pass. *)
Lemma _validate_ssl_proxy_async_true (w : world) (proxy : string) :
  fst (_validate_ssl_proxy_async w proxy) = true
  ↔ (∃ url, url ∈ ssl_test_urls ∧ https_get w true url proxy = Status 200)
    ∨ (∃ url, url ∈ ssl_test_urls ∧ https_get w false url proxy = Status 200).
Proof.
  unfold _validate_ssl_proxy_async.
  rewrite <- (first_ok_true (fun url => https_get w true url proxy)).
  rewrite <- (first_ok_true (fun url => https_get w false url proxy)).
  destruct (first_ok (fun url => https_get w true url proxy) ssl_test_urls)
    as [ok asked].
  destruct (first_ok (fun url => https_get w false url proxy) ssl_test_urls)
    as [ok' asked'].
  destruct ok; cbn [fst snd]; [tauto|].
  split; [tauto|]. by intros [?|?].
Qed.

(** The requests of the SSL probe: either strict requests only, ending in
    a success, or all strict requests, none of them a success, followed by
    relaxed requests. *)
Lemma _validate_ssl_proxy_async_sent (w : world) (proxy : string) :
  let sent := snd (_validate_ssl_proxy_async w proxy) in
  (fst (first_ok (fun url => https_get w true url proxy) ssl_test_urls) = true
   ∧ Forall (fun req => req_mode req = Strict) sent)
  ∨ (fst (first_ok (fun url => https_get w true url proxy) ssl_test_urls) = false
     ∧ ∃ relaxed,
         sent = map (Build_request Strict) ssl_test_urls ++ relaxed
         ∧ Forall (fun req => req_mode req = Relaxed) relaxed).
Proof.
  unfold _validate_ssl_proxy_async.
  pose proof (first_ok_false_asked (fun url => https_get w true url proxy) ssl_test_urls)
    as Hall.
  destruct (first_ok (fun url => https_get w true url proxy) ssl_test_urls)
    as [[|] asked]; cbn [fst snd] in *.
  - left. split; [done|]. apply Forall_forall. intros req Hreq.
    apply list_elem_of_fmap in Hreq as (url & -> & _). done.
  - right. split; [done|].
    destruct (first_ok (fun url => https_get w false url proxy) ssl_test_urls)
      as [ok' asked']; cbn [fst snd].
    rewrite (Hall eq_refl). eexists. split; [reflexivity|].
    apply Forall_forall. intros req Hreq.
    apply list_elem_of_fmap in Hreq as (url & -> & _). done.
Qed.

End Probes.

(** ** Validator: the results loop *)

Section Results.

Import ProxyValidator.

Lemma union_middle (X D : gset string) (p : string) :
  X ∪ ({[p]} ∪ D) = {[p]} ∪ X ∪ D.
Proof. by rewrite (assoc_L (∪)), (comm_L (∪) X). Qed.

(** The part of the loop that walks the results of the SSL probes: result
    number [i] belongs to SSL endpoint number [i]. *)
Lemma process_results_ssl (ok : string → bool) (regular : list string)
    (rest : list outcome) (todo done : list string) (t : tally) :
  ssl_index t = length done →
  process_results (done ++ todo) regular
    (map (fun p => Returned (ok p)) todo ++ rest) (length done) t
  = process_results (done ++ todo) regular rest (length (done ++ todo))
      {| working_ssl_proxies :=
           working_ssl_proxies t ++ filter (fun p => ok p = true) todo;
         working_http_proxies := working_http_proxies t;
         ssl_index := length (done ++ todo);
         http_index := http_index t;
         dead_proxies :=
           list_to_set (filter (fun p => ok p ≠ true) todo) ∪ dead_proxies t |}.
Proof.
  revert done t. induction todo as [|p todo IH]; intros done t Hidx.
  - rewrite !app_nil_r, filter_nil, list_to_set_nil, (left_id_L ∅ (∪)), <- Hidx.
    by destruct t.
  - cbn [map app process_results].
    assert (Nat.ltb (length done) (length (done ++ p :: todo)) = true) as ->.
    { apply Nat.ltb_lt. rewrite length_app. simpl. lia. }
    unfold Py.getitem. rewrite Hidx, list_lookup_middle by done. cbn [Py.bind].
    rewrite (cons_middle p done todo), app_assoc.
    replace (S (length done)) with (length (done ++ [p]))
      by (rewrite length_app; simpl; lia).
    destruct (ok p) eqn:Hok.
    + rewrite IH by (simpl; rewrite length_app; simpl; lia).
      cbn [working_ssl_proxies working_http_proxies ssl_index http_index dead_proxies].
      rewrite filter_cons_True, filter_cons_False by (rewrite Hok; auto).
      by rewrite <- (app_assoc (working_ssl_proxies t)).
    + rewrite IH by (simpl; rewrite length_app; simpl; lia).
      cbn [working_ssl_proxies working_http_proxies ssl_index http_index dead_proxies].
      rewrite filter_cons_False, filter_cons_True by (rewrite Hok; auto).
      by rewrite list_to_set_cons, union_middle.
Qed.

(** The part of the loop that walks the results of the HTTP probes. *)
Lemma process_results_http (ok : string → bool) (ssl : list string)
    (todo done : list string) (i : nat) (t : tally) :
  http_index t = length done →
  length ssl ≤ i →
  process_results ssl (done ++ todo) (map (fun p => Returned (ok p)) todo) i t
  = Py.Ok
      {| working_ssl_proxies := working_ssl_proxies t;
         working_http_proxies :=
           working_http_proxies t ++ filter (fun p => ok p = true) todo;
         ssl_index := ssl_index t;
         http_index := length (done ++ todo);
         dead_proxies :=
           list_to_set (filter (fun p => ok p ≠ true) todo) ∪ dead_proxies t |}.
Proof.
  revert done i t. induction todo as [|p todo IH]; intros done i t Hidx Hi.
  - rewrite !app_nil_r, filter_nil, list_to_set_nil, (left_id_L ∅ (∪)), <- Hidx.
    by destruct t.
  - cbn [map process_results].
    assert (Nat.ltb i (length ssl) = false) as -> by (apply Nat.ltb_ge; lia).
    unfold Py.getitem. rewrite Hidx, list_lookup_middle by done. cbn [Py.bind].
    rewrite (cons_middle p done todo), app_assoc.
    destruct (ok p) eqn:Hok.
    + rewrite IH by (simpl; rewrite ?length_app; simpl; lia).
      cbn [working_ssl_proxies working_http_proxies ssl_index http_index dead_proxies].
      rewrite filter_cons_True, filter_cons_False by (rewrite Hok; auto).
      by rewrite <- (app_assoc (working_http_proxies t)).
    + rewrite IH by (simpl; rewrite ?length_app; simpl; lia).
      cbn [working_ssl_proxies working_http_proxies ssl_index http_index dead_proxies].
      rewrite filter_cons_False, filter_cons_True by (rewrite Hok; auto).
      by rewrite list_to_set_cons, union_middle.
Qed.

(** What [validate_proxies_async] returns: the endpoints with an
    SSL-capable port whose SSL probe succeeded, the other endpoints whose
    HTTP probe succeeded (none in SSL-only mode), and the dead set grown by
    the probed endpoints whose probe failed. It never raises. *)
Lemma validate_proxies_async_spec (w : world) (cfg : ProxyConfig)
    (dead : gset string) (proxies : list string) :
  let ssl := filter (fun p => _is_ssl_capable_port p = true) proxies in
  let regular :=
    if ssl_only cfg then []
    else filter (fun p => ¬ (_is_ssl_capable_port p = true)) proxies in
  validate_proxies_async w cfg dead proxies
  = Py.Ok
      (filter (fun p => fst (_validate_ssl_proxy_async w p) = true) ssl,
       filter (fun p => fst (_validate_http_proxy_async w p) = true) regular,
       list_to_set (filter (fun p => fst (_validate_http_proxy_async w p) ≠ true) regular)
       ∪ (list_to_set (filter (fun p => fst (_validate_ssl_proxy_async w p) ≠ true) ssl)
          ∪ dead)).
Proof.
  cbv zeta. unfold validate_proxies_async.
  destruct proxies as [|p0 proxies'].
  { destruct (ssl_only cfg); rewrite !filter_nil, ?list_to_set_nil;
      by rewrite !(left_id_L ∅ (∪)). }
  cbv beta iota zeta. generalize (p0 :: proxies'). clear p0 proxies'.
  intros proxies.
  set (ssl := filter (fun p => _is_ssl_capable_port p = true) proxies).
  set (regular := if ssl_only cfg then []
                  else filter (fun p => ¬ (_is_ssl_capable_port p = true)) proxies).
  assert (gather w cfg ssl regular
          = map (fun p => Returned (fst (_validate_ssl_proxy_async w p))) ssl
            ++ map (fun p => Returned (fst (_validate_http_proxy_async w p))) regular)
    as ->.
  { unfold gather, regular. by destruct (ssl_only cfg). }
  pose proof (process_results_ssl (fun p => fst (_validate_ssl_proxy_async w p))
                regular
                (map (fun p => Returned (fst (_validate_http_proxy_async w p))) regular)
                ssl []) as Hssl.
  cbn [app length] in Hssl. rewrite Hssl by done. clear Hssl.
  pose proof (process_results_http (fun p => fst (_validate_http_proxy_async w p))
                ssl regular []) as Hhttp.
  cbn [app length] in Hhttp. rewrite Hhttp by done. clear Hhttp.
  reflexivity.
Qed.

End Results.

(** ** Validator: classification *)

Section Classified.

Import ProxyValidator.

(** Validation sorts by port before it probes: what it returns as SSL has
    an SSL-capable port, what it returns as HTTP has none. *)
Lemma validate_proxies_async_ports (w : world) (cfg : ProxyConfig)
    (dead dead' : gset string) (proxies ssl http : list string) :
  validate_proxies_async w cfg dead proxies = Py.Ok (ssl, http, dead') →
  (∀ e, e ∈ ssl → e ∈ proxies ∧ _is_ssl_capable_port e = true)
  ∧ (∀ e, e ∈ http → e ∈ proxies ∧ _is_ssl_capable_port e ≠ true).
Proof.
  rewrite validate_proxies_async_spec. intros [= <- <- <-]. split; intros e.
  - rewrite !list_elem_of_filter. tauto.
  - destruct (ssl_only cfg).
    + rewrite filter_nil. by intros ?%elem_of_nil.
    + rewrite !list_elem_of_filter. tauto.
Qed.

End Classified.

(** C5. An endpoint whose strict-certificate HTTPS requests fail for all
    test targets and whose relaxed request returns 200 for some target
    passes the SSL probe; the probe sends a relaxed request only after all
    strict requests have been sent and none has returned 200; and the
    validator, which hands the endpoints with an SSL-capable port to that
    probe, returns such an endpoint among the working SSL endpoints and
    does not add it to the dead set. *)
Theorem relaxed_pass_classifies_ssl :
  (∀ (w : world) (proxy : string),
     (∀ url, url ∈ ProxyValidator.ssl_test_urls →
             https_get w true url proxy ≠ Status 200) →
     (∃ url, url ∈ ProxyValidator.ssl_test_urls ∧
             https_get w false url proxy = Status 200) →
     fst (ProxyValidator._validate_ssl_proxy_async w proxy) = true)
  ∧ (∀ (w : world) (proxy : string) (req : ProxyValidator.request),
       req ∈ snd (ProxyValidator._validate_ssl_proxy_async w proxy) →
       ProxyValidator.req_mode req = ProxyValidator.Relaxed →
       (∀ url, url ∈ ProxyValidator.ssl_test_urls →
               https_get w true url proxy ≠ Status 200)
       ∧ ∃ relaxed,
           snd (ProxyValidator._validate_ssl_proxy_async w proxy)
           = map (ProxyValidator.Build_request ProxyValidator.Strict)
               ProxyValidator.ssl_test_urls ++ relaxed
           ∧ Forall (fun r => ProxyValidator.req_mode r = ProxyValidator.Relaxed)
               relaxed)
  ∧ (∀ (w : world) (cfg : ProxyConfig) (dead : gset string)
       (proxies : list string) (p : string),
       p ∈ proxies →
       Spec.presumed_ssl p →
       (∀ url, url ∈ ProxyValidator.ssl_test_urls →
               https_get w true url p ≠ Status 200) →
       (∃ url, url ∈ ProxyValidator.ssl_test_urls ∧
               https_get w false url p = Status 200) →
       ∃ ssl http dead',
         ProxyValidator.validate_proxies_async w cfg dead proxies
         = Py.Ok (ssl, http, dead')
         ∧ p ∈ ssl ∧ (p ∉ http) ∧ (p ∈ dead' → p ∈ dead)).
Proof.
  split; [|split].
  - intros w proxy _ Hrelaxed. apply _validate_ssl_proxy_async_true. by right.
  - intros w proxy req Hreq Hmode.
    destruct (_validate_ssl_proxy_async_sent w proxy) as [[_ Hall]|[Hstrict Hsent]].
    + rewrite Forall_forall in Hall. specialize (Hall req Hreq). congruence.
    + split; [|exact Hsent].
      intros url Hurl Hok.
      assert (fst (ProxyValidator.first_ok (fun url => https_get w true url proxy)
                     ProxyValidator.ssl_test_urls) = true) as Htrue
        by (apply first_ok_true; eauto).
      congruence.
  - intros w cfg dead proxies p Hp Hport Hstrict Hrelaxed.
    apply _is_ssl_capable_port_true in Hport.
    rewrite <- validator_is_ssl_capable_port in Hport.
    assert (fst (ProxyValidator._validate_ssl_proxy_async w p) = true) as Hok
      by (apply _validate_ssl_proxy_async_true; by right).
    rewrite validate_proxies_async_spec. eexists _, _, _. split; [reflexivity|].
    split; [|split].
    + rewrite !list_elem_of_filter. tauto.
    + destruct (ssl_only cfg).
      * rewrite filter_nil. apply not_elem_of_nil.
      * rewrite !list_elem_of_filter. tauto.
    + rewrite !elem_of_union, !elem_of_list_to_set.
      destruct (ssl_only cfg); rewrite ?filter_nil, !list_elem_of_filter, ?elem_of_nil;
        tauto.
Qed.

(** C5 in a world where only the relaxed pass gets through. *)
Lemma relaxed_pass_classifies_ssl_witness :
  ∃ ssl http dead',
    ProxyValidator.validate_proxies_async Scenario.relaxed_world default_config ∅
      ["1.2.3.4:443"; "5.6.7.8:80"]
    = Py.Ok (ssl, http, dead')
    ∧ "1.2.3.4:443" ∈ ssl ∧ ("1.2.3.4:443" ∉ http)
    ∧ ("1.2.3.4:443" ∈ dead' → "1.2.3.4:443" ∈ (∅ : gset string)).
Proof.
  apply (proj2 (proj2 relaxed_pass_classifies_ssl)).
  - left.
  - exists 443%Z. split; [by exists "443"|compute_done].
  - intros url _. discriminate.
  - exists "https://icanhazip.com". split; [left|reflexivity].
Defined.

(** ** Pool manager: saved endpoints that fail validation *)

Section SavedAndDead.

(** Additions never drop an endpoint a pool already holds. *)
Lemma add_keeps_pools (r : ProxyRotator.t) (ssl http : list string) (e : string) :
  (e ∈ ProxyRotator.ssl_proxies r →
   e ∈ ProxyRotator.ssl_proxies
         (ProxyRotator.add_http_proxies (ProxyRotator.add_ssl_proxies r ssl) http))
  ∧ (e ∈ ProxyRotator.http_proxies r →
     e ∈ ProxyRotator.http_proxies
           (ProxyRotator.add_http_proxies (ProxyRotator.add_ssl_proxies r ssl) http)).
Proof.
  simpl. split; intros He; apply append_new_elem; by left.
Qed.

(** [quick_validate_proxies] only adds to the rotator: every endpoint a
    pool held before the call is still there after it, whatever the probes
    answered. *)
Lemma quick_validate_proxies_keeps (w : world) (m m' : SmartProxyManager.t)
    (proxies working : list string) (e : string) :
  SmartProxyManager.quick_validate_proxies w m proxies = Py.Ok (working, m') →
  (e ∈ ProxyRotator.ssl_proxies (SmartProxyManager.rotator m) →
   e ∈ ProxyRotator.ssl_proxies (SmartProxyManager.rotator m'))
  ∧ (e ∈ ProxyRotator.http_proxies (SmartProxyManager.rotator m) →
     e ∈ ProxyRotator.http_proxies (SmartProxyManager.rotator m')).
Proof.
  unfold SmartProxyManager.quick_validate_proxies.
  destruct proxies as [|p0 proxies']; [by intros [= <- <-]|].
  destruct (ProxyValidator.validate_proxies_async w (SmartProxyManager.config m)
              (SmartProxyManager.validator m) (p0 :: proxies'))
    as [[[ssl http] dead]|err]; [|discriminate].
  cbn [Py.bind]. intros [= <- <-].
  cbn [SmartProxyManager.with_pools SmartProxyManager.rotator].
  apply add_keeps_pools.
Qed.

End SavedAndDead.

(** C1, evaluated on the source. The cache file lists the SSL endpoint
    1.2.3.4:8080 and nothing answers through it. [load_saved_proxies] puts
    the endpoint into the rotator's SSL pool; [quick_validate_proxies]
    then records it in the validator's dead set and leaves it in the pool,
    and returns it as a working endpoint. *)
Theorem dead_saved_endpoint_stays_in_pool :
  let '(saved, m1) := SmartProxyManager.load_saved_proxies Scenario.fresh_manager in
  ∃ working m2,
    SmartProxyManager.quick_validate_proxies Scenario.silent_world m1 saved
    = Py.Ok (working, m2)
    ∧ "1.2.3.4:8080" ∈ SmartProxyManager.validator m2
    ∧ "1.2.3.4:8080" ∈ ProxyRotator.ssl_proxies (SmartProxyManager.rotator m2)
    ∧ working = ["1.2.3.4:8080"].
Proof.
  cbv beta iota zeta delta [SmartProxyManager.load_saved_proxies].
  vm_compute. eexists _, _. split; [reflexivity|].
  split; [|split; [left|reflexivity]]. compute_done.
Qed.

(** ** Fetcher: the source list *)

(** The loop runs over the URLs of the enabled sources, in the order of
    the registry. *)
Lemma _rebuild_sources_list_enabled (cfgs : list (string * ProxyFetcher.source_config)) :
  ProxyFetcher._rebuild_sources_list cfgs
  = map (fun entry => ProxyFetcher.url (snd entry))
      (filter (fun entry => ProxyFetcher.enabled (snd entry) = true) cfgs).
Proof.
  induction cfgs as [|[name c] cfgs IH]; [done|].
  cbn [ProxyFetcher._rebuild_sources_list]. rewrite filter_cons. cbn [snd].
  destruct (ProxyFetcher.enabled c) eqn:Hc.
  - rewrite decide_True by done. cbn [map snd]. by rewrite IH.
  - rewrite decide_False by done. exact IH.
Qed.

Example all_sources_enabled_at_start :
  length (ProxyFetcher._rebuild_sources_list ProxyFetcher.proxy_sources_config) = 9.
Proof. reflexivity. Qed.

(** ** Fetcher: the early stop *)

Section EarlyStop.

Import ProxyFetcher.

Variable w : world.
Variable cfg : ProxyConfig.

Ltac loop_body_cases s r :=
  unfold loop_body;
  destruct (fetch_from_source w s) as [[|p0 ps]|err];
  [ | destruct (ProxyValidator.validate_proxies_async w _ (dead r) (p0 :: ps))
        as [[[ssl http] dead']|err];
      [ destruct (Nat.leb large_pool
                    (length (all_ssl_proxies r ++ ssl)
                     + length (all_http_proxies r ++ http))) eqn:Hlarge | ]
    | ].

(** Every source the loop reaches is handed to the page fetch. *)
Lemma loop_body_consulted (s : string) (r : run) :
  consulted (fst (loop_body w cfg s r)) = consulted r ++ [s].
Proof. loop_body_cases s r; reflexivity. Qed.

(** The body breaks only with a total of at least 20. *)
Lemma loop_body_break (s : string) (r : run) :
  snd (loop_body w cfg s r) = true →
  large_pool ≤ total_working (fst (loop_body w cfg s r)).
Proof.
  loop_body_cases s r; cbn [fst snd]; try discriminate.
  intros _. by apply Nat.leb_le in Hlarge.
Qed.

(** The body goes on to the next source only with a total below 20. *)
Lemma loop_body_continue (s : string) (r : run) :
  total_working r < large_pool →
  snd (loop_body w cfg s r) = false →
  total_working (fst (loop_body w cfg s r)) < large_pool.
Proof.
  intros Hr. loop_body_cases s r; cbn [fst snd]; try discriminate; try done.
  intros _. by apply Nat.leb_gt in Hlarge.
Qed.

(** The loop over a list of sources split in two: the second part is
    processed exactly when the first part ended below 20. *)
Lemma fetch_loop_app (pre rest : list string) (r : run) :
  total_working r < large_pool →
  fetch_loop w cfg (pre ++ rest) r
  = if Nat.leb large_pool (total_working (fetch_loop w cfg pre r))
    then fetch_loop w cfg pre r
    else fetch_loop w cfg rest (fetch_loop w cfg pre r).
Proof.
  revert r. induction pre as [|s pre IH]; intros r Hr.
  - cbn [app fetch_loop]. by apply Nat.leb_gt in Hr as ->.
  - cbn [app fetch_loop].
    pose proof (loop_body_break s r) as Hbreak.
    pose proof (loop_body_continue s r Hr) as Hcont.
    destruct (loop_body w cfg s r) as [r1 [|]]; cbn [fst snd] in *.
    + by apply Nat.leb_le in Hbreak as ->.
    + by apply IH, Hcont.
Qed.

(** The sources consulted are a prefix of the source list. *)
Lemma fetch_loop_consulted (sources : list string) (r : run) :
  ∃ k, consulted (fetch_loop w cfg sources r) = consulted r ++ take k sources.
Proof.
  revert r. induction sources as [|s sources IH]; intros r.
  - exists 0. by rewrite app_nil_r.
  - cbn [fetch_loop]. pose proof (loop_body_consulted s r) as Hs.
    destruct (loop_body w cfg s r) as [r1 [|]]; cbn [fst] in Hs.
    + exists 1. by rewrite Hs.
    + destruct (IH r1) as [k ->]. exists (S k). rewrite Hs.
      by rewrite <- app_assoc.
Qed.

(** A loop that ends below 20 has consulted every source. *)
Lemma fetch_loop_all_consulted (sources : list string) (r : run) :
  total_working r < large_pool →
  total_working (fetch_loop w cfg sources r) < large_pool →
  consulted (fetch_loop w cfg sources r) = consulted r ++ sources.
Proof.
  revert r. induction sources as [|s sources IH]; intros r Hr.
  - by rewrite app_nil_r.
  - cbn [fetch_loop].
    pose proof (loop_body_consulted s r) as Hs.
    pose proof (loop_body_break s r) as Hbreak.
    pose proof (loop_body_continue s r Hr) as Hcont.
    destruct (loop_body w cfg s r) as [r1 [|]]; cbn [fst snd] in *.
    + intros Hlow. specialize (Hbreak eq_refl). lia.
    + intros Hlow. rewrite (IH r1) by auto. rewrite Hs. by rewrite <- app_assoc.
Qed.

(** The minimum pool size only decides what is printed. *)
Lemma loop_body_min (n : nat) (s : string) (r r' : run) :
  outcome_of r' = outcome_of r →
  outcome_of (fst (loop_body w (with_min_working_proxies cfg n) s r'))
  = outcome_of (fst (loop_body w cfg s r))
  ∧ snd (loop_body w (with_min_working_proxies cfg n) s r')
    = snd (loop_body w cfg s r).
Proof.
  unfold outcome_of. intros [= Hssl Hhttp Htested Hconsulted Hdead].
  unfold loop_body. rewrite Hssl, Hhttp, Htested, Hconsulted, Hdead.
  destruct (fetch_from_source w s) as [[|p0 ps]|err]; [done| |done].
  change (ProxyValidator.validate_proxies_async w (with_min_working_proxies cfg n))
    with (ProxyValidator.validate_proxies_async w cfg).
  destruct (ProxyValidator.validate_proxies_async w cfg (dead r) (p0 :: ps))
    as [[[ssl http] dead']|err]; [|done].
  by destruct (Nat.leb large_pool _).
Qed.

Lemma fetch_loop_min (n : nat) (sources : list string) (r r' : run) :
  outcome_of r' = outcome_of r →
  outcome_of (fetch_loop w (with_min_working_proxies cfg n) sources r')
  = outcome_of (fetch_loop w cfg sources r).
Proof.
  revert r r'. induction sources as [|s sources IH]; intros r r' Hr; [done|].
  cbn [fetch_loop].
  destruct (loop_body_min n s r r' Hr) as [Hout Hstop].
  destruct (loop_body w (with_min_working_proxies cfg n) s r') as [r1' stop'].
  destruct (loop_body w cfg s r) as [r1 stop].
  cbn [fst snd] in *. subst stop'. destruct stop; [done|]. by apply IH.
Qed.

(** The first source of a list is always consulted. *)
Lemma fetch_loop_cons_consulted (s : string) (post : list string) (r : run) :
  ∃ k, consulted (fetch_loop w cfg (s :: post) r) = consulted r ++ s :: take k post.
Proof.
  cbn [fetch_loop]. pose proof (loop_body_consulted s r) as Hs.
  destruct (loop_body w cfg s r) as [r1 [|]]; cbn [fst] in Hs.
  - exists 0. by rewrite Hs, take_0.
  - destruct (fetch_loop_consulted post r1) as [k ->]. exists k.
    by rewrite Hs, <- app_assoc.
Qed.

End EarlyStop.

(** C4. [fetch_new_proxies_async] goes on to the next source exactly when
    the combined total of working SSL and HTTP endpoints after the sources
    before it is below 20: the sources consulted are a prefix of the
    source list, a source is consulted if and only if the run over the
    sources before it ended with a total below 20, and the loop leaves
    sources unconsulted only with a total of at least 20. The configured
    minimum changes nothing but the messages printed. For sources yielding
    12 and then 15 working endpoints the fetcher stops after the second
    source, with 27 endpoints, and does not consult the third. *)
Theorem large_pool_early_stop :
  (∀ (w : world) (cfg : ProxyConfig) (dead : gset string)
     (pre : list string) (s : string) (post : list string),
     length pre
     < length (ProxyFetcher.consulted
                 (ProxyFetcher.fetch_new_proxies_async w cfg (pre ++ s :: post) dead))
     ↔ ProxyFetcher.total_working
         (ProxyFetcher.fetch_new_proxies_async w cfg pre dead) < 20)
  ∧ (∀ (w : world) (cfg : ProxyConfig) (dead : gset string) (sources : list string),
       ProxyFetcher.consulted
         (ProxyFetcher.fetch_new_proxies_async w cfg sources dead)
       `prefix_of` sources)
  ∧ (∀ (w : world) (cfg : ProxyConfig) (dead : gset string) (sources : list string),
       length (ProxyFetcher.consulted
                 (ProxyFetcher.fetch_new_proxies_async w cfg sources dead))
       < length sources →
       20 ≤ ProxyFetcher.total_working
              (ProxyFetcher.fetch_new_proxies_async w cfg sources dead))
  ∧ (∀ (w : world) (cfg : ProxyConfig) (n : nat) (dead : gset string)
       (sources : list string),
       ProxyFetcher.outcome_of
         (ProxyFetcher.fetch_new_proxies_async w (with_min_working_proxies cfg n)
            sources dead)
       = ProxyFetcher.outcome_of
           (ProxyFetcher.fetch_new_proxies_async w cfg sources dead))
  ∧ (ProxyFetcher.total_working
       (ProxyFetcher.fetch_new_proxies_async Scenario.generous_world default_config
          (take 1 Scenario.three_sources) ∅) = 12
     ∧ ProxyFetcher.consulted
         (ProxyFetcher.fetch_new_proxies_async Scenario.generous_world default_config
            Scenario.three_sources ∅)
       = take 2 Scenario.three_sources
     ∧ ProxyFetcher.total_working
         (ProxyFetcher.fetch_new_proxies_async Scenario.generous_world default_config
            Scenario.three_sources ∅) = 27).
Proof.
  split; [|split; [|split; [|split]]].
  - intros w cfg dead pre s post. unfold ProxyFetcher.fetch_new_proxies_async.
    set (r0 := {| ProxyFetcher.all_ssl_proxies := []; ProxyFetcher.all_http_proxies := [];
                  ProxyFetcher.tested_sources := 0; ProxyFetcher.consulted := [];
                  ProxyFetcher.printed := []; ProxyFetcher.dead := dead |}).
    assert (ProxyFetcher.total_working r0 < ProxyFetcher.large_pool) as Hr0
      by (unfold r0, ProxyFetcher.total_working, ProxyFetcher.large_pool; simpl; lia).
    rewrite (fetch_loop_app w cfg pre (s :: post) r0 Hr0).
    change ProxyFetcher.large_pool with 20 in *.
    destruct (Nat.leb_spec 20
                (ProxyFetcher.total_working (ProxyFetcher.fetch_loop w cfg pre r0)))
      as [Hstop|Hlow].
    + destruct (fetch_loop_consulted w cfg pre r0) as [k ->].
      cbn [ProxyFetcher.consulted r0 app]. rewrite length_take. lia.
    + destruct (fetch_loop_cons_consulted w cfg s post
                  (ProxyFetcher.fetch_loop w cfg pre r0)) as [k ->].
      rewrite (fetch_loop_all_consulted w cfg pre r0 Hr0 Hlow).
      cbn [ProxyFetcher.consulted r0 app]. rewrite length_app. simpl. lia.
  - intros w cfg dead sources. unfold ProxyFetcher.fetch_new_proxies_async.
    destruct (fetch_loop_consulted w cfg sources
                {| ProxyFetcher.all_ssl_proxies := []; ProxyFetcher.all_http_proxies := [];
                   ProxyFetcher.tested_sources := 0; ProxyFetcher.consulted := [];
                   ProxyFetcher.printed := []; ProxyFetcher.dead := dead |}) as [k ->].
    cbn [ProxyFetcher.consulted app]. apply prefix_take.
  - intros w cfg dead sources. unfold ProxyFetcher.fetch_new_proxies_async.
    set (r0 := {| ProxyFetcher.all_ssl_proxies := []; ProxyFetcher.all_http_proxies := [];
                  ProxyFetcher.tested_sources := 0; ProxyFetcher.consulted := [];
                  ProxyFetcher.printed := []; ProxyFetcher.dead := dead |}).
    intros Hshort.
    destruct (Nat.le_gt_cases 20
                (ProxyFetcher.total_working (ProxyFetcher.fetch_loop w cfg sources r0)))
      as [Hstop|Hlow]; [done|].
    rewrite (fetch_loop_all_consulted w cfg sources r0) in Hshort.
    + cbn [ProxyFetcher.consulted r0 app] in Hshort. lia.
    + unfold r0, ProxyFetcher.total_working, ProxyFetcher.large_pool. simpl. lia.
    + exact Hlow.
  - intros w cfg n dead sources. by apply fetch_loop_min.
  - by vm_compute.
Qed.

(** C4 on the three sources of the example: one source is left
    unconsulted, so the total is at least 20. *)
Lemma large_pool_early_stop_witness :
  20 ≤ ProxyFetcher.total_working
         (ProxyFetcher.fetch_new_proxies_async Scenario.generous_world default_config
            Scenario.three_sources ∅).
Proof.
  apply (proj1 (proj2 (proj2 large_pool_early_stop))).
  vm_compute. lia.
Defined.

(** ** Pools: duplicates and exclusivity *)

Section Exclusivity.

Import ProxyStorage.

(** A file without one of the two pool fields is loaded by port, which
    puts no endpoint into both pools. *)
Lemma load_legacy_exclusive (d : disk) :
  (∀ data, content d = Json data →
           ssl_proxies data = None ∨ http_proxies data = None) →
  Spec.pools_exclusive (fst (load_saved_proxies d)) (snd (load_saved_proxies d)).
Proof.
  intros Hshape. destruct (load_NoDup d) as [Hs Hh].
  split; [done|]. split; [done|]. clear Hs Hh.
  unfold load_saved_proxies.
  destruct (content d) as [|err|data] eqn:Hd; cbn [load_saved_proxies_try fst snd];
    try (intros e He; by apply elem_of_nil in He).
  destruct (Hshape data eq_refl) as [Hnone|Hnone]; rewrite Hnone.
  - cbn [fst snd]. intros e. rewrite !list_elem_of_filter. tauto.
  - destruct (ssl_proxies data); cbn [fst snd]; intros e;
      rewrite !list_elem_of_filter; tauto.
Qed.

End Exclusivity.

(** C3 as stated fails. A cache file in the current shape that lists
    1.2.3.4:8080 under both pool fields is loaded into both pools: the
    rotator built from it is reachable and holds the endpoint in its SSL
    pool and in its HTTP pool. Likewise [add_http_proxies] puts an endpoint
    of the SSL pool into the HTTP pool. *)
Lemma pools_not_exclusive :
  let e := "1.2.3.4:8080" in
  let d := Scenario.current_file [e] [e] in
  let r := ProxyRotator.add_http_proxies
             (ProxyRotator.add_ssl_proxies ProxyRotator.init
                (fst (ProxyStorage.load_saved_proxies d)))
             (snd (ProxyStorage.load_saved_proxies d)) in
  ProxyRotator.reachable r
  ∧ e ∈ ProxyRotator.ssl_proxies r
  ∧ e ∈ ProxyRotator.http_proxies r
  ∧ ¬ Spec.pools_exclusive (ProxyRotator.ssl_proxies r) (ProxyRotator.http_proxies r)
  ∧ ¬ Spec.pools_exclusive (fst (ProxyStorage.load_saved_proxies d))
        (snd (ProxyStorage.load_saved_proxies d))
  ∧ Spec.pools_exclusive
      (ProxyRotator.ssl_proxies (ProxyRotator.add_ssl_proxies ProxyRotator.init [e]))
      (ProxyRotator.http_proxies (ProxyRotator.add_ssl_proxies ProxyRotator.init [e]))
  ∧ ¬ Spec.pools_exclusive
        (ProxyRotator.ssl_proxies
           (ProxyRotator.add_http_proxies
              (ProxyRotator.add_ssl_proxies ProxyRotator.init [e]) [e]))
        (ProxyRotator.http_proxies
           (ProxyRotator.add_http_proxies
              (ProxyRotator.add_ssl_proxies ProxyRotator.init [e]) [e])).
Proof.
  intros e d r.
  assert (ProxyStorage.load_saved_proxies d = ([e], [e])) as Hload by (by vm_compute).
  assert (r = {| ProxyRotator.ssl_proxies := [e]; ProxyRotator.http_proxies := [e];
                 ProxyRotator.current_ssl_index := 0;
                 ProxyRotator.current_http_index := 0 |}) as Hr by (by vm_compute).
  assert (e ∈ [e]) as He by left.
  split; [|split; [|split; [|split; [|split; [|split]]]]].
  - apply (ProxyRotator.reachable_step
             (ProxyRotator.add_ssl_proxies ProxyRotator.init [e])
             (ProxyRotator.AddHttp [e]) None); [|by rewrite Hr].
    apply (ProxyRotator.reachable_step ProxyRotator.init (ProxyRotator.AddSsl [e]) None);
      [apply ProxyRotator.reachable_init|reflexivity].
  - by rewrite Hr.
  - by rewrite Hr.
  - rewrite Hr. intros (_ & _ & Hex). by apply (Hex e).
  - rewrite Hload. intros (_ & _ & Hex). by apply (Hex e).
  - split; [apply NoDup_singleton|]. split; [apply NoDup_nil_2|].
    intros x _. apply not_elem_of_nil.
  - intros (_ & _ & Hex). by apply (Hex e).
Qed.

(** * Further properties of the engine *)

(** ** Rotator: what an addition appends *)

Lemma filter_none (P : string → Prop) `{!∀ x, Decision (P x)} (l : list string) :
  (∀ x, x ∈ l → ¬ P x) → filter P l = [].
Proof.
  induction l as [|y l IH]; intros HP; [done|].
  rewrite filter_cons_False by (apply HP; left).
  apply IH. intros x Hx. apply HP. by right.
Qed.

Lemma append_new_first_occurrences (ps pool : list string) :
  ProxyRotator.append_new pool ps
  = pool ++ filter (fun x => x ∉ pool) (Spec.first_occurrences ps).
Proof.
  revert pool. induction ps as [|p ps IH]; intros pool; simpl.
  - by rewrite app_nil_r.
  - destruct (decide (p ∈ pool)) as [Hp|Hp]; rewrite IH.
    + rewrite filter_cons_False by tauto. f_equal.
      rewrite list_filter_filter. apply list_filter_iff.
      intros x. split; [|tauto]. intros Hx. split; [done|]. by intros ->.
    + rewrite filter_cons_True by done. rewrite <- app_assoc. simpl. do 2 f_equal.
      rewrite list_filter_filter. apply list_filter_iff.
      intros x. rewrite elem_of_app, list_elem_of_singleton. tauto.
Qed.

(** Adding endpoints the pool already holds changes nothing. *)
Lemma append_new_present (ps pool : list string) :
  (∀ x, x ∈ ps → x ∈ pool) → ProxyRotator.append_new pool ps = pool.
Proof.
  intros Hsub. rewrite append_new_first_occurrences, filter_none, app_nil_r; [done|].
  intros x Hx Hnot. apply Hnot, Hsub. by apply first_occurrences_elem.
Qed.

(** [add_ssl_proxies] and [add_http_proxies] append, in the order of their
    first occurrence, exactly the endpoints of the argument that the pool
    does not hold yet; the other pool and both cursors are untouched. *)
Theorem add_appends_first_occurrences (r : ProxyRotator.t) (proxies : list string) :
  ProxyRotator.add_ssl_proxies r proxies
  = {| ProxyRotator.ssl_proxies :=
         ProxyRotator.ssl_proxies r
         ++ filter (fun x => x ∉ ProxyRotator.ssl_proxies r)
              (Spec.first_occurrences proxies);
       ProxyRotator.http_proxies := ProxyRotator.http_proxies r;
       ProxyRotator.current_ssl_index := ProxyRotator.current_ssl_index r;
       ProxyRotator.current_http_index := ProxyRotator.current_http_index r |}
  ∧ ProxyRotator.add_http_proxies r proxies
    = {| ProxyRotator.ssl_proxies := ProxyRotator.ssl_proxies r;
         ProxyRotator.http_proxies :=
           ProxyRotator.http_proxies r
           ++ filter (fun x => x ∉ ProxyRotator.http_proxies r)
                (Spec.first_occurrences proxies);
         ProxyRotator.current_ssl_index := ProxyRotator.current_ssl_index r;
         ProxyRotator.current_http_index := ProxyRotator.current_http_index r |}.
Proof.
  unfold ProxyRotator.add_ssl_proxies, ProxyRotator.add_http_proxies.
  by rewrite !append_new_first_occurrences.
Qed.

(** ** Rotator: dispensing without a site *)

(** Without a site hint that names a pool, and with no empty string in the
    SSL pool, [get_next_proxy] dispenses from the SSL pool whenever that
    pool is non-empty, leaving the HTTP cursor alone, and otherwise does
    what [get_next_http_proxy] does; it returns [None] only when both pools
    are empty. *)
Theorem next_without_site_prefers_ssl (r : ProxyRotator.t) (site : option string) :
  ProxyRotator.reachable r →
  site ≠ Some "linkedin" →
  site ≠ Some "indeed" →
  "" ∉ ProxyRotator.ssl_proxies r →
  (ProxyRotator.ssl_proxies r ≠ [] →
   ∃ x r', ProxyRotator.get_next_proxy r site = Py.Ok (Some x, r')
     ∧ ProxyRotator.get_next_ssl_proxy r = Py.Ok (Some x, r')
     ∧ x ∈ ProxyRotator.ssl_proxies r
     ∧ ProxyRotator.current_http_index r' = ProxyRotator.current_http_index r)
  ∧ (ProxyRotator.ssl_proxies r = [] →
     ProxyRotator.get_next_proxy r site = ProxyRotator.get_next_http_proxy r)
  ∧ (∀ r', ProxyRotator.get_next_proxy r site = Py.Ok (None, r') →
           ProxyRotator.ssl_proxies r = [] ∧ ProxyRotator.http_proxies r = []).
Proof.
  intros Hreach Hl Hi Hempty. pose proof (reachable_wf r Hreach) as Hwf.
  unfold ProxyRotator.get_next_proxy.
  rewrite !decide_False by done.
  destruct (get_next_ssl_proxy_wf r Hwf) as (out & r1 & Hnext & Hwf1 & Hs1 & Hh1 & Hout & Hnone).
  assert (ProxyRotator.current_http_index r1 = ProxyRotator.current_http_index r) as Hidx.
  { revert Hnext. unfold ProxyRotator.get_next_ssl_proxy.
    destruct (ProxyRotator.ssl_proxies r); [by intros [= <- <-]|].
    destruct (Py.getitem _ _); cbn [Py.bind]; [|done]. by intros [= <- <-]. }
  split; [|split].
  - intros Hne. rewrite Hnext. cbn [Py.bind].
    destruct out as [x|]; [|by specialize (Hnone eq_refl)].
    assert (Py.truthy (Some x) = true) as ->.
    { simpl. destruct (String.eqb_spec x ""); [|done].
      subst x. exfalso. apply Hempty. by apply Hout. }
    exists x, r1. split_and!; auto.
  - intros Hnil. unfold ProxyRotator.get_next_ssl_proxy. by rewrite Hnil.
  - rewrite Hnext. cbn [Py.bind]. intros r'.
    destruct out as [x|].
    + assert (Py.truthy (Some x) = true) as ->.
      { simpl. destruct (String.eqb_spec x ""); [|done].
        subst x. exfalso. apply Hempty. by apply Hout. }
      discriminate.
    + cbn [Py.truthy]. intros Hhttp.
      destruct (get_next_http_proxy_wf r1 Hwf1) as (out2 & r2 & Hnext2 & _ & _ & _ & _ & Hnone2).
      rewrite Hnext2 in Hhttp. injection Hhttp as -> ->.
      split; [by apply Hnone|]. rewrite <- Hh1. by apply Hnone2.
Qed.

(** A rotator with one endpoint in each pool, asked without a site. *)
Lemma next_without_site_prefers_ssl_witness :
  let r := ProxyRotator.add_http_proxies
             (ProxyRotator.add_ssl_proxies ProxyRotator.init ["1.2.3.4:8080"])
             ["5.6.7.8:80"] in
  ∃ x r', ProxyRotator.get_next_proxy r None = Py.Ok (Some x, r')
    ∧ ProxyRotator.get_next_ssl_proxy r = Py.Ok (Some x, r')
    ∧ x ∈ ProxyRotator.ssl_proxies r
    ∧ ProxyRotator.current_http_index r' = ProxyRotator.current_http_index r.
Proof.
  intros r.
  apply (proj1 (next_without_site_prefers_ssl r None
    (ProxyRotator.reachable_step _ (ProxyRotator.AddHttp ["5.6.7.8:80"]) None _
       (ProxyRotator.reachable_step _ (ProxyRotator.AddSsl ["1.2.3.4:8080"]) None _
          ProxyRotator.reachable_init eq_refl) eq_refl)
    ltac:(discriminate) ltac:(discriminate) ltac:(compute_done))).
  discriminate.
Defined.

(** ** Rotator: what an eviction keeps *)

(** In every state a rotator can be in, [mark_proxy_dead e] leaves in each
    pool exactly the endpoints other than [e], in their order; a pool that
    held [e] is shorter by one, a pool that did not is unchanged. *)
Theorem eviction_keeps_the_others (r r' : ProxyRotator.t) (e : string)
    (removed : bool) :
  ProxyRotator.reachable r →
  ProxyRotator.mark_proxy_dead r e = (removed, r') →
  ProxyRotator.ssl_proxies r' = filter (fun x => x ≠ e) (ProxyRotator.ssl_proxies r)
  ∧ ProxyRotator.http_proxies r' = filter (fun x => x ≠ e) (ProxyRotator.http_proxies r)
  ∧ (e ∈ ProxyRotator.ssl_proxies r →
     S (length (ProxyRotator.ssl_proxies r')) = length (ProxyRotator.ssl_proxies r))
  ∧ (e ∈ ProxyRotator.http_proxies r →
     S (length (ProxyRotator.http_proxies r')) = length (ProxyRotator.http_proxies r))
  ∧ (e ∉ ProxyRotator.ssl_proxies r →
     ProxyRotator.ssl_proxies r' = ProxyRotator.ssl_proxies r)
  ∧ (e ∉ ProxyRotator.http_proxies r →
     ProxyRotator.http_proxies r' = ProxyRotator.http_proxies r).
Proof.
  intros Hreach Hmark. destruct (reachable_wf r Hreach) as (Hs & Hh & _ & _).
  assert (∀ pool, NoDup pool →
            ProxyRotator.remove e pool = filter (fun x => x ≠ e) pool) as Hfilter.
  { induction 1 as [|y pool Hy Hpool IH]; simpl; [done|].
    destruct (decide (y = e)) as [->|Hne].
    - rewrite filter_cons_False by tauto.
      symmetry. apply filter_all_id. intros x Hx ->. by apply Hy.
    - rewrite filter_cons_True by done. by rewrite IH. }
  assert (∀ pool, e ∈ pool →
            S (length (ProxyRotator.remove e pool)) = length pool) as Hlen.
  { induction pool as [|y pool IH]; simpl; [by intros ?%elem_of_nil|].
    intros Hin. destruct (decide (y = e)) as [->|Hne]; [done|].
    apply elem_of_cons in Hin as [->|Hin]; [done|]. simpl. by rewrite IH. }
  revert Hmark. unfold ProxyRotator.mark_proxy_dead.
  destruct (decide (e ∈ ProxyRotator.ssl_proxies r)) as [Hins|Hins];
    destruct (decide (e ∈ ProxyRotator.http_proxies r)) as [Hinh|Hinh];
    intros [= <- <-];
    cbn [ProxyRotator.ssl_proxies ProxyRotator.http_proxies];
    rewrite <- ?(Hfilter _ Hs), <- ?(Hfilter _ Hh);
    split_and!; try done; auto using remove_absent; try (by rewrite remove_absent).
Qed.

(** The rotator with three SSL endpoints loses its second one. *)
Lemma eviction_keeps_the_others_witness :
  ProxyRotator.ssl_proxies
    (snd (ProxyRotator.mark_proxy_dead
            (ProxyRotator.add_ssl_proxies ProxyRotator.init
               ["1.1.1.1:443"; "2.2.2.2:443"; "3.3.3.3:443"]) "2.2.2.2:443"))
  = filter (fun x => x ≠ "2.2.2.2:443") ["1.1.1.1:443"; "2.2.2.2:443"; "3.3.3.3:443"].
Proof.
  apply (eviction_keeps_the_others
           (ProxyRotator.add_ssl_proxies ProxyRotator.init
              ["1.1.1.1:443"; "2.2.2.2:443"; "3.3.3.3:443"]) _ "2.2.2.2:443" true).
  - apply (ProxyRotator.reachable_step ProxyRotator.init
             (ProxyRotator.AddSsl ["1.1.1.1:443"; "2.2.2.2:443"; "3.3.3.3:443"]) None);
      [apply ProxyRotator.reachable_init|reflexivity].
  - reflexivity.
Defined.

(** ** Validator: a probe stops at its first success *)

Section FirstSuccess.

Import ProxyValidator.

Lemma first_ok_shape (get : string → response) (urls : list string) :
  ∃ fails final,
    snd (first_ok get urls) = fails ++ final
    ∧ Forall (fun url => get url ≠ Status 200) fails
    ∧ ((fst (first_ok get urls) = false ∧ final = [] ∧ fails = urls)
       ∨ (fst (first_ok get urls) = true
          ∧ ∃ url, final = [url] ∧ get url = Status 200)).
Proof.
  induction urls as [|url rest IH].
  - exists [], []. simpl. split; [done|]. split; [constructor|]. by left.
  - rewrite first_ok_cons. destruct (decide (get url = Status 200)) as [Hok|Hno].
    + exists [], [url]. cbn [fst snd app]. split; [done|]. split; [constructor|].
      right. split; [done|]. by exists url.
    + destruct IH as (fails & final & Hasked & Hfails & Hend).
      destruct (first_ok get rest) as [ok asked]. cbn [fst snd] in *.
      exists (url :: fails), final. split; [by rewrite Hasked|].
      split; [by constructor|].
      destruct Hend as [(-> & -> & ->)|(-> & Hlast)]; [by left|by right].
Qed.

End FirstSuccess.

(** Both probes send their requests one after the other and stop at the
    first answer with status 200: every request but the last was answered
    otherwise, and the probe returns [True] exactly when its last request
    was answered 200. The SSL probe sends at most eight requests, the HTTP
    probe at most four, and the HTTP probe succeeds exactly when one of its
    four targets answers 200. *)
Theorem probes_stop_at_first_success (w : world) (proxy : string) :
  Probe.stops_at_first_success w proxy (ProxyValidator._validate_ssl_proxy_async w proxy)
  ∧ Probe.stops_at_first_success w proxy
      (ProxyValidator._validate_http_proxy_async w proxy)
  ∧ length (snd (ProxyValidator._validate_ssl_proxy_async w proxy)) ≤ 8
  ∧ length (snd (ProxyValidator._validate_http_proxy_async w proxy)) ≤ 4
  ∧ (fst (ProxyValidator._validate_http_proxy_async w proxy) = true
     ↔ ∃ url, url ∈ ProxyValidator.http_test_urls ∧ http_get w url proxy = Status 200).
Proof.
  unfold Probe.stops_at_first_success.
  pose proof (first_ok_shape (fun url => https_get w true url proxy)
                ProxyValidator.ssl_test_urls) as Hstrict.
  pose proof (first_ok_shape (fun url => https_get w false url proxy)
                ProxyValidator.ssl_test_urls) as Hrelaxed.
  pose proof (first_ok_shape (fun url => http_get w url proxy)
                ProxyValidator.http_test_urls) as Hplain.
  pose proof (first_ok_asked_prefix (fun url => https_get w true url proxy)
                ProxyValidator.ssl_test_urls) as Hpre1.
  pose proof (first_ok_asked_prefix (fun url => https_get w false url proxy)
                ProxyValidator.ssl_test_urls) as Hpre2.
  pose proof (first_ok_asked_prefix (fun url => http_get w url proxy)
                ProxyValidator.http_test_urls) as Hpre3.
  pose proof (first_ok_true (fun url => http_get w url proxy)
                ProxyValidator.http_test_urls) as Hiff.
  apply prefix_length in Hpre1, Hpre2, Hpre3.
  unfold ProxyValidator._validate_ssl_proxy_async,
    ProxyValidator._validate_http_proxy_async.
  destruct (ProxyValidator.first_ok (fun url => https_get w true url proxy)
              ProxyValidator.ssl_test_urls) as [ok1 asked1].
  destruct (ProxyValidator.first_ok (fun url => https_get w false url proxy)
              ProxyValidator.ssl_test_urls) as [ok2 asked2].
  destruct (ProxyValidator.first_ok (fun url => http_get w url proxy)
              ProxyValidator.http_test_urls) as [ok3 asked3].
  change (length ProxyValidator.ssl_test_urls) with 4 in *.
  change (length ProxyValidator.http_test_urls) with 4 in *.
  cbn [fst snd] in *.
  assert (∀ (m : ProxyValidator.mode) (get : string → response) (l : list string),
            (∀ url, Probe.answer w proxy (ProxyValidator.Build_request m url) = get url) →
            Forall (fun url => get url ≠ Status 200) l →
            Forall (fun req => Probe.answer w proxy req ≠ Status 200)
              (map (ProxyValidator.Build_request m) l)) as Hmap.
  { intros m get l Hanswer Hl. apply Forall_forall. intros req Hreq.
    apply list_elem_of_fmap in Hreq as (url & -> & Hurl).
    rewrite Hanswer. rewrite Forall_forall in Hl. by apply Hl. }
  split_and!.
  - destruct Hstrict as (f1 & l1 & -> & Hf1 & [(-> & -> & ->)|(-> & u1 & -> & Hu1)]).
    + destruct Hrelaxed as (f2 & l2 & -> & Hf2 & [(-> & -> & ->)|(-> & u2 & -> & Hu2)]);
        cbn [fst snd]; rewrite ?app_nil_r.
      * exists (map (ProxyValidator.Build_request ProxyValidator.Strict)
                  ProxyValidator.ssl_test_urls
                ++ map (ProxyValidator.Build_request ProxyValidator.Relaxed)
                     ProxyValidator.ssl_test_urls), [].
        split; [by rewrite app_nil_r|].
        split; [|by left]. apply Forall_app. split; by eapply Hmap.
      * exists (map (ProxyValidator.Build_request ProxyValidator.Strict)
                  ProxyValidator.ssl_test_urls
                ++ map (ProxyValidator.Build_request ProxyValidator.Relaxed) f2),
               [ProxyValidator.Build_request ProxyValidator.Relaxed u2].
        split; [by rewrite (map_app _ f2), app_assoc|].
        split; [apply Forall_app; split; by eapply Hmap|].
        right. split; [done|]. eexists. split; [done|]. exact Hu2.
    + cbn [fst snd].
      exists (map (ProxyValidator.Build_request ProxyValidator.Strict) f1),
             [ProxyValidator.Build_request ProxyValidator.Strict u1].
      split; [by rewrite map_app|]. split; [by eapply Hmap|].
      right. split; [done|]. eexists. split; [done|]. exact Hu1.
  - destruct Hplain as (f3 & l3 & -> & Hf3 & [(-> & -> & ->)|(-> & u3 & -> & Hu3)]);
      cbn [fst snd]; rewrite ?app_nil_r.
    + exists (map (ProxyValidator.Build_request ProxyValidator.Plain)
                ProxyValidator.http_test_urls), [].
      split; [by rewrite app_nil_r|].
      split; [by eapply Hmap|by left].
    + exists (map (ProxyValidator.Build_request ProxyValidator.Plain) f3),
             [ProxyValidator.Build_request ProxyValidator.Plain u3].
      split; [by rewrite map_app|]. split; [by eapply Hmap|].
      right. split; [done|]. eexists. split; [done|]. exact Hu3.
  - destruct ok1; cbn [snd]; rewrite ?length_app, !length_map; lia.
  - rewrite length_map. lia.
  - exact Hiff.
Qed.

(** ** Validator: what happens to every candidate *)


(** The endpoints [validate_proxies_async] returns keep the order of the
    candidate list, and there are never more of them than candidates. *)
Theorem validation_keeps_order (w : world) (cfg : ProxyConfig)
    (dead dead' : gset string) (proxies ssl http : list string) :
  ProxyValidator.validate_proxies_async w cfg dead proxies = Py.Ok (ssl, http, dead') →
  ssl `sublist_of` proxies
  ∧ http `sublist_of` proxies
  ∧ length ssl + length http ≤ length proxies.
Proof.
  rewrite validate_proxies_async_spec. intros [= <- <- <-].
  split_and!.
  - etrans; apply sublist_filter.
  - destruct (ssl_only cfg); [apply sublist_nil_l|]. etrans; apply sublist_filter.
  - destruct (ssl_only cfg).
    + rewrite filter_nil. cbn [length]. rewrite Nat.add_0_r.
      etrans; apply length_filter.
    + etrans; [apply Nat.add_le_mono; apply length_filter|].
      rewrite <- length_app. by rewrite filter_app_complement.
Qed.

(** Two candidates in a world where only the relaxed pass gets through. *)
Lemma validation_keeps_order_witness :
  ["1.2.3.4:443"] `sublist_of` ["1.2.3.4:443"; "5.6.7.8:80"]
  ∧ [] `sublist_of` ["1.2.3.4:443"; "5.6.7.8:80"]
  ∧ length ["1.2.3.4:443"] + length (@nil string)
    ≤ length ["1.2.3.4:443"; "5.6.7.8:80"].
Proof.
  apply (validation_keeps_order Scenario.relaxed_world default_config ∅
           (list_to_set [] ∪ (list_to_set [] ∪ ∅))
           ["1.2.3.4:443"; "5.6.7.8:80"] ["1.2.3.4:443"] []).
  by vm_compute.
Defined.

(** ** Fetcher: sources that yield nothing *)

Section SkippedSource.

Import ProxyFetcher.

Variable w : world.
Variable cfg : ProxyConfig.

(** The body of the loop looks at a run only through its harvest. *)
Lemma loop_body_harvest (s : string) (r r' : run) :
  Fetched.harvest r = Fetched.harvest r' →
  Fetched.harvest (fst (loop_body w cfg s r)) = Fetched.harvest (fst (loop_body w cfg s r'))
  ∧ snd (loop_body w cfg s r) = snd (loop_body w cfg s r').
Proof.
  unfold Fetched.harvest. intros [= Hssl Hhttp Hdead].
  unfold loop_body. rewrite Hssl, Hhttp, Hdead.
  destruct (fetch_from_source w s) as [[|p0 ps]|err]; [done| |done].
  destruct (ProxyValidator.validate_proxies_async w cfg (dead r') (p0 :: ps))
    as [[[ssl http] dead']|err]; [|done].
  by destruct (Nat.leb large_pool _).
Qed.

Lemma fetch_loop_harvest (sources : list string) (r r' : run) :
  Fetched.harvest r = Fetched.harvest r' →
  Fetched.harvest (fetch_loop w cfg sources r)
  = Fetched.harvest (fetch_loop w cfg sources r').
Proof.
  revert r r'. induction sources as [|s sources IH]; intros r r' Hr; [done|].
  cbn [fetch_loop]. destruct (loop_body_harvest s r r' Hr) as [Hh Hstop].
  destruct (loop_body w cfg s r) as [r1 stop].
  destruct (loop_body w cfg s r') as [r1' stop'].
  cbn [fst snd] in *. subst stop'. destruct stop; [done|]. by apply IH.
Qed.

(** A source whose fetch raises, or yields no endpoint, changes nothing of
    the harvest and does not stop the loop. *)
Lemma loop_body_skipped (s : string) (r : run) :
  (∃ err, fetch_from_source w s = Py.Raise err) ∨ fetch_from_source w s = Py.Ok [] →
  Fetched.harvest (fst (loop_body w cfg s r)) = Fetched.harvest r
  ∧ snd (loop_body w cfg s r) = false.
Proof. unfold loop_body. by intros [[err ->]| ->]. Qed.

Lemma fetch_loop_skipped (s : string) (pre post : list string) (r r' : run) :
  (∃ err, fetch_from_source w s = Py.Raise err) ∨ fetch_from_source w s = Py.Ok [] →
  Fetched.harvest r = Fetched.harvest r' →
  Fetched.harvest (fetch_loop w cfg (pre ++ s :: post) r)
  = Fetched.harvest (fetch_loop w cfg (pre ++ post) r').
Proof.
  intros Hs. revert r r'. induction pre as [|p pre IH]; intros r r' Hr.
  - cbn [app fetch_loop]. destruct (loop_body_skipped s r Hs) as [Hh Hstop].
    destruct (loop_body w cfg s r) as [r1 stop]. cbn [fst snd] in *. subst stop.
    apply fetch_loop_harvest. by rewrite Hh.
  - cbn [app fetch_loop]. destruct (loop_body_harvest p r r' Hr) as [Hh Hstop].
    destruct (loop_body w cfg p r) as [r1 stop].
    destruct (loop_body w cfg p r') as [r1' stop'].
    cbn [fst snd] in *. subst stop'. destruct stop; [done|]. by apply IH.
Qed.

End SkippedSource.

(** A source that cannot be fetched, or that lists no endpoint, is skipped
    without any effect on the rest of the run: the working endpoints
    collected and the validator's dead set are those of the run without
    that source. *)
Theorem failing_source_is_local (w : world) (cfg : ProxyConfig)
    (dead : gset string) (pre post : list string) (s : string) :
  (∃ err, fetch_from_source w s = Py.Raise err) ∨ fetch_from_source w s = Py.Ok [] →
  Fetched.harvest (ProxyFetcher.fetch_new_proxies_async w cfg (pre ++ s :: post) dead)
  = Fetched.harvest (ProxyFetcher.fetch_new_proxies_async w cfg (pre ++ post) dead).
Proof. intros Hs. by apply fetch_loop_skipped. Qed.

(** An unknown source among the three of the example. *)
Lemma failing_source_is_local_witness :
  Fetched.harvest
    (ProxyFetcher.fetch_new_proxies_async Scenario.generous_world default_config
       (["https://first.example/list"] ++ "https://nowhere.example/list"
          :: ["https://second.example/list"]) ∅)
  = Fetched.harvest
      (ProxyFetcher.fetch_new_proxies_async Scenario.generous_world default_config
         (["https://first.example/list"] ++ ["https://second.example/list"]) ∅).
Proof.
  apply failing_source_is_local. left. exists Py.OSError. reflexivity.
Defined.

(** ** Fetcher: where the harvest comes from *)

Section Provenance.

Import ProxyFetcher.

Variable w : world.
Variable cfg : ProxyConfig.
Variable sources : list string.

Lemma loop_body_provenance (s : string) (r : run) :
  s ∈ sources →
  Forall (Fetched.ssl_fact w sources) (all_ssl_proxies r) →
  Forall (Fetched.http_fact w cfg sources) (all_http_proxies r) →
  Forall (Fetched.ssl_fact w sources) (all_ssl_proxies (fst (loop_body w cfg s r)))
  ∧ Forall (Fetched.http_fact w cfg sources)
      (all_http_proxies (fst (loop_body w cfg s r))).
Proof.
  intros Hs Hssl Hhttp. unfold loop_body.
  destruct (fetch_from_source w s) as [[|p0 ps]|err] eqn:Hfetch; [done| |done].
  rewrite validate_proxies_async_spec. cbv zeta.
  assert (Forall (Fetched.ssl_fact w sources)
            (filter (fun p => fst (ProxyValidator._validate_ssl_proxy_async w p) = true)
               (filter (fun p => ProxyValidator._is_ssl_capable_port p = true) (p0 :: ps))))
    as Hnew_ssl.
  { apply Forall_forall. intros e. rewrite !list_elem_of_filter.
    intros (Hok & Hport & Hin). split; [by exists s, (p0 :: ps)|].
    split; [by apply _is_ssl_capable_port_true|done]. }
  assert (Forall (Fetched.http_fact w cfg sources)
            (filter (fun p => fst (ProxyValidator._validate_http_proxy_async w p) = true)
               (if ssl_only cfg then []
                else filter (fun p => ¬ (ProxyValidator._is_ssl_capable_port p = true))
                       (p0 :: ps))))
    as Hnew_http.
  { unfold Fetched.http_fact.
    destruct (ssl_only cfg) eqn:Hmode; [by rewrite filter_nil|].
    apply Forall_forall. intros e. rewrite !list_elem_of_filter.
    intros (Hok & Hport & Hin). split; [by exists s, (p0 :: ps)|].
    split; [|done]. intros Hpre. by apply Hport, _is_ssl_capable_port_true. }
  destruct (Nat.leb large_pool _); cbn [fst all_ssl_proxies all_http_proxies];
    split; by apply Forall_app.
Qed.

Lemma fetch_loop_provenance (todo : list string) (r : run) :
  todo ⊆ sources →
  Forall (Fetched.ssl_fact w sources) (all_ssl_proxies r) →
  Forall (Fetched.http_fact w cfg sources) (all_http_proxies r) →
  Forall (Fetched.ssl_fact w sources) (all_ssl_proxies (fetch_loop w cfg todo r))
  ∧ Forall (Fetched.http_fact w cfg sources)
      (all_http_proxies (fetch_loop w cfg todo r)).
Proof.
  revert r. induction todo as [|s todo IH]; intros r Hsub Hssl Hhttp; [done|].
  cbn [fetch_loop].
  destruct (loop_body_provenance s r) as [Hssl1 Hhttp1]; [apply Hsub; left|done|done|].
  destruct (loop_body w cfg s r) as [r1 [|]]; cbn [fst] in *; [done|].
  apply IH; [|done|done]. intros x Hx. apply Hsub. by right.
Qed.

End Provenance.

(** Every endpoint [fetch_new_proxies_async] returns was listed by one of
    the sources and passed its probe. An endpoint returned as SSL has an
    SSL-capable port and passed the SSL probe; one returned as HTTP has no
    such port, passed the HTTP probe, and the run was not in SSL-only mode
    (in that mode no HTTP endpoint is returned at all). *)
Theorem fetch_returns_listed_working_endpoints (w : world) (cfg : ProxyConfig)
    (sources : list string) (dead : gset string) :
  Forall (Fetched.ssl_fact w sources)
    (ProxyFetcher.all_ssl_proxies
       (ProxyFetcher.fetch_new_proxies_async w cfg sources dead))
  ∧ Forall (Fetched.http_fact w cfg sources)
      (ProxyFetcher.all_http_proxies
         (ProxyFetcher.fetch_new_proxies_async w cfg sources dead))
  ∧ (ssl_only cfg = true →
     ProxyFetcher.all_http_proxies
       (ProxyFetcher.fetch_new_proxies_async w cfg sources dead) = []).
Proof.
  destruct (fetch_loop_provenance w cfg sources sources
              {| ProxyFetcher.all_ssl_proxies := []; ProxyFetcher.all_http_proxies := [];
                 ProxyFetcher.tested_sources := 0; ProxyFetcher.consulted := [];
                 ProxyFetcher.printed := []; ProxyFetcher.dead := dead |})
    as [Hssl Hhttp]; [done|constructor|constructor|].
  split; [exact Hssl|]. split; [exact Hhttp|].
  intros Hmode. unfold ProxyFetcher.fetch_new_proxies_async.
  destruct (ProxyFetcher.all_http_proxies _) as [|e rest]; [done|].
  apply Forall_cons in Hhttp as [(_ & _ & _ & Hfalse) _]. congruence.
Qed.

(** ** Pool manager: an eviction reaches the cache file *)

(** When the manager marks dead an endpoint that a pool holds, and the
    cache file can be written, the file is written once and then holds
    exactly the two pools of the rotator, without the endpoint; the
    endpoint enters the manager's dead set and the legacy attributes mirror
    the rotator again. *)
Theorem eviction_is_persisted (w : world) (m : SmartProxyManager.t) (e : string) :
  ProxyRotator.reachable (SmartProxyManager.rotator m) →
  e ∈ ProxyRotator.ssl_proxies (SmartProxyManager.rotator m)
  ∨ e ∈ ProxyRotator.http_proxies (SmartProxyManager.rotator m) →
  ProxyStorage.write_error (SmartProxyManager.storage m) = None →
  let m' := SmartProxyManager.mark_proxy_dead w m e in
  ProxyStorage.load_saved_proxies (SmartProxyManager.storage m')
  = (ProxyRotator.ssl_proxies (SmartProxyManager.rotator m'),
     ProxyRotator.http_proxies (SmartProxyManager.rotator m'))
  ∧ (e ∉ ProxyRotator.ssl_proxies (SmartProxyManager.rotator m'))
  ∧ (e ∉ ProxyRotator.http_proxies (SmartProxyManager.rotator m'))
  ∧ ProxyStorage.writes (SmartProxyManager.storage m')
    = S (ProxyStorage.writes (SmartProxyManager.storage m))
  ∧ e ∈ SmartProxyManager.dead_proxies m'
  ∧ SmartProxyManager.ssl_proxies m'
    = ProxyRotator.ssl_proxies (SmartProxyManager.rotator m')
  ∧ SmartProxyManager.http_proxies m'
    = ProxyRotator.http_proxies (SmartProxyManager.rotator m')
  ∧ SmartProxyManager.working_proxies m'
    = ProxyRotator.ssl_proxies (SmartProxyManager.rotator m')
      ++ ProxyRotator.http_proxies (SmartProxyManager.rotator m').
Proof.
  intros Hreach Hin Hwrite m'. subst m'.
  pose proof (reachable_wf _ Hreach) as Hwf.
  unfold SmartProxyManager.mark_proxy_dead.
  destruct (ProxyRotator.mark_proxy_dead (SmartProxyManager.rotator m) e)
    as [removed r'] eqn:Hmark.
  assert (removed = true) as ->.
  { change removed with (fst (removed, r')). rewrite <- Hmark.
    by apply mark_proxy_dead_removed. }
  destruct (mark_proxy_dead_wf _ r' e true Hwf Hmark) as ((Hs & Hh & _) & Hes & Heh & _).
  unfold SmartProxyManager.save_working_proxies.
  cbn [SmartProxyManager.rotator SmartProxyManager.storage SmartProxyManager.dead_proxies
       SmartProxyManager.ssl_proxies SmartProxyManager.http_proxies
       SmartProxyManager.working_proxies].
  split_and!; try done.
  - rewrite (load_current _ (ProxyStorage.saved_data (strftime w)
                               (ProxyRotator.ssl_proxies r') (ProxyRotator.http_proxies r'))
               (ProxyStorage._deduplicate_list (ProxyRotator.ssl_proxies r'))
               (ProxyStorage._deduplicate_list (ProxyRotator.http_proxies r')));
      [|by apply save_content|done|done].
    by rewrite !_deduplicate_list_spec, !first_occurrences_idemp, !first_occurrences_id.
  - unfold ProxyStorage.save_working_proxies. by rewrite Hwrite.
  - apply elem_of_union_l. by apply elem_of_singleton.
Qed.

(** The manager that loaded two endpoints evicts its SSL endpoint. *)
Lemma eviction_is_persisted_witness :
  ProxyStorage.load_saved_proxies
    (SmartProxyManager.storage
       (SmartProxyManager.mark_proxy_dead Scenario.silent_world
          Scenario.loaded_manager "1.2.3.4:8080"))
  = ([], ["5.6.7.8:80"]).
Proof.
  refine (eq_trans
            (proj1 (eviction_is_persisted Scenario.silent_world Scenario.loaded_manager
                      "1.2.3.4:8080" _ _ _)) _).
  - apply (ProxyRotator.reachable_step
             (ProxyRotator.add_ssl_proxies ProxyRotator.init ["1.2.3.4:8080"])
             (ProxyRotator.AddHttp ["5.6.7.8:80"]) None); [|reflexivity].
    apply (ProxyRotator.reachable_step ProxyRotator.init
             (ProxyRotator.AddSsl ["1.2.3.4:8080"]) None);
      [apply ProxyRotator.reachable_init|reflexivity].
  - left. compute_done.
  - reflexivity.
  - by vm_compute.
Defined.

(** ** Storage: reading a saved file through its combined list *)

Section CombinedList.

Import ProxyStorage.


(** Deduplication commutes with any selection. *)
Lemma first_occurrences_filter (P : string → Prop) `{!∀ x, Decision (P x)}
    (l : list string) :
  Spec.first_occurrences (filter P l) = filter P (Spec.first_occurrences l).
Proof.
  induction l as [|y l IH]; [done|].
  cbn [Spec.first_occurrences]. destruct (decide (P y)) as [Hy|Hy].
  - rewrite !filter_cons_True by done. cbn [Spec.first_occurrences].
    rewrite IH. f_equal. rewrite !list_filter_filter. apply list_filter_iff. tauto.
  - rewrite !filter_cons_False by done. rewrite IH.
    rewrite list_filter_filter. apply list_filter_iff.
    intros x. split; [|tauto]. intros Hx. split; [done|]. by intros ->.
Qed.

End CombinedList.

(** A file written by [save_working_proxies] stays readable by its combined
    list alone: when the pool fields are missing and every endpoint of the
    saved SSL pool has an SSL-capable port while no endpoint of the saved
    HTTP pool has one, [load_saved_proxies] rebuilds the two pools as they
    were saved. *)
Theorem combined_list_rebuilds_the_pools (now : string) (ssl http : list string)
    (d : ProxyStorage.disk) :
  NoDup ssl → NoDup http →
  Forall Spec.presumed_ssl ssl →
  Forall (fun e => ¬ Spec.presumed_ssl e) http →
  ProxyStorage.content d
  = ProxyStorage.Json (Compat.legacy_view (ProxyStorage.saved_data now ssl http)) →
  ProxyStorage.load_saved_proxies d = (ssl, http).
Proof.
  intros Hs Hh Hssl Hhttp Hd.
  rewrite Forall_forall in Hssl. rewrite Forall_forall in Hhttp.
  unfold ProxyStorage.load_saved_proxies.
  rewrite (load_legacy d _ (ssl ++ http) Hd); [|by left|].
  2:{ cbn. by rewrite !_deduplicate_list_spec, !first_occurrences_id. }
  assert (NoDup (ssl ++ http)) as Hnodup.
  { apply NoDup_app. split; [done|]. split; [|done].
    intros x Hx Hx'. by apply (Hhttp x Hx'), Hssl. }
  rewrite (first_occurrences_id _ Hnodup), !filter_app.
  rewrite (filter_all_id _ ssl), (filter_none _ http), (filter_none _ ssl),
    (filter_all_id _ http), app_nil_r.
  - done.
  - intros x Hx. rewrite _is_ssl_capable_port_true. by apply Hhttp.
  - intros x Hx Hnot. apply Hnot. by apply _is_ssl_capable_port_true, Hssl.
  - intros x Hx. rewrite _is_ssl_capable_port_true. by apply Hhttp.
  - intros x Hx. by apply _is_ssl_capable_port_true, Hssl.
Qed.

(** One endpoint in each pool, saved and read back by the combined list. *)
Lemma combined_list_rebuilds_the_pools_witness :
  ProxyStorage.load_saved_proxies
    {| ProxyStorage.content :=
         ProxyStorage.Json
           (Compat.legacy_view
              (ProxyStorage.saved_data "2024-01-01 00:00:00"
                 ["1.2.3.4:443"] ["5.6.7.8:80"]));
       ProxyStorage.write_error := None;
       ProxyStorage.writes := 1 |}
  = (["1.2.3.4:443"], ["5.6.7.8:80"]).
Proof.
  apply (combined_list_rebuilds_the_pools "2024-01-01 00:00:00").
  - apply NoDup_singleton.
  - apply NoDup_singleton.
  - constructor; [|constructor].
    exists 443%Z. split; [by exists "443"|compute_done].
  - constructor; [|constructor].
    intros (port & (field & Hfield & Hport) & Hin).
    vm_compute in Hfield. injection Hfield as <-.
    vm_compute in Hport. injection Hport as <-.
    revert Hin. compute_done.
  - reflexivity.
Defined.

(** ** Pool manager: saving a combined list *)

(** [save_working_proxies(proxies)] with an explicit list, followed by
    [load_saved_proxies] of the storage, returns the list deduplicated and
    split by port: the entries with an SSL-capable port as the SSL pool,
    the others as the HTTP pool, each in its order of first occurrence. *)
Theorem saving_a_list_classifies_by_port (w : world) (m : SmartProxyManager.t)
    (proxies : list string) :
  ProxyStorage.write_error (SmartProxyManager.storage m) = None →
  ProxyStorage.load_saved_proxies
    (SmartProxyManager.storage
       (SmartProxyManager.save_working_proxies w m (Some proxies)))
  = (filter (fun p => ProxyStorage._is_ssl_capable_port p = true)
       (Spec.first_occurrences proxies),
     filter (fun p => ¬ (ProxyStorage._is_ssl_capable_port p = true))
       (Spec.first_occurrences proxies)).
Proof.
  intros Hwrite. unfold SmartProxyManager.save_working_proxies.
  cbn [SmartProxyManager.storage].
  rewrite (load_current _ _ _ _ (save_content _ _ _ _ Hwrite) eq_refl eq_refl).
  by rewrite !_deduplicate_list_spec, !first_occurrences_idemp,
    !first_occurrences_filter.
Qed.

(** A list with a duplicate, saved through the manager. *)
Lemma saving_a_list_classifies_by_port_witness :
  ProxyStorage.load_saved_proxies
    (SmartProxyManager.storage
       (SmartProxyManager.save_working_proxies Scenario.silent_world
          Scenario.fresh_manager
          (Some ["5.6.7.8:80"; "1.2.3.4:443"; "5.6.7.8:80"])))
  = (["1.2.3.4:443"], ["5.6.7.8:80"]).
Proof.
  refine (eq_trans
            (saving_a_list_classifies_by_port Scenario.silent_world
               Scenario.fresh_manager _ eq_refl) _).
  by vm_compute.
Defined.

(** ** Parsers: the accepted format *)

Section ValidFormat.

Lemma contains_elem (c : ascii) (s : string) :
  PyStr.contains c s = true ↔ c ∈ list_ascii_of_string s.
Proof.
  unfold PyStr.contains. induction (list_ascii_of_string s) as [|x l IH]; simpl.
  - split; [done|]. by intros ?%elem_of_nil.
  - rewrite orb_true_iff, IH, elem_of_cons.
    destruct (Ascii.eqb_spec c x); split; intros [?|?]; auto; done.
Qed.

Lemma split_once_found (sep : ascii) (a b : string) :
  sep ∉ list_ascii_of_string a →
  PyStr.split_once sep (a +:+ String sep b) = [a; b].
Proof.
  induction a as [|c a IH]; simpl.
  - intros _. by rewrite Ascii.eqb_refl.
  - intros Hnot. apply not_elem_of_cons in Hnot as [Hc Ha].
    destruct (Ascii.eqb_spec c sep) as [->|_]; [done|]. by rewrite (IH Ha).
Qed.

Lemma split_once_cases (sep : ascii) (s : string) :
  ((sep ∉ list_ascii_of_string s) ∧ PyStr.split_once sep s = [s])
  ∨ (∃ a b, s = a +:+ String sep b ∧ (sep ∉ list_ascii_of_string a)
            ∧ PyStr.split_once sep s = [a; b]).
Proof.
  induction s as [|c s IH]; simpl.
  - left. split; [apply not_elem_of_nil|done].
  - destruct (Ascii.eqb_spec c sep) as [->|Hne].
    + right. exists "", s. split; [done|]. split; [apply not_elem_of_nil|done].
    + destruct IH as [[Hnot ->]|(a & b & -> & Hnot & ->)].
      * left. split; [|done]. apply not_elem_of_cons. split; [congruence|done].
      * right. exists (String c a), b. split; [done|].
        split; [|done]. apply not_elem_of_cons. split; [congruence|done].
Qed.

Lemma split_found (sep : ascii) (a b : string) :
  sep ∉ list_ascii_of_string a →
  Py.split sep (a +:+ String sep b) = a :: Py.split sep b.
Proof.
  induction a as [|c a IH]; simpl.
  - intros _. by rewrite Ascii.eqb_refl.
  - intros Hnot. apply not_elem_of_cons in Hnot as [Hc Ha].
    destruct (Ascii.eqb_spec c sep) as [->|_]; [done|]. by rewrite (IH Ha).
Qed.

(** White space that [int()] drops at the ends. *)
Lemma int_lstrip_elem (c : ascii) (l : list ascii) :
  c ∈ l → Py.is_space c = true ∨ c ∈ Py.lstrip l.
Proof.
  induction l as [|x l IH]; simpl; [by intros ?%elem_of_nil|].
  intros Hin. destruct (Py.is_space x) eqn:Hx; [|by right].
  apply elem_of_cons in Hin as [->|Hin]; [by left|by apply IH].
Qed.

Lemma int_strip_elem (c : ascii) (l : list ascii) :
  c ∈ l → Py.is_space c = true ∨ c ∈ Py.strip l.
Proof.
  intros Hin. unfold Py.strip.
  destruct (int_lstrip_elem c l Hin) as [?|Hin1]; [by left|].
  destruct (int_lstrip_elem c (rev (Py.lstrip l))) as [?|Hin2]; [|by left|].
  - by apply list_elem_of_In, in_rev, list_elem_of_In; rewrite rev_involutive.
  - right. by apply list_elem_of_In, in_rev, list_elem_of_In; rewrite rev_involutive.
Qed.

(** What the digit reader accepts consists of digits and underscores. *)
Lemma digits_chars (l : list ascii) (acc : Z) (n : nat) (after : bool)
    (v : Z * nat) (c : ascii) :
  Py.digits l acc n after = Some v → c ∈ l →
  Py.digit_value c ≠ None ∨ c = "_"%char.
Proof.
  revert acc n after. induction l as [|x l IH]; intros acc n after; simpl;
    [by intros _ ?%elem_of_nil|].
  destruct (Py.digit_value x) as [d|] eqn:Hd.
  - intros Hv Hin. apply elem_of_cons in Hin as [->|Hin]; [left; congruence|eauto].
  - destruct (Ascii.eqb_spec x "_") as [->|Hx]; [|done].
    destruct after; [|done]. cbn [andb].
    intros Hv Hin. apply elem_of_cons in Hin as [->|Hin]; [by right|eauto].
Qed.

(** A string that [int()] reads holds no colon. *)
Lemma int_no_colon (s : string) (z : Z) :
  Py.int s = Py.Ok z → ":"%char ∉ list_ascii_of_string s.
Proof.
  unfold Py.int. intros Hint Hin.
  destruct (int_strip_elem _ _ Hin) as [Hspace|Hbody]; [done|].
  destruct (Py.strip (list_ascii_of_string s)) as [|c ds] eqn:Hstrip;
    [by apply elem_of_nil in Hbody|].
  assert (∀ negative (l : list ascii),
            ":"%char ∈ l →
            match Py.digits l 0 0 false with
            | Some (v, n) =>
                if Nat.ltb Py.int_max_str_digits n then Py.Raise Py.ValueError
                else Py.Ok (if negative : bool then (- v)%Z else v)
            | None => Py.Raise Py.ValueError
            end = Py.Ok z → False) as Hdigits.
  { intros negative l Hl. destruct (Py.digits l 0 0 false) as [v|] eqn:Hv; [|done].
    intros _. by destruct (digits_chars _ _ _ _ _ _ Hv Hl). }
  destruct (Ascii.eqb_spec c "-") as [->|Hminus].
  { apply (Hdigits true ds); [|done].
    by apply elem_of_cons in Hbody as [?|?]. }
  destruct (Ascii.eqb_spec c "+") as [->|Hplus].
  { apply (Hdigits false ds); [|done].
    by apply elem_of_cons in Hbody as [?|?]. }
  by apply (Hdigits false (c :: ds)).
Qed.

Lemma append_chars (a b : string) :
  list_ascii_of_string (a +:+ b) = list_ascii_of_string a ++ list_ascii_of_string b.
Proof. induction a as [|c a IH]; simpl; [done|]. by rewrite IH. Qed.

End ValidFormat.

(** The format test, in terms of host and port. *)
Lemma _is_valid_format_well_formed (proxy : string) :
  (ProxyParsers._is_valid_format proxy = true
   ↔ ∃ port, ProxyParsers.well_formed proxy port)
  ∧ (∀ port, ProxyParsers.well_formed proxy port →
       Spec.has_port proxy port
       ∧ ProxyStorage._is_ssl_capable_port proxy
         = bool_decide (port ∈ Spec.allow_list)).
Proof.
  split.
  - unfold ProxyParsers._is_valid_format, ProxyParsers._is_valid_format_try. split.
    + destruct (PyStr.contains ":" proxy) eqn:Hcolon; cbn [negb]; [|done].
      destruct (split_once_cases ":" proxy) as [[Hnot _]|(host & field & -> & Hhost & ->)].
      { apply contains_elem in Hcolon. done. }
      cbn [PyStr.unpack2 Py.bind].
      destruct (String.eqb_spec host "") as [->|Hne]; cbn [orb]; [done|].
      destruct (String.eqb_spec field "") as [->|Hnf]; [done|].
      destruct (Py.int field) as [port|err] eqn:Hint; cbn [Py.bind]; [|done].
      intros Hrange. apply andb_true_iff in Hrange as [H1 H2].
      apply Z.leb_le in H1, H2. exists port, host, field. by split_and!.
    + intros (port & host & field & -> & Hne & Hhost & Hint & Hrange).
      assert (PyStr.contains ":" (host +:+ ":" +:+ field) = true) as ->.
      { apply contains_elem. rewrite append_chars. apply elem_of_app. right. left. }
      cbn [negb]. change (":" +:+ field)%string with (String ":" field).
      rewrite split_once_found by done. cbn [PyStr.unpack2 Py.bind].
      destruct (String.eqb_spec host "") as [->|_]; [done|]. cbn [orb].
      destruct (String.eqb_spec field "") as [->|_]; [by vm_compute in Hint|].
      rewrite Hint. cbn [Py.bind]. apply andb_true_iff. split; apply Z.leb_le; lia.
  - intros port (host & field & -> & Hne & Hhost & Hint & Hrange).
    assert (Spec.has_port (host +:+ ":" +:+ field) port) as Hport.
    { exists field. split; [|done]. unfold Spec.port_field.
      change (":" +:+ field)%string with (String ":" field).
      rewrite split_found by done.
      by rewrite (split_no_separator _ _ (int_no_colon _ _ Hint)). }
    split; [done|].
    destruct Hport as (field' & Hfield & Hint').
    unfold ProxyStorage._is_ssl_capable_port, ProxyStorage._is_ssl_capable_port_try,
      Py.getitem.
    unfold Spec.port_field in Hfield. rewrite Hfield. cbn [Py.bind].
    by rewrite Hint'.
Qed.

(** [_is_valid_format] accepts exactly the endpoints made of a non-empty
    host without colon, a colon, and a port field that [int()] reads as a
    number from 1 to 65535. For such an endpoint the port test of the
    validator and of the storage reads that same port, so the endpoint is
    presumed SSL-capable exactly when this port is on the allow-list. *)
Theorem valid_format_characterised (proxy : string) :
  (ProxyParsers._is_valid_format proxy = true
   ↔ ∃ port, ProxyParsers.well_formed proxy port)
  ∧ (∀ port, ProxyParsers.well_formed proxy port →
       Spec.has_port proxy port
       ∧ ProxyStorage._is_ssl_capable_port proxy
         = bool_decide (port ∈ Spec.allow_list)).
Proof. apply _is_valid_format_well_formed. Qed.

(** The endpoint 1.2.3.4:8080 is well formed, with port 8080. *)
Lemma valid_format_characterised_witness :
  Spec.has_port "1.2.3.4:8080" 8080
  ∧ ProxyStorage._is_ssl_capable_port "1.2.3.4:8080"
    = bool_decide (8080%Z ∈ Spec.allow_list).
Proof.
  apply (proj2 (valid_format_characterised "1.2.3.4:8080") 8080%Z).
  exists "1.2.3.4", "8080". split_and!; try done; try compute_done.
Defined.

(** ** Parsers: what they return *)

Section ParsedEndpoints.

(** A run of characters with one that is not white space has a first
    word. *)
Lemma words_nonempty (l cur : list ascii) :
  cur ≠ [] ∨ (∃ c, c ∈ l ∧ PyStr.isspace c = false) → PyStr.words l cur ≠ [].
Proof.
  revert cur. induction l as [|x l IH]; intros cur; simpl.
  - intros [Hcur|(c & Hc & _)]; [by destruct cur|by apply elem_of_nil in Hc].
  - intros Hsome. destruct (PyStr.isspace x) eqn:Hx.
    + destruct cur as [|c0 cur]; [|done]. apply IH.
      destruct Hsome as [?|(c & Hc & Hns)]; [done|]. right.
      apply elem_of_cons in Hc as [->|Hc]; [congruence|eauto].
    + apply IH. left. by destruct cur.
Qed.

Lemma text_line_valid (proxies : list string) (line : string) :
  Forall (fun p => ProxyParsers._is_valid_format p = true) proxies →
  ∃ out, ProxyParsers.text_line proxies line = Py.Ok out
         ∧ Forall (fun p => ProxyParsers._is_valid_format p = true) out.
Proof.
  intros Hvalid. unfold ProxyParsers.text_line.
  destruct (negb (String.eqb (PyStr.strip line) "")); cbn [andb]; [|eauto].
  destruct (PyStr.contains ":" (PyStr.strip line)) eqn:Hcolon; cbn [andb]; [|eauto].
  destruct (negb (PyStr.startswith "#" (PyStr.strip line))); [|eauto].
  assert (∀ proxy, ∃ out,
            (if ProxyParsers._is_valid_format proxy
             then Py.Ok (proxies ++ [proxy]) else Py.Ok proxies) = Py.Ok out
            ∧ Forall (fun p => ProxyParsers._is_valid_format p = true) out) as Happend.
  { intros proxy. destruct (ProxyParsers._is_valid_format proxy) eqn:Hp; [|eauto].
    eexists. split; [done|]. apply Forall_app. split; [done|]. by constructor. }
  destruct (PyStr.contains " " (PyStr.strip line)); [|apply Happend].
  unfold Py.getitem, PyStr.split_whitespace.
  destruct (PyStr.words (list_ascii_of_string (PyStr.strip line)) []) as [|word rest] eqn:Hw.
  - exfalso. revert Hw. apply words_nonempty. right. exists ":"%char.
    split; [by apply contains_elem|done].
  - cbn [lookup list_lookup Py.bind]. apply Happend.
Qed.

Lemma text_lines_valid (lines proxies : list string) :
  Forall (fun p => ProxyParsers._is_valid_format p = true) proxies →
  ∃ out, ProxyParsers.text_lines lines proxies = Py.Ok out
         ∧ Forall (fun p => ProxyParsers._is_valid_format p = true) out.
Proof.
  revert proxies. induction lines as [|line lines IH]; intros proxies Hvalid.
  - by exists proxies.
  - cbn [ProxyParsers.text_lines].
    destruct (text_line_valid proxies line Hvalid) as (out & -> & Hout).
    cbn [Py.bind]. by apply IH.
Qed.

Lemma advanced_name_words_valid (ws proxies : list string) :
  Forall (fun p => ProxyParsers._is_valid_format p = true) proxies →
  Forall (fun p => ProxyParsers._is_valid_format p = true)
    (ProxyParsers.advanced_name_words ws proxies).
Proof.
  revert proxies. induction ws as [|word ws IH]; intros proxies Hvalid; [done|].
  cbn [ProxyParsers.advanced_name_words].
  destruct (ProxyParsers._is_valid_format (PyStr.strip word)) eqn:Hw; apply IH;
    [|done].
  apply Forall_app. split; [done|]. by constructor.
Qed.

End ParsedEndpoints.

(** The two plain-text parsers never raise, whatever the text, and every
    endpoint they return is in the accepted format: it has a non-empty
    host and a port from 1 to 65535 that the port test can read. *)
Theorem text_parsers_return_valid_endpoints (text : string) :
  (∃ proxies,
     ProxyParsers._parse_text_proxies text = Py.Ok proxies
     ∧ Forall (fun p => ∃ port, ProxyParsers.well_formed p port ∧ Spec.has_port p port)
         proxies)
  ∧ Forall (fun p => ∃ port, ProxyParsers.well_formed p port ∧ Spec.has_port p port)
      (ProxyParsers._parse_advanced_name_proxies text).
Proof.
  assert (∀ l, Forall (fun p => ProxyParsers._is_valid_format p = true) l →
               Forall (fun p => ∃ port, ProxyParsers.well_formed p port
                                        ∧ Spec.has_port p port) l) as Hwf.
  { intros l Hl. eapply Forall_impl; [exact Hl|]. intros p Hp.
    destruct (_is_valid_format_well_formed p) as [Hiff Hport].
    apply Hiff in Hp as [port Hp]. exists port. split; [done|]. by apply Hport. }
  split.
  - destruct (text_lines_valid (Py.split "010" (PyStr.strip text)) [])
      as (out & Hout & Hvalid); [constructor|].
    exists out. split; [exact Hout|]. by apply Hwf.
  - apply Hwf. by apply advanced_name_words_valid.
Qed.

(** ** Parsers: reading back a plain list *)

Section PlainList.

Lemma pystr_lstrip_clean (l : list ascii) :
  Forall (fun c => PyStr.isspace c = false) l → PyStr.lstrip l = l.
Proof. destruct 1 as [|c l Hc _]; simpl; [done|]. by rewrite Hc. Qed.

Lemma pystr_strip_clean (s : string) :
  Forall (fun c => PyStr.isspace c = false) (list_ascii_of_string s) →
  PyStr.strip s = s.
Proof.
  intros Hs. unfold PyStr.strip. rewrite (pystr_lstrip_clean _ Hs).
  rewrite pystr_lstrip_clean.
  - by rewrite rev_involutive, string_of_list_ascii_of_string.
  - apply Forall_forall. intros c Hc. rewrite Forall_forall in Hs. apply Hs.
    by apply list_elem_of_In, in_rev, list_elem_of_In.
Qed.

(** A text that begins and ends with a character that is no white space is
    left as it is by [strip]. *)
Lemma pystr_strip_ends (s : string) (first last : ascii) (rest init : list ascii) :
  list_ascii_of_string s = first :: rest →
  list_ascii_of_string s = init ++ [last] →
  PyStr.isspace first = false → PyStr.isspace last = false →
  PyStr.strip s = s.
Proof.
  intros Hhead Hlast Hfirst Hend. unfold PyStr.strip.
  assert (PyStr.lstrip (list_ascii_of_string s) = list_ascii_of_string s) as ->.
  { rewrite Hhead. cbn [PyStr.lstrip]. by rewrite Hfirst. }
  assert (PyStr.lstrip (rev (list_ascii_of_string s)) = rev (list_ascii_of_string s))
    as ->.
  { rewrite Hlast, rev_unit. cbn [PyStr.lstrip]. by rewrite Hend. }
  rewrite rev_involutive. apply string_of_list_ascii_of_string.
Qed.

Lemma valid_has_colon (proxy : string) :
  ProxyParsers._is_valid_format proxy = true → PyStr.contains ":" proxy = true.
Proof.
  unfold ProxyParsers._is_valid_format, ProxyParsers._is_valid_format_try.
  by destruct (PyStr.contains ":" proxy).
Qed.

Lemma clean_chars (proxy : string) :
  TextFormat.clean proxy →
  (∃ c rest, list_ascii_of_string proxy = c :: rest ∧ PyStr.isspace c = false)
  ∧ (∃ init c, list_ascii_of_string proxy = init ++ [c] ∧ PyStr.isspace c = false).
Proof.
  intros (Hvalid & Hspace & _). apply valid_has_colon, contains_elem in Hvalid.
  destruct (list_ascii_of_string proxy) as [|c rest] eqn:Hchars;
    [by apply elem_of_nil in Hvalid|].
  split.
  - exists c, rest. split; [done|]. by apply Forall_cons in Hspace as [? _].
  - destruct (exists_last (l := c :: rest)) as (init & last & Hlast); [done|].
    exists init, last. split; [done|]. rewrite Hlast in Hspace.
    apply Forall_app in Hspace as [_ Hl]. by apply Forall_cons in Hl as [? _].
Qed.

Lemma join_lines_cons (line next : string) (rest : list string) :
  TextFormat.join_lines (line :: next :: rest)
  = (line +:+ String "010" (TextFormat.join_lines (next :: rest)))%string.
Proof. reflexivity. Qed.

Lemma join_lines_ends (lines : list string) :
  lines ≠ [] → Forall TextFormat.clean lines →
  (∃ c rest, list_ascii_of_string (TextFormat.join_lines lines) = c :: rest
             ∧ PyStr.isspace c = false)
  ∧ (∃ init c, list_ascii_of_string (TextFormat.join_lines lines) = init ++ [c]
               ∧ PyStr.isspace c = false).
Proof.
  induction lines as [|line [|next rest] IH]; intros Hne Hclean; [done| |].
  - apply Forall_cons in Hclean as [Hline _]. by apply clean_chars.
  - apply Forall_cons in Hclean as [Hline Hrest].
    destruct (clean_chars line Hline) as [(c & tl & Hhead & Hc) _].
    destruct (IH ltac:(done) Hrest) as [_ (init & last & Hlast & Hl)].
    rewrite join_lines_cons, append_chars. cbn [list_ascii_of_string].
    rewrite Hhead, Hlast. split.
    + by exists c, (tl ++ "010"%char :: init ++ [last]).
    + exists ((c :: tl) ++ "010"%char :: init), last. split; [|done].
      by rewrite <- app_assoc.
Qed.

Lemma split_join_lines (lines : list string) :
  lines ≠ [] → Forall TextFormat.clean lines →
  Py.split "010" (TextFormat.join_lines lines) = lines.
Proof.
  assert (∀ line, TextFormat.clean line → "010"%char ∉ list_ascii_of_string line)
    as Hnl.
  { intros line (_ & Hspace & _) Hin. rewrite Forall_forall in Hspace.
    by specialize (Hspace _ Hin). }
  induction lines as [|line [|next rest] IH]; intros Hne Hclean; [done| |].
  - apply Forall_cons in Hclean as [Hline _]. cbn [TextFormat.join_lines].
    by apply split_no_separator, Hnl.
  - apply Forall_cons in Hclean as [Hline Hrest].
    rewrite join_lines_cons, split_found by (by apply Hnl).
    by rewrite IH.
Qed.

Lemma text_line_clean (proxies : list string) (line : string) :
  TextFormat.clean line →
  ProxyParsers.text_line proxies line = Py.Ok (proxies ++ [line]).
Proof.
  intros Hclean. pose proof Hclean as (Hvalid & Hspace & Hhash).
  unfold ProxyParsers.text_line. rewrite (pystr_strip_clean _ Hspace).
  rewrite (valid_has_colon _ Hvalid), Hhash.
  assert (String.eqb line "" = false) as ->.
  { apply String.eqb_neq. intros ->. by vm_compute in Hvalid. }
  assert (PyStr.contains " " line = false) as ->.
  { apply not_true_is_false. intros Hin. apply contains_elem in Hin.
    rewrite Forall_forall in Hspace. by specialize (Hspace _ Hin). }
  cbn [negb andb Py.bind]. by rewrite Hvalid.
Qed.

Lemma text_lines_clean (lines proxies : list string) :
  Forall TextFormat.clean lines →
  ProxyParsers.text_lines lines proxies = Py.Ok (proxies ++ lines).
Proof.
  revert proxies. induction lines as [|line lines IH]; intros proxies Hclean.
  - by rewrite app_nil_r.
  - apply Forall_cons in Hclean as [Hline Hrest].
    cbn [ProxyParsers.text_lines]. rewrite (text_line_clean _ _ Hline).
    cbn [Py.bind]. rewrite (IH _ Hrest). by rewrite <- app_assoc.
Qed.

End PlainList.

(** [_parse_text_proxies] reads back a plain list: for endpoints in the
    accepted format that hold no white space and do not begin with a hash
    sign, parsing the text that carries them one per line returns exactly
    these endpoints, in order. *)
Theorem plain_list_is_read_back (proxies : list string) :
  Forall TextFormat.clean proxies →
  ProxyParsers._parse_text_proxies (TextFormat.join_lines proxies) = Py.Ok proxies.
Proof.
  intros Hclean. unfold ProxyParsers._parse_text_proxies.
  destruct proxies as [|p rest]; [reflexivity|].
  destruct (join_lines_ends (p :: rest)) as [(c & tl & Hhead & Hc) (init & l & Hlast & Hl)];
    [done|done|].
  rewrite (pystr_strip_ends _ _ _ _ _ Hhead Hlast Hc Hl).
  rewrite split_join_lines by done.
  by rewrite text_lines_clean.
Qed.

(** Two endpoints, one per line. *)
Lemma plain_list_is_read_back_witness :
  ProxyParsers._parse_text_proxies
    (TextFormat.join_lines ["1.2.3.4:8080"; "5.6.7.8:80"])
  = Py.Ok ["1.2.3.4:8080"; "5.6.7.8:80"].
Proof.
  apply plain_list_is_read_back.
  repeat constructor; compute_done.
Defined.

(** ** Pool manager: silent validation *)

(** [_quick_validate_proxies_silent] returns the same endpoints as
    [quick_validate_proxies] and leaves the manager in the same state: the
    [verbose] switch is back at its value and nothing else differs. *)
Theorem silent_validation_is_quick_validation (w : world) (m : SmartProxyManager.t)
    (proxies : list string) :
  Lifecycle._quick_validate_proxies_silent w m proxies
  = SmartProxyManager.quick_validate_proxies w m proxies.
Proof.
  unfold Lifecycle._quick_validate_proxies_silent,
    SmartProxyManager.quick_validate_proxies.
  destruct proxies as [|p0 proxies']; [done|].
  change (ProxyValidator.validate_proxies_async w
            (SmartProxyManager.config (Lifecycle.set_verbose m false))
            (SmartProxyManager.validator (Lifecycle.set_verbose m false)))
    with (ProxyValidator.validate_proxies_async w (SmartProxyManager.config m)
            (SmartProxyManager.validator m)).
  destruct (ProxyValidator.validate_proxies_async w (SmartProxyManager.config m)
              (SmartProxyManager.validator m) (p0 :: proxies'))
    as [[[ssl http] dead]|err]; [|done].
  cbn [Py.bind]. do 2 f_equal.
  destruct m as [cfg ? ? ? ? ? ? ? ? ? ? ?]. by destruct cfg.
Qed.

(** ** Pool manager: maintenance *)

Section Maintenance.

Lemma fetch_new_proxies_keeps (w : world) (m : SmartProxyManager.t) (e : string) :
  (e ∈ ProxyRotator.ssl_proxies (SmartProxyManager.rotator m) →
   e ∈ ProxyRotator.ssl_proxies
         (SmartProxyManager.rotator (snd (SmartProxyManager.fetch_new_proxies w m))))
  ∧ (e ∈ ProxyRotator.http_proxies (SmartProxyManager.rotator m) →
     e ∈ ProxyRotator.http_proxies
           (SmartProxyManager.rotator (snd (SmartProxyManager.fetch_new_proxies w m)))).
Proof.
  unfold SmartProxyManager.fetch_new_proxies.
  cbn [snd SmartProxyManager.with_pools SmartProxyManager.rotator].
  apply add_keeps_pools.
Qed.

(** After a fetch the legacy attributes mirror the rotator. *)
Lemma fetch_new_proxies_mirrors (w : world) (m : SmartProxyManager.t) :
  let '(new_proxies, m') := SmartProxyManager.fetch_new_proxies w m in
  new_proxies = SmartProxyManager.working_proxies m'
  ∧ SmartProxyManager.working_proxies m'
    = ProxyRotator.ssl_proxies (SmartProxyManager.rotator m')
      ++ ProxyRotator.http_proxies (SmartProxyManager.rotator m').
Proof. done. Qed.

End Maintenance.

(** [maintain_proxy_pool] does nothing at all when the pool holds at least
    [min_count] endpoints. Otherwise it runs [fetch_new_proxies], and saves
    the pools when the fetch returned an endpoint; the manager it leaves is
    the one these two calls leave. In either case no endpoint leaves a
    pool, and the number it returns is the number of endpoints the manager
    lists as working afterwards. *)
Theorem maintenance_never_shrinks_the_pool (w : world) (m : SmartProxyManager.t)
    (target_count min_count : nat) :
  (min_count ≤ length (SmartProxyManager.working_proxies m) →
   Lifecycle.maintain_proxy_pool w m target_count min_count
   = (length (SmartProxyManager.working_proxies m), m))
  ∧ (length (SmartProxyManager.working_proxies m) < min_count →
     let fetched := SmartProxyManager.fetch_new_proxies w m in
     Lifecycle.maintain_proxy_pool w m target_count min_count
     = (length (fst fetched),
        match fst fetched with
        | [] => snd fetched
        | _ :: _ => SmartProxyManager.save_working_proxies w (snd fetched) None
        end))
  ∧ (∀ e, e ∈ ProxyRotator.ssl_proxies (SmartProxyManager.rotator m) →
          e ∈ ProxyRotator.ssl_proxies
                (SmartProxyManager.rotator
                   (snd (Lifecycle.maintain_proxy_pool w m target_count min_count))))
  ∧ (∀ e, e ∈ ProxyRotator.http_proxies (SmartProxyManager.rotator m) →
          e ∈ ProxyRotator.http_proxies
                (SmartProxyManager.rotator
                   (snd (Lifecycle.maintain_proxy_pool w m target_count min_count))))
  ∧ fst (Lifecycle.maintain_proxy_pool w m target_count min_count)
    = length (SmartProxyManager.working_proxies
                (snd (Lifecycle.maintain_proxy_pool w m target_count min_count))).
Proof.
  unfold Lifecycle.maintain_proxy_pool.
  destruct (Nat.ltb_spec (length (SmartProxyManager.working_proxies m)) min_count)
    as [Hlow|Hfull].
  - split; [lia|].
    pose proof (fun e => fetch_new_proxies_keeps w m e) as Hkeep.
    pose proof (fetch_new_proxies_mirrors w m) as Hmirror.
    destruct (SmartProxyManager.fetch_new_proxies w m) as [new_proxies m1].
    destruct Hmirror as [Hnew _]. cbn [snd fst] in *.
    destruct new_proxies as [|p ps]; cbn [SmartProxyManager.save_working_proxies
      SmartProxyManager.rotator SmartProxyManager.working_proxies];
      split_and!; try done; try (intros e; apply Hkeep);
      intros _; by rewrite <- Hnew.
  - split; [done|]. split; [lia|]. by split_and!.
Qed.

(** A manager with two endpoints and a floor of two, which is left alone;
    and a manager without endpoints and a floor of eight, which fetches
    from the three sources of the example and writes the cache file. *)
Lemma maintenance_never_shrinks_the_pool_witness :
  Lifecycle.maintain_proxy_pool Scenario.silent_world Scenario.loaded_manager 15 2
  = (2, Scenario.loaded_manager)
  ∧ fst (Lifecycle.maintain_proxy_pool Scenario.generous_world
           Scenario.starving_manager 15 8) = 27
  ∧ ProxyStorage.writes
      (SmartProxyManager.storage
         (snd (Lifecycle.maintain_proxy_pool Scenario.generous_world
                 Scenario.starving_manager 15 8))) = 1.
Proof.
  split.
  - apply (proj1 (maintenance_never_shrinks_the_pool Scenario.silent_world
                    Scenario.loaded_manager 15 2)).
    vm_compute. lia.
  - rewrite (proj1 (proj2 (maintenance_never_shrinks_the_pool Scenario.generous_world
                             Scenario.starving_manager 15 8)))
      by (vm_compute; lia).
    split; vm_compute; reflexivity.
Defined.

(** ** Source registry: switching sources *)

Section Switching.

Import SourceRegistry.

Lemma set_enabled_cons (name : string) (value : bool) (k : string)
    (c : ProxyFetcher.source_config)
    (cfgs : list (string * ProxyFetcher.source_config)) :
  set_enabled name value ((k, c) :: cfgs)
  = (if decide (k = name)
     then (k, {| ProxyFetcher.enabled := value;
                 ProxyFetcher.url := ProxyFetcher.url c;
                 ProxyFetcher.description := ProxyFetcher.description c |})
     else (k, c)) :: set_enabled name value cfgs.
Proof. reflexivity. Qed.

Lemma set_enabled_keys (name : string) (value : bool)
    (cfgs : list (string * ProxyFetcher.source_config)) :
  map fst (set_enabled name value cfgs) = map fst cfgs.
Proof.
  induction cfgs as [|[k c] cfgs IH]; [done|].
  rewrite set_enabled_cons. cbn [map fst] in *. rewrite IH. by destruct (decide (k = name)).
Qed.

Lemma set_enabled_twice (name : string) (value value' : bool)
    (cfgs : list (string * ProxyFetcher.source_config)) :
  set_enabled name value (set_enabled name value' cfgs) = set_enabled name value cfgs.
Proof.
  induction cfgs as [|[k c] cfgs IH]; [done|].
  rewrite !set_enabled_cons.
  destruct (decide (k = name)) as [->|Hne]; rewrite set_enabled_cons, IH.
  - by rewrite decide_True.
  - by rewrite decide_False.
Qed.

(** Writing into an entry the value it has changes nothing. *)
Lemma set_enabled_same (name : string) (value : bool)
    (cfgs : list (string * ProxyFetcher.source_config)) :
  (∀ c, (name, c) ∈ cfgs → ProxyFetcher.enabled c = value) →
  set_enabled name value cfgs = cfgs.
Proof.
  induction cfgs as [|[k c] cfgs IH]; intros Hvalue; [done|].
  rewrite set_enabled_cons, IH.
  - f_equal. destruct (decide (k = name)) as [->|Hne]; [|done].
    rewrite <- (Hvalue c) by left. by destruct c.
  - intros c' Hc'. apply Hvalue. by right.
Qed.

Lemma enabled_of_entry (f : t) (name : string) (c : ProxyFetcher.source_config) :
  NoDup (map fst (proxy_sources_config f)) →
  (name, c) ∈ proxy_sources_config f →
  ProxyFetcher.enabled c = enabled_of f name.
Proof.
  unfold enabled_of. induction (proxy_sources_config f) as [|[k c0] cfgs IH];
    intros Hnodup Hin; [by apply elem_of_nil in Hin|].
  cbn [map fst] in Hnodup. apply NoDup_cons in Hnodup as [Hk Hnodup].
  cbn [list_find]. destruct (decide (fst (k, c0) = name)) as [Heq|Hne]; cbn [fst] in *.
  - subst k. apply elem_of_cons in Hin as [[= <-]|Hin]; [done|].
    exfalso. apply Hk. apply list_elem_of_fmap. by exists (name, c).
  - apply elem_of_cons in Hin as [[= -> ->]|Hin]; [done|].
    rewrite (IH Hnodup Hin).
    by destruct (list_find (fun entry => fst entry = name) cfgs) as [[i [k' c']]|].
Qed.

Lemma enabled_of_switch (f : t) (name : string) (value : bool) :
  known f name = true → enabled_of (switch f name value) name = value.
Proof.
  unfold known, enabled_of, switch. cbn [proxy_sources_config].
  rewrite bool_decide_eq_true.
  induction (proxy_sources_config f) as [|[k c] cfgs IH];
    [by intros ?%elem_of_nil|].
  rewrite set_enabled_cons. cbn [map fst]. intros Hin.
  destruct (decide (k = name)) as [->|Hne].
  - cbn [list_find fst]. by rewrite decide_True.
  - cbn [list_find fst]. rewrite decide_False by done.
    apply elem_of_cons in Hin as [?|Hin]; [congruence|].
    specialize (IH Hin). unfold set_enabled in IH.
    by destruct (list_find _ _) as [[i [k' c']]|].
Qed.

Lemma known_switch (f : t) (name name' : string) (value : bool) :
  known (switch f name value) name' = known f name'.
Proof. unfold known, switch. cbn [proxy_sources_config]. by rewrite set_enabled_keys. Qed.

Lemma switch_back (f : t) (name : string) (value : bool) :
  consistent f →
  switch (switch f name value) name (enabled_of f name) = f.
Proof.
  intros [Hnodup Hsync]. unfold switch. cbn [proxy_sources_config].
  rewrite set_enabled_twice, set_enabled_same.
  - rewrite <- Hsync. by destruct f.
  - intros c Hc. by apply enabled_of_entry.
Qed.

(** The URL list without a source is the list built without its entry. *)
Lemma rebuild_disabled (name : string)
    (cfgs : list (string * ProxyFetcher.source_config)) :
  ProxyFetcher._rebuild_sources_list (set_enabled name false cfgs)
  = ProxyFetcher._rebuild_sources_list (filter (fun entry => fst entry ≠ name) cfgs).
Proof.
  induction cfgs as [|[k c] cfgs IH]; [done|].
  rewrite set_enabled_cons, filter_cons. cbn [fst snd].
  destruct (decide (k = name)) as [->|Hne].
  - rewrite decide_False by tauto. cbn [ProxyFetcher._rebuild_sources_list
      ProxyFetcher.enabled]. exact IH.
  - rewrite decide_True by done. cbn [ProxyFetcher._rebuild_sources_list].
    rewrite IH. done.
Qed.

Lemma rebuild_sublist (P : string * ProxyFetcher.source_config → Prop)
    `{!∀ x, Decision (P x)} (cfgs : list (string * ProxyFetcher.source_config)) :
  ProxyFetcher._rebuild_sources_list (filter P cfgs)
  `sublist_of` ProxyFetcher._rebuild_sources_list cfgs.
Proof.
  induction cfgs as [|[k c] cfgs IH]; [done|].
  rewrite filter_cons. destruct (decide (P (k, c))).
  - cbn [ProxyFetcher._rebuild_sources_list].
    destruct (ProxyFetcher.enabled c); [by apply sublist_skip|done].
  - cbn [ProxyFetcher._rebuild_sources_list].
    destruct (ProxyFetcher.enabled c); [by apply sublist_cons|done].
Qed.

End Switching.

(** [disable_source] of a known name takes exactly that entry out of the
    list the fetch loop runs over: the list becomes the one built from the
    registry without the entry, so the other enabled sources stay, in their
    order, and the name moves from the enabled to the disabled sources. The
    registry keeps its keys and stays consistent with the list.
    For an unknown name nothing changes. *)
Theorem disabling_takes_one_source_out (f : SourceRegistry.t) (name : string) :
  SourceRegistry.consistent f →
  (SourceRegistry.known f name = true →
   SourceRegistry.proxy_sources (SourceRegistry.disable_source f name)
   = ProxyFetcher._rebuild_sources_list
       (filter (fun entry => fst entry ≠ name) (SourceRegistry.proxy_sources_config f))
   ∧ SourceRegistry.proxy_sources (SourceRegistry.disable_source f name)
     `sublist_of` SourceRegistry.proxy_sources f
   ∧ name ∈ SourceRegistry.get_disabled_sources (SourceRegistry.disable_source f name)
   ∧ (name ∉ SourceRegistry.get_enabled_sources (SourceRegistry.disable_source f name)))
  ∧ (SourceRegistry.known f name = false → SourceRegistry.disable_source f name = f)
  ∧ SourceRegistry.consistent (SourceRegistry.disable_source f name)
  ∧ map fst (SourceRegistry.proxy_sources_config (SourceRegistry.disable_source f name))
    = map fst (SourceRegistry.proxy_sources_config f).
Proof.
  intros [Hnodup Hsync]. unfold SourceRegistry.disable_source.
  destruct (SourceRegistry.known f name) eqn:Hknown.
  - cbn [SourceRegistry.switch SourceRegistry.proxy_sources
         SourceRegistry.proxy_sources_config].
    split_and!; try done.
    + intros _. split_and!.
      * apply rebuild_disabled.
      * rewrite rebuild_disabled, Hsync. apply rebuild_sublist.
      * unfold SourceRegistry.get_disabled_sources.
        cbn [SourceRegistry.proxy_sources_config].
        unfold SourceRegistry.known in Hknown. apply bool_decide_eq_true in Hknown.
        apply list_elem_of_fmap in Hknown as ([k c] & -> & Hin).
        apply list_elem_of_fmap.
        exists (k, {| ProxyFetcher.enabled := false;
                      ProxyFetcher.url := ProxyFetcher.url c;
                      ProxyFetcher.description := ProxyFetcher.description c |}).
        split; [done|]. apply list_elem_of_filter. split; [done|].
        unfold SourceRegistry.set_enabled. apply list_elem_of_fmap.
        exists (k, c). cbn [fst snd]. by rewrite decide_True.
      * unfold SourceRegistry.get_enabled_sources.
        cbn [SourceRegistry.proxy_sources_config].
        intros ([k c] & -> & Hin)%list_elem_of_fmap.
        apply list_elem_of_filter in Hin as [Hon Hin]. cbn [fst snd] in *.
        unfold SourceRegistry.set_enabled in Hin.
        apply list_elem_of_fmap in Hin as ([k' c'] & Hentry & _). cbn [fst snd] in *.
        destruct (decide (k' = k)) as [->|Hne].
        -- injection Hentry as ->. done.
        -- injection Hentry as -> ->. done.
    + split; cbn [SourceRegistry.switch SourceRegistry.proxy_sources
                  SourceRegistry.proxy_sources_config]; [|done].
      by rewrite set_enabled_keys.
    + apply set_enabled_keys.
  - by split_and!.
Qed.

(** The registry as [__init__] builds it, without the SPYS.ONE source. *)
Lemma disabling_takes_one_source_out_witness :
  length (SourceRegistry.proxy_sources
            (SourceRegistry.disable_source SourceRegistry.init "spys_one")) = 8
  ∧ "https://spys.one/en/free-proxy-list/"
    ∉ SourceRegistry.proxy_sources
        (SourceRegistry.disable_source SourceRegistry.init "spys_one").
Proof.
  assert (SourceRegistry.consistent SourceRegistry.init) as Hinit.
  { split; [compute_done|reflexivity]. }
  destruct (proj1 (disabling_takes_one_source_out SourceRegistry.init "spys_one" Hinit)
              eq_refl) as (-> & _ & _ & _).
  split; [reflexivity|compute_done].
Defined.

(** Switching a source and back restores the fetcher exactly: toggling a
    source twice, or disabling and re-enabling a source that was enabled,
    leaves the registry and the source list as they were. *)
Theorem switching_back_restores_the_sources (f : SourceRegistry.t) (name : string) :
  SourceRegistry.consistent f →
  SourceRegistry.toggle_source (SourceRegistry.toggle_source f name) name = f
  ∧ (SourceRegistry.enabled_of f name = true →
     SourceRegistry.enable_source (SourceRegistry.disable_source f name) name = f)
  ∧ (SourceRegistry.known f name = true →
     SourceRegistry.enabled_of f name = false →
     SourceRegistry.disable_source (SourceRegistry.enable_source f name) name = f).
Proof.
  intros Hf. unfold SourceRegistry.toggle_source, SourceRegistry.enable_source,
    SourceRegistry.disable_source.
  destruct (SourceRegistry.known f name) eqn:Hknown.
  - rewrite !known_switch, Hknown, enabled_of_switch, negb_involutive by done.
    split_and!.
    + by apply switch_back.
    + intros Hon. rewrite <- Hon. by apply switch_back.
    + intros _ Hoff. rewrite <- Hoff. by apply switch_back.
  - rewrite Hknown. split_and!; [done| |done].
    intros Hon. exfalso. revert Hon Hknown.
    unfold SourceRegistry.enabled_of, SourceRegistry.known.
    destruct (list_find _ _) as [[i [k c]]|] eqn:Hfind; [|done].
    apply list_find_Some in Hfind as (Hi & Hk & _). cbn [fst] in Hk. subst k.
    intros _ Hnot. apply bool_decide_eq_false in Hnot. apply Hnot.
    apply list_elem_of_fmap. exists (name, c). split; [done|].
    by eapply list_elem_of_lookup_2.
Qed.

(** The registry as [__init__] builds it, with one source toggled twice. *)
Lemma switching_back_restores_the_sources_witness :
  SourceRegistry.toggle_source
    (SourceRegistry.toggle_source SourceRegistry.init "thespeedx") "thespeedx"
  = SourceRegistry.init.
Proof.
  refine (proj1 (switching_back_restores_the_sources SourceRegistry.init "thespeedx" _)).
  split; [compute_done|reflexivity].
Defined.

(** ** Pool manager: start-up *)

Section StartUp.

Import SmartProxyManager.

(** The endpoints of the two rotator pools, SSL pool first. *)
Local Abbreviation pools m :=
  (ProxyRotator.ssl_proxies (rotator m) ++ ProxyRotator.http_proxies (rotator m)).

Lemma save_working_proxies_keeps (w : world) (m : t) :
  working_proxies (save_working_proxies w m None) = working_proxies m
  ∧ rotator (save_working_proxies w m None) = rotator m
  ∧ storage (save_working_proxies w m None)
    = ProxyStorage.save_working_proxies (strftime w) (storage m)
        (ProxyRotator.ssl_proxies (rotator m)) (ProxyRotator.http_proxies (rotator m)).
Proof. done. Qed.

Lemma load_saved_proxies_mirrors (m : t) :
  let '(saved, m1) := load_saved_proxies m in
  saved = pools m1 ∧ working_proxies m1 = pools m1 ∧ config m1 = config m
  ∧ storage m1 = storage m.
Proof.
  unfold load_saved_proxies.
  by destruct (ProxyStorage.load_saved_proxies (storage m)) as [ssl http].
Qed.

Lemma added_pools_grow (r : ProxyRotator.t) (ssl http : list string) :
  let r' := ProxyRotator.add_http_proxies (ProxyRotator.add_ssl_proxies r ssl) http in
  length (ProxyRotator.ssl_proxies r ++ ProxyRotator.http_proxies r)
  ≤ length (ProxyRotator.ssl_proxies r' ++ ProxyRotator.http_proxies r')
  ∧ ∀ e, e ∈ ProxyRotator.ssl_proxies r ++ ProxyRotator.http_proxies r →
         e ∈ ProxyRotator.ssl_proxies r' ++ ProxyRotator.http_proxies r'.
Proof.
  cbn [ProxyRotator.add_ssl_proxies ProxyRotator.add_http_proxies
       ProxyRotator.ssl_proxies ProxyRotator.http_proxies]. split.
  - rewrite !length_app. apply Nat.add_le_mono; apply append_new_length.
  - intros e. rewrite !elem_of_app, !append_new_elem. tauto.
Qed.

(** [quick_validate_proxies] returns, and what it returns for a non-empty
    argument is the content of the two pools, which have lost nothing. *)
Lemma quick_validate_proxies_grows (w : world) (m : t) (proxies : list string) :
  ∃ working m',
    quick_validate_proxies w m proxies = Py.Ok (working, m')
    ∧ config m' = config m
    ∧ (proxies ≠ [] → working = pools m' ∧ working_proxies m' = pools m')
    ∧ length (pools m) ≤ length (pools m')
    ∧ ∀ e, e ∈ pools m → e ∈ pools m'.
Proof.
  unfold quick_validate_proxies. destruct proxies as [|p0 proxies'].
  { exists [], m. by split_and!. }
  pose proof (validate_proxies_async_spec w (config m) (validator m) (p0 :: proxies'))
    as Hspec.
  cbv zeta in Hspec. rewrite Hspec. cbn [Py.bind].
  eexists _, _. split; [reflexivity|].
  cbn [with_pools config working_proxies rotator].
  split_and!; try done; apply added_pools_grow.
Qed.

Lemma fetch_new_proxies_grows (w : world) (m : t) :
  let '(new_proxies, m') := fetch_new_proxies w m in
  new_proxies = pools m' ∧ working_proxies m' = pools m'
  ∧ config m' = config m ∧ storage m' = storage m
  ∧ length (pools m) ≤ length (pools m')
  ∧ ∀ e, e ∈ pools m → e ∈ pools m'.
Proof.
  unfold fetch_new_proxies.
  cbn [with_pools config storage working_proxies rotator].
  split_and!; try done; apply added_pools_grow.
Qed.

(** Choice 2: the report counts the pools, and a report means the pools
    were written to the cache file. *)
Lemma fetch_and_report_spec (w : world) (m : t) :
  let '(answer, m') := Lifecycle.fetch_and_report w m in
  match answer with
  | Some r =>
      r = {| Lifecycle.status := "ready";
             Lifecycle.working_proxies := length (pools m');
             Lifecycle.source := "new";
             Lifecycle.user_choice := Some "wait" |}
      ∧ 0 < length (pools m')
      ∧ storage m'
        = ProxyStorage.save_working_proxies (strftime w) (storage m)
            (ProxyRotator.ssl_proxies (rotator m'))
            (ProxyRotator.http_proxies (rotator m'))
  | None => pools m' = [] ∧ storage m' = storage m
  end.
Proof.
  unfold Lifecycle.fetch_and_report.
  pose proof (fetch_new_proxies_grows w m) as Hfetch.
  destruct (fetch_new_proxies w m) as [new_proxies m1].
  destruct Hfetch as (Hnew & Hworking & Hconfig & Hstorage & Hlen & _).
  destruct new_proxies as [|p new_proxies'].
  - by split_and!.
  - cbn [save_working_proxies config rotator storage]. rewrite <- Hnew, Hstorage.
    split_and!; try done. cbn [length]. lia.
Qed.

(** Start-up with a cache file that yields endpoints: the prompt is never
    reached. *)
Lemma initialize_smart_with_cache (w : world) (m : t) (interactive : bool)
    (keys : list Lifecycle.keyboard) (saved : list string) (m1 : t) :
  load_saved_proxies m = (saved, m1) →
  saved ≠ [] →
  ∃ r m',
    Lifecycle.initialize_smart w m interactive keys = (Lifecycle.Returns r, m', keys)
    ∧ Lifecycle.working_proxies r = length (pools m')
    ∧ Lifecycle.user_choice r = None
    ∧ length saved ≤ length (pools m')
    ∧ (∀ e, e ∈ saved → e ∈ pools m')
    ∧ ((Lifecycle.status r = "ready"
        ∧ min_working_proxies (config m) ≤ length (pools m'))
       ∨ (Lifecycle.status r = "insufficient_proxies"
          ∧ length (pools m') < min_working_proxies (config m)))
    ∧ (min_working_proxies (config m) ≤ length saved → Lifecycle.source r = "saved")
    ∧ ∃ d, storage m'
           = ProxyStorage.save_working_proxies (strftime w) d
               (ProxyRotator.ssl_proxies (rotator m'))
               (ProxyRotator.http_proxies (rotator m')).
Proof.
  intros Hload Hnonempty. unfold Lifecycle.initialize_smart.
  pose proof (load_saved_proxies_mirrors m) as Hmirror1. rewrite Hload in Hmirror1.
  rewrite Hload. destruct Hmirror1 as (Hsaved & Hworking1 & Hconfig1 & Hstorage1).
  destruct saved as [|p0 saved']; [done|].
  destruct (quick_validate_proxies_grows w m1 (p0 :: saved'))
    as (working_saved & m2 & -> & Hconfig2 & Hmirror & Hlen2 & Hin2).
  destruct (Hmirror ltac:(done)) as [-> Hworking2].
  rewrite <- Hsaved in Hlen2, Hin2.
  rewrite Hconfig2, Hconfig1.
  destruct (Nat.leb_spec (min_working_proxies (config m)) (length (pools m2)))
    as [Henough|Hfew].
  { eexists _, _. split; [reflexivity|].
    cbn [Lifecycle.working_proxies Lifecycle.status Lifecycle.source
         Lifecycle.user_choice save_working_proxies rotator storage].
    split_and!; try done; [by left|]. by eexists. }
  destruct (Nat.ltb_spec 0 (length (pools m2))) as [_|Hnone];
    [|cbn [length] in Hlen2; lia].
  pose proof (save_working_proxies_keeps w m2) as (Hworking3 & Hrotator3 & Hstorage3).
  set (m3 := save_working_proxies w m2 None) in *.
  rewrite Hworking3, Hworking2.
  destruct (Nat.ltb_spec (length (pools m2)) (min_working_proxies (config m)))
    as [_|?]; [|lia].
  pose proof (fetch_new_proxies_grows w m3) as Hfetch.
  destruct (fetch_new_proxies w m3) as [new_proxies m4].
  destruct Hfetch as (Hnew & Hworking4 & Hconfig4 & Hstorage4 & Hlen4 & Hin4).
  rewrite Hrotator3 in Hlen4, Hin4.
  destruct new_proxies as [|p new_proxies'].
  { rewrite <- Hnew in Hlen4. cbn [length] in Hlen2, Hlen4. lia. }
  pose proof (save_working_proxies_keeps w m4) as (Hworking5 & Hrotator5 & Hstorage5).
  set (m5 := save_working_proxies w m4 None) in *.
  rewrite Hworking5, Hworking4.
  destruct (Nat.leb_spec (min_working_proxies (config m)) (length (pools m4))).
  - eexists _, _. split; [reflexivity|].
    cbn [Lifecycle.working_proxies Lifecycle.status Lifecycle.source
         Lifecycle.user_choice]. rewrite Hrotator5.
    split_and!; try done; [lia|by auto|by left|lia|]. by eexists.
  - eexists _, _. split; [reflexivity|].
    cbn [Lifecycle.working_proxies Lifecycle.status Lifecycle.source
         Lifecycle.user_choice]. rewrite Hrotator5.
    split_and!; try done; [lia|by auto|by right|lia|]. by eexists.
Qed.

(** The first prompt passes over the lines that are none of 1, 2 and 3. *)
Lemma ask_skips (w : world) (m : t) (junk keys : list Lifecycle.keyboard) :
  Forall (fun key => ∃ s, key = Lifecycle.Line s
                          ∧ PyStr.strip s ≠ "1" ∧ PyStr.strip s ≠ "2"
                          ∧ PyStr.strip s ≠ "3") junk →
  Lifecycle.ask w m (junk ++ keys) = Lifecycle.ask w m keys.
Proof.
  induction 1 as [|key junk (s & -> & H1 & H2 & H3) _ IH]; [done|].
  cbn [app Lifecycle.ask].
  apply String.eqb_neq in H1, H2, H3. by rewrite H1, H2, H3.
Qed.

End StartUp.

(** Without a terminal [initialize_smart] reads no input and always returns
    a report. The report counts the endpoints of the two rotator pools. Its
    status is "ready" with at least one endpoint, "insufficient_proxies"
    with at least one endpoint but fewer than [min_working_proxies], or
    "error" with none: the choice [final_choice = '1'] made for this mode
    after a fetch without result is never looked at. Unless the status is
    "error", the last thing done was to save these pools to the cache
    file. *)
Theorem startup_without_terminal (w : world) (m : SmartProxyManager.t)
    (keys : list Lifecycle.keyboard) :
  ∃ r m',
    Lifecycle.initialize_smart w m false keys = (Lifecycle.Returns r, m', keys)
    ∧ Lifecycle.working_proxies r
      = length (ProxyRotator.ssl_proxies (SmartProxyManager.rotator m')
                ++ ProxyRotator.http_proxies (SmartProxyManager.rotator m'))
    ∧ ((Lifecycle.status r = "ready" ∧ 0 < Lifecycle.working_proxies r)
       ∨ (Lifecycle.status r = "insufficient_proxies"
          ∧ 0 < Lifecycle.working_proxies r
          ∧ Lifecycle.working_proxies r
            < min_working_proxies (SmartProxyManager.config m))
       ∨ (Lifecycle.status r = "error" ∧ Lifecycle.working_proxies r = 0
          ∧ Lifecycle.user_choice r = Some "error"))
    ∧ (Lifecycle.status r ≠ "error" →
       ∃ d, SmartProxyManager.storage m'
            = ProxyStorage.save_working_proxies (strftime w) d
                (ProxyRotator.ssl_proxies (SmartProxyManager.rotator m'))
                (ProxyRotator.http_proxies (SmartProxyManager.rotator m'))).
Proof.
  destruct (SmartProxyManager.load_saved_proxies m) as [saved m1] eqn:Hload.
  destruct saved as [|p0 saved'].
  - unfold Lifecycle.initialize_smart. rewrite Hload.
    unfold Lifecycle.no_working_proxies.
    pose proof (fetch_and_report_spec w m1) as Hfetch.
    destruct (Lifecycle.fetch_and_report w m1) as [[r|] m'].
    + destruct Hfetch as (-> & Hpos & Hstorage).
      eexists _, _. split; [reflexivity|]. cbn [Lifecycle.working_proxies
        Lifecycle.status]. split_and!; [done|by left|]. intros _. by eexists.
    + destruct Hfetch as (Hnone & _).
      eexists _, _. split; [reflexivity|]. cbn [Lifecycle.working_proxies
        Lifecycle.status Lifecycle.user_choice]. rewrite Hnone.
      split_and!; [done|by right; right|done].
  - destruct (initialize_smart_with_cache w m false keys _ _ Hload ltac:(done))
      as (r & m' & -> & Hcount & _ & Hlen & _ & Hstatus & _ & Hstorage).
    exists r, m'. cbn [length] in Hlen. rewrite Hcount.
    split_and!; [done|done| |].
    + destruct Hstatus as [[-> ?]|[-> ?]]; [left|right; left]; split_and!; try done; lia.
    + done.
Qed.

(** Once the cache file yields an endpoint, [initialize_smart] never asks:
    in either mode it reads no input and returns a report with no user
    choice. Every loaded endpoint is in the pools it ends with and is
    counted in the report, whatever the probes answered. When the file
    yields at least [min_working_proxies] endpoints, the report is "ready"
    from "saved". *)
Theorem cached_endpoints_start_without_prompt (w : world) (m : SmartProxyManager.t)
    (interactive : bool) (keys : list Lifecycle.keyboard)
    (saved : list string) (m1 : SmartProxyManager.t) :
  SmartProxyManager.load_saved_proxies m = (saved, m1) →
  saved ≠ [] →
  ∃ r m',
    Lifecycle.initialize_smart w m interactive keys = (Lifecycle.Returns r, m', keys)
    ∧ Lifecycle.user_choice r = None
    ∧ length saved ≤ Lifecycle.working_proxies r
    ∧ (∀ e, e ∈ saved →
            e ∈ ProxyRotator.ssl_proxies (SmartProxyManager.rotator m')
                ++ ProxyRotator.http_proxies (SmartProxyManager.rotator m'))
    ∧ (min_working_proxies (SmartProxyManager.config m) ≤ length saved →
       Lifecycle.status r = "ready" ∧ Lifecycle.source r = "saved").
Proof.
  intros Hload Hnonempty.
  destruct (initialize_smart_with_cache w m interactive keys _ _ Hload Hnonempty)
    as (r & m' & -> & Hcount & Hchoice & Hlen & Hin & Hstatus & Hsource & _).
  exists r, m'. rewrite Hcount. split_and!; try done.
  intros Hmin. split; [|by apply Hsource].
  destruct Hstatus as [[-> _]|[_ ?]]; [done|lia].
Qed.

(** A cache file with one endpoint, a minimum of one, a terminal, and a
    world in which no probe succeeds. *)
Lemma cached_endpoints_start_without_prompt_witness :
  ∃ r m',
    Lifecycle.initialize_smart Scenario.silent_world Scenario.modest_manager true []
    = (Lifecycle.Returns r, m', [])
    ∧ Lifecycle.status r = "ready" ∧ Lifecycle.source r = "saved"
    ∧ 1 ≤ Lifecycle.working_proxies r.
Proof.
  destruct (cached_endpoints_start_without_prompt Scenario.silent_world
              Scenario.modest_manager true [] ["1.2.3.4:8080"]
              (snd (SmartProxyManager.load_saved_proxies Scenario.modest_manager)))
    as (r & m' & Hrun & _ & Hcount & _ & Hready).
  - reflexivity.
  - discriminate.
  - exists r, m'. destruct Hready as [Hstatus Hsource]; [simpl; lia|].
    by split_and!.
Defined.

(** While the cache file yields nothing, a terminal is asked. Lines that are
    none of 1, 2 and 3 once stripped are passed over, whatever their
    number. The answers 1 and 3 and an interrupt end the start-up with
    nothing fetched and nothing written: the manager is as the load left
    it, and the lines after the answer are not read. When the input ends
    before an answer, [EOFError] leaves the function. *)
Theorem prompt_passes_over_other_answers (w : world) (m : SmartProxyManager.t)
    (junk keys : list Lifecycle.keyboard) :
  fst (SmartProxyManager.load_saved_proxies m) = [] →
  Forall (fun key => ∃ s, key = Lifecycle.Line s
                          ∧ PyStr.strip s ≠ "1" ∧ PyStr.strip s ≠ "2"
                          ∧ PyStr.strip s ≠ "3") junk →
  let m1 := snd (SmartProxyManager.load_saved_proxies m) in
  let left_with (status choice : string) :=
    (Lifecycle.Returns {| Lifecycle.status := status; Lifecycle.working_proxies := 0;
                          Lifecycle.source := "none";
                          Lifecycle.user_choice := Some choice |}, m1, keys) in
  Lifecycle.initialize_smart w m true (junk ++ keys)
  = Lifecycle.initialize_smart w m true keys
  ∧ Lifecycle.initialize_smart w m true junk = (Lifecycle.EOFError, m1, [])
  ∧ (∀ s, PyStr.strip s = "1" →
          Lifecycle.initialize_smart w m true (junk ++ Lifecycle.Line s :: keys)
          = left_with "no_proxies" "no_proxies")
  ∧ (∀ s, PyStr.strip s = "3" →
          Lifecycle.initialize_smart w m true (junk ++ Lifecycle.Line s :: keys)
          = left_with "exit" "exit")
  ∧ Lifecycle.initialize_smart w m true (junk ++ Lifecycle.Interrupt :: keys)
    = left_with "exit" "interrupt".
Proof.
  intros Hnone Hjunk. cbv zeta. unfold Lifecycle.initialize_smart.
  destruct (SmartProxyManager.load_saved_proxies m) as [saved m1].
  cbn [fst snd] in *. subst saved. unfold Lifecycle.no_working_proxies.
  rewrite !ask_skips by done. split_and!.
  - done.
  - by rewrite <- (app_nil_r junk), ask_skips.
  - intros s Hs. rewrite ask_skips by done. cbn [Lifecycle.ask]. by rewrite Hs.
  - intros s Hs. rewrite ask_skips by done. cbn [Lifecycle.ask]. by rewrite Hs.
  - done.
Qed.

(** No cache file; two lines that are no answer, then the answer 3 with
    blanks around it. *)
Lemma prompt_passes_over_other_answers_witness :
  Lifecycle.initialize_smart Scenario.silent_world Scenario.first_run_manager true
    [Lifecycle.Line "yes"; Lifecycle.Line ""; Lifecycle.Line " 3 "; Lifecycle.Line "1"]
  = (Lifecycle.Returns {| Lifecycle.status := "exit"; Lifecycle.working_proxies := 0;
                          Lifecycle.source := "none";
                          Lifecycle.user_choice := Some "exit" |},
     snd (SmartProxyManager.load_saved_proxies Scenario.first_run_manager),
     [Lifecycle.Line "1"]).
Proof.
  assert (Forall (fun key => ∃ s, key = Lifecycle.Line s
                                  ∧ PyStr.strip s ≠ "1" ∧ PyStr.strip s ≠ "2"
                                  ∧ PyStr.strip s ≠ "3")
            [Lifecycle.Line "yes"; Lifecycle.Line ""]) as Hjunk.
  { repeat constructor; eexists; (split; [reflexivity|]); by vm_compute. }
  exact (proj1 (proj2 (proj2 (proj2
    (prompt_passes_over_other_answers Scenario.silent_world Scenario.first_run_manager
       [Lifecycle.Line "yes"; Lifecycle.Line ""] [Lifecycle.Line "1"]
       eq_refl Hjunk)))) " 3 " eq_refl).
Defined.

(** ** Fetcher: the URL of a page *)

Section PageUrl.

Import Pagination.

Lemma after_prefix_app (p s : list ascii) : after_prefix p (p ++ s) = Some s.
Proof.
  induction p as [|x p IH]; [done|].
  cbn [app after_prefix]. by rewrite Ascii.eqb_refl.
Qed.

Lemma after_prefix_length (p s r : list ascii) :
  after_prefix p s = Some r → length s = length p + length r.
Proof.
  revert s. induction p as [|x p IH]; intros s; cbn [after_prefix].
  - by intros [= ->].
  - destruct s as [|c s]; [done|]. destruct (Ascii.eqb c x); [|done].
    intros Hr. cbn [length]. by rewrite (IH _ Hr).
Qed.

(** A prefix found in front of a character it does not hold lies before
    that character. *)
Lemma after_prefix_within (p s : list ascii) (c : ascii) (t r : list ascii) :
  after_prefix p (s ++ c :: t) = Some r → c ∉ p →
  ∃ r', after_prefix p s = Some r'.
Proof.
  revert s. induction p as [|x p IH]; intros s Hr Hc; [by eexists|].
  destruct s as [|y s]; cbn [app after_prefix] in *.
  - destruct (Ascii.eqb_spec c x) as [->|]; [|done]. exfalso. apply Hc. by left.
  - destruct (Ascii.eqb y x); [|done]. apply (IH s Hr). intros ?. apply Hc. by right.
Qed.

Lemma after_prefix_straddle (x : ascii) (p s : list ascii) (c : ascii)
    (t r : list ascii) :
  after_prefix (x :: p) (s ++ c :: t) = Some r → s ≠ [] → c ∉ p →
  ∃ r', after_prefix (x :: p) s = Some r'.
Proof.
  destruct s as [|y s]; [done|]. cbn [app after_prefix].
  destruct (Ascii.eqb y x); [|done]. intros Hr _ Hc.
  by apply (after_prefix_within p s c t r).
Qed.

Lemma occurs_cons_false (needle : list ascii) (c : ascii) (s : list ascii) :
  occurs needle (c :: s) = false →
  after_prefix needle (c :: s) = None ∧ occurs needle s = false.
Proof. cbn [occurs]. by destruct (after_prefix needle (c :: s)). Qed.

Lemma occurs_middle (needle a b : list ascii) :
  occurs needle (a ++ needle ++ b) = true.
Proof.
  induction a as [|c a IH].
  - cbn [app]. destruct (needle ++ b) eqn:Hshape; cbn [occurs];
      rewrite <- Hshape, after_prefix_app; done.
  - cbn [app occurs]. by destruct (after_prefix needle (c :: a ++ needle ++ b)).
Qed.

Lemma occurs_snoc (x : ascii) (p s : list ascii) (c : ascii) :
  occurs (x :: p) s = false → c ∉ x :: p → occurs (x :: p) (s ++ [c]) = false.
Proof.
  intros Hs Hc. induction s as [|y s IH].
  - cbn [app occurs after_prefix].
    destruct (Ascii.eqb_spec c x) as [->|]; [|done]. exfalso. apply Hc. by left.
  - apply occurs_cons_false in Hs as [Hhere Hs]. cbn [app occurs].
    destruct (after_prefix (x :: p) (y :: s ++ [c])) as [r|] eqn:Hr; [|by apply IH].
    destruct (after_prefix_within (x :: p) (y :: s) c [] r Hr Hc) as [r' Hr'].
    congruence.
Qed.

Lemma after_digits_app (ds post : list ascii) :
  Forall (fun c => isdigit c = true) ds →
  after_digits (ds ++ post) = after_digits post.
Proof.
  induction 1 as [|d ds Hd _ IH]; [done|]. cbn [app after_digits]. by rewrite Hd.
Qed.

Lemma after_digits_length (s : list ascii) : length (after_digits s) ≤ length s.
Proof.
  induction s as [|c s IH]; [done|]. cbn [after_digits].
  destruct (isdigit c); cbn [length]; lia.
Qed.

Lemma page_match_shorter (s rest : list ascii) :
  page_match s = Some rest → length rest < length s.
Proof.
  unfold page_match.
  destruct (after_prefix (list_ascii_of_string "page=") s) as [[|d r]|] eqn:Hr; [done| |done].
  destruct (isdigit d); [|done]. intros [= <-].
  apply after_prefix_length in Hr. rewrite Hr. cbn [length].
  pose proof (after_digits_length r). lia.
Qed.

(** The scan reaches the end of the string: more fuel than the length of
    the string changes nothing. *)
Lemma sub_steps_enough (repl : list ascii) (fuel fuel' : nat) (s : list ascii) :
  length s ≤ fuel → length s ≤ fuel' →
  sub_steps fuel repl s = sub_steps fuel' repl s.
Proof.
  revert fuel' s. induction fuel as [|fuel IH]; intros fuel' s Hfuel Hfuel'.
  - destruct s; [by destruct fuel'|cbn [length] in Hfuel; lia].
  - destruct s as [|c s]; [by destruct fuel'|].
    destruct fuel' as [|fuel']; [cbn [length] in Hfuel'; lia|].
    cbn [sub_steps]. cbn [length] in Hfuel, Hfuel'.
    destruct (page_match (c :: s)) as [rest|] eqn:Hmatch.
    + apply page_match_shorter in Hmatch. cbn [length] in Hmatch.
      f_equal. apply IH; lia.
    + f_equal. apply IH; lia.
Qed.

(** Where [page=] does not occur the scan copies. *)
Lemma sub_steps_none (repl : list ascii) (fuel : nat) (s : list ascii) :
  occurs (list_ascii_of_string "page=") s = false → sub_steps fuel repl s = s.
Proof.
  revert fuel. induction s as [|c s IH]; intros fuel Hs; [by destruct fuel|].
  destruct fuel as [|fuel]; [done|].
  apply occurs_cons_false in Hs as [Hhere Hs].
  cbn [sub_steps]. unfold page_match. rewrite Hhere. by rewrite IH.
Qed.

(** The scan copies what stands before the first [page=]. *)
Lemma sub_steps_before (repl pre : list ascii) (fuel : nat) (t : list ascii) :
  occurs (list_ascii_of_string "page=") pre = false →
  sub_steps (length pre + fuel) repl (pre ++ "p"%char :: t)
  = pre ++ sub_steps fuel repl ("p"%char :: t).
Proof.
  induction pre as [|c pre IH]; intros Hpre; [done|].
  apply occurs_cons_false in Hpre as [Hhere Hpre].
  cbn [length app Nat.add sub_steps]. unfold page_match at 1.
  destruct (after_prefix (list_ascii_of_string "page=") (c :: pre ++ "p"%char :: t))
    as [r|] eqn:Hr.
  { destruct (after_prefix_straddle "p" (list_ascii_of_string "age=") (c :: pre)
                "p" t r Hr ltac:(done) ltac:(compute_done)) as [r' Hr'].
    change ("p"%char :: list_ascii_of_string "age=")
      with (list_ascii_of_string "page=") in Hr'. congruence. }
  by rewrite IH.
Qed.

(** The page number of a URL that carries one. *)
Lemma sub_steps_number (repl pre ds post : list ascii) :
  occurs (list_ascii_of_string "page=") pre = false →
  occurs (list_ascii_of_string "page=") post = false →
  ds ≠ [] →
  Forall (fun c => isdigit c = true) ds →
  after_digits post = post →
  let s := pre ++ list_ascii_of_string "page=" ++ ds ++ post in
  sub_steps (length s) repl s = pre ++ repl ++ post.
Proof.
  intros Hpre Hpost Hds Hdigits Hstop s. subst s.
  destruct ds as [|d ds]; [done|]. apply Forall_cons in Hdigits as [Hd Hdigits].
  rewrite length_app.
  change (list_ascii_of_string "page=" ++ (d :: ds) ++ post)
    with ("p"%char :: list_ascii_of_string "age=" ++ (d :: ds) ++ post).
  rewrite sub_steps_before by done. f_equal.
  cbn [length sub_steps]. unfold page_match.
  change ("p"%char :: list_ascii_of_string "age=" ++ (d :: ds) ++ post)
    with (list_ascii_of_string "page=" ++ (d :: ds) ++ post).
  rewrite after_prefix_app. cbn [app]. rewrite Hd, after_digits_app, Hstop by done.
  by rewrite sub_steps_none.
Qed.

(** What [str] prints is a number: digits, and at least one. *)
Lemma str_digits (n : nat) :
  list_ascii_of_string (str n) ≠ []
  ∧ Forall (fun c => isdigit c = true) (list_ascii_of_string (str n)).
Proof.
  unfold str. generalize (Nat.to_uint n). intros d.
  assert (Forall (fun c => isdigit c = true)
            (list_ascii_of_string (NilEmpty.string_of_uint d))) as Hdigits.
  { induction d; cbn [NilEmpty.string_of_uint list_ascii_of_string];
      constructor; done. }
  destruct d; cbn [NilZero.string_of_uint]; [split; [done|by repeat constructor]|..];
    (split; [done|exact Hdigits]).
Qed.

Lemma string_of_chars (s : string) (l : list ascii) :
  l = list_ascii_of_string s → string_of_list_ascii l = s.
Proof. intros ->. apply string_of_list_ascii_of_string. Qed.

(** The page number of a URL that carries one, on strings. *)
Lemma _construct_page_url_number (pre ds post : string) (page : nat) :
  contains "page=" pre = false →
  contains "page=" post = false →
  ds ≠ "" →
  Forall (fun c => isdigit c = true) (list_ascii_of_string ds) →
  (∀ c rest, post = String c rest → isdigit c = false) →
  _construct_page_url (pre +:+ "page=" +:+ ds +:+ post) page
  = pre +:+ "page=" +:+ str page +:+ post.
Proof.
  intros Hpre Hpost Hds Hdigits Hstop. unfold _construct_page_url.
  unfold contains at 1. rewrite !append_chars, occurs_middle.
  unfold re_sub_page. apply string_of_chars. rewrite !append_chars.
  etrans; [apply (sub_steps_number _ (list_ascii_of_string pre)
                    (list_ascii_of_string ds) (list_ascii_of_string post))|];
    try done.
  - by destruct ds.
  - destruct post as [|c rest]; [done|]. cbn [list_ascii_of_string after_digits].
    by rewrite (Hstop c rest).
Qed.

(** The URL built for a page from a URL without [page=]. *)
Lemma _construct_page_url_appended (base_url : string) (page : nat) :
  contains "page=" base_url = false →
  _construct_page_url base_url page
  = (base_url +:+ (if contains "?" base_url then "&" else "?"))
    +:+ "page=" +:+ str page +:+ "".
Proof.
  intros Hbase. unfold _construct_page_url. rewrite Hbase.
  rewrite <- (string_of_list_ascii_of_string (_ +:+ _ +:+ _ +:+ "")).
  apply eq_sym, string_of_chars.
  destruct (contains "?" base_url); rewrite !append_chars;
    cbn [list_ascii_of_string]; by rewrite ?app_nil_r, <- ?app_assoc.
Qed.

End PageUrl.

(** [_construct_page_url] on a URL that carries a page number: when [page=]
    stands once in the URL and digits follow it, the URL for a page is the
    same URL with these digits replaced by the number of the page. *)
Theorem page_url_replaces_the_page_number (pre ds post : string) (page : nat) :
  Pagination.contains "page=" pre = false →
  Pagination.contains "page=" post = false →
  ds ≠ "" →
  Forall (fun c => Pagination.isdigit c = true) (list_ascii_of_string ds) →
  (∀ c rest, post = String c rest → Pagination.isdigit c = false) →
  Pagination._construct_page_url (pre +:+ "page=" +:+ ds +:+ post) page
  = pre +:+ "page=" +:+ Pagination.str page +:+ post.
Proof. apply _construct_page_url_number. Qed.

(** The HTTPS source of the registry, asked for its page 7. *)
Lemma page_url_replaces_the_page_number_witness :
  Pagination._construct_page_url
    "https://www.freeproxy.world/?type=https&anonymity=&country=&speed=1800&port=&page=1" 7
  = "https://www.freeproxy.world/?type=https&anonymity=&country=&speed=1800&port=&page=7".
Proof.
  apply (page_url_replaces_the_page_number
           "https://www.freeproxy.world/?type=https&anonymity=&country=&speed=1800&port=&"
           "1" "" 7).
  - reflexivity.
  - reflexivity.
  - discriminate.
  - repeat constructor.
  - discriminate.
Defined.

(** [_construct_page_url] on a URL without [page=]: the page is appended as
    a query parameter, after [&] when the URL has a question mark and after
    [?] otherwise. Asking the URL so built for another page gives the URL
    the base gives for that page. *)
Theorem page_url_appends_the_page_number (base_url : string) (p q : nat) :
  Pagination.contains "page=" base_url = false →
  Pagination._construct_page_url base_url p
  = base_url +:+ (if Pagination.contains "?" base_url then "&" else "?")
    +:+ "page=" +:+ Pagination.str p
  ∧ Pagination._construct_page_url (Pagination._construct_page_url base_url p) q
    = Pagination._construct_page_url base_url q.
Proof.
  intros Hbase. split.
  - rewrite _construct_page_url_appended by done.
    rewrite <- (string_of_list_ascii_of_string (_ +:+ _ +:+ _ +:+ "")).
    apply string_of_chars. rewrite !append_chars.
    cbn [list_ascii_of_string]. by rewrite ?app_nil_r, <- ?app_assoc.
  - rewrite (_construct_page_url_appended base_url p),
      (_construct_page_url_appended base_url q) by done.
    destruct (str_digits p) as [Hsome Hdigits].
    apply _construct_page_url_number; try done.
    + unfold Pagination.contains in *. rewrite append_chars.
      change (list_ascii_of_string "page=")
        with ("p"%char :: list_ascii_of_string "age=") in *.
      destruct (Pagination.occurs (list_ascii_of_string "?") _);
        apply occurs_snoc; try done; compute_done.
    + intros Hempty. by rewrite Hempty in Hsome.
Qed.

(** A source without query, asked for page 2 and then for page 3. *)
Lemma page_url_appends_the_page_number_witness :
  Pagination._construct_page_url "https://free-proxy-list.net/en/" 2
  = "https://free-proxy-list.net/en/?page=2"
  ∧ Pagination._construct_page_url "https://free-proxy-list.net/en/?page=2" 3
    = "https://free-proxy-list.net/en/?page=3".
Proof.
  destruct (page_url_appends_the_page_number "https://free-proxy-list.net/en/" 2 3
              eq_refl) as [Hbuilt Hagain].
  split; [exact Hbuilt|]. rewrite Hbuilt in Hagain. exact Hagain.
Defined.

(** ** Fetcher: the pages of a source *)

Section Pages.

Import Pagination.

Variable _fetch_single_page_async : string → Py.result (list string).
Variable base_url : string.


End Pages.


(** ** Pool manager: the legacy attributes *)

Section ManagerInvariant.

Import SmartProxyManager.

(** What every method of the manager keeps: the legacy attributes mirror
    the rotator, whose pools and cursors are well formed. *)
Local Abbreviation kept m := (Manager.mirrors m ∧ Spec.rotator_wf (rotator m)).

Lemma added_wf (r : ProxyRotator.t) (ssl http : list string) :
  Spec.rotator_wf r →
  Spec.rotator_wf (ProxyRotator.add_http_proxies (ProxyRotator.add_ssl_proxies r ssl) http).
Proof.
  intros Hwf.
  destruct (step_wf r (ProxyRotator.AddSsl ssl) Hwf) as (out & r1 & Hstep & Hwf1).
  injection Hstep as _ <-.
  destruct (step_wf _ (ProxyRotator.AddHttp http) Hwf1) as (out' & r2 & Hstep & Hwf2).
  by injection Hstep as _ <-.
Qed.

Lemma kept_with_pools (m : t) (dead : gset string) (ssl http : list string) :
  Spec.rotator_wf (rotator m) →
  kept (with_pools m dead
          (ProxyRotator.add_http_proxies
             (ProxyRotator.add_ssl_proxies (rotator m) ssl) http)).
Proof. intros Hwf. split; [done|]. by apply added_wf. Qed.

Lemma kept_load (m : t) : kept m → kept (snd (load_saved_proxies m)).
Proof.
  intros [_ Hwf]. unfold load_saved_proxies.
  destruct (ProxyStorage.load_saved_proxies (storage m)) as [ssl http].
  by apply kept_with_pools.
Qed.

Lemma kept_save (w : world) (m : t) (proxies : option (list string)) :
  kept m → kept (save_working_proxies w m proxies).
Proof. intros Hm. by destruct proxies. Qed.

Lemma kept_quick_validate (w : world) (m m' : t) (proxies working : list string) :
  kept m → quick_validate_proxies w m proxies = Py.Ok (working, m') → kept m'.
Proof.
  intros Hm. unfold quick_validate_proxies.
  destruct proxies as [|p0 proxies']; [by intros [= _ <-]|].
  destruct (ProxyValidator.validate_proxies_async w (config m) (validator m)
              (p0 :: proxies')) as [[[ssl http] dead]|err]; [|done].
  cbn [Py.bind]. intros [= _ <-]. apply kept_with_pools, Hm.
Qed.

Lemma kept_quick_validate_silent (w : world) (m m' : t)
    (proxies working : list string) :
  kept m →
  Lifecycle._quick_validate_proxies_silent w m proxies = Py.Ok (working, m') →
  kept m'.
Proof.
  intros Hm. unfold Lifecycle._quick_validate_proxies_silent.
  destruct proxies as [|p0 proxies']; [by intros [= _ <-]|].
  destruct (ProxyValidator.validate_proxies_async w _ _ (p0 :: proxies'))
    as [[[ssl http] dead]|err]; [|done].
  cbn [Py.bind]. intros [= _ <-].
  apply (kept_with_pools m dead ssl http), Hm.
Qed.

Lemma kept_fetch (w : world) (m : t) : kept m → kept (snd (fetch_new_proxies w m)).
Proof. intros Hm. unfold fetch_new_proxies. apply kept_with_pools, Hm. Qed.

Lemma mark_nothing_removed (r r' : ProxyRotator.t) (proxy : string) :
  ProxyRotator.mark_proxy_dead r proxy = (false, r') → r' = r.
Proof.
  destruct (decide (proxy ∈ ProxyRotator.ssl_proxies r)) as [Hssl|Hssl];
    destruct (decide (proxy ∈ ProxyRotator.http_proxies r)) as [Hhttp|Hhttp];
    unfold ProxyRotator.mark_proxy_dead;
    rewrite ?(decide_True (P := proxy ∈ ProxyRotator.ssl_proxies r)),
      ?(decide_False (P := proxy ∈ ProxyRotator.ssl_proxies r)),
      ?(decide_True (P := proxy ∈ ProxyRotator.http_proxies r)),
      ?(decide_False (P := proxy ∈ ProxyRotator.http_proxies r)) by done;
    cbn; try discriminate.
  intros [= <-]. by destruct r.
Qed.

Lemma kept_mark_proxy_dead (w : world) (m : t) (proxy : string) :
  kept m → kept (mark_proxy_dead w m proxy).
Proof.
  intros [Hmirror Hwf]. unfold mark_proxy_dead.
  destruct (ProxyRotator.mark_proxy_dead (rotator m) proxy) as [removed r] eqn:Hmark.
  destruct (mark_proxy_dead_wf _ _ _ _ Hwf Hmark) as (Hwf' & _).
  destruct removed; [done|].
  apply mark_nothing_removed in Hmark as ->. done.
Qed.

Lemma kept_dispensed (m : t) (r : ProxyRotator.t) :
  kept m →
  Spec.rotator_wf r →
  ProxyRotator.ssl_proxies r = ProxyRotator.ssl_proxies (rotator m) →
  ProxyRotator.http_proxies r = ProxyRotator.http_proxies (rotator m) →
  kept (Manager.with_rotator m r).
Proof.
  intros [(Hssl & Hhttp & Hworking) _] Hwf Hs Hh. split; [|done].
  unfold Manager.mirrors. cbn [Manager.with_rotator ssl_proxies http_proxies
    working_proxies rotator]. by rewrite Hs, Hh.
Qed.

Lemma kept_maintain (w : world) (m : t) (target_count min_count : nat) :
  kept m → kept (snd (Lifecycle.maintain_proxy_pool w m target_count min_count)).
Proof.
  intros Hm. unfold Lifecycle.maintain_proxy_pool. cbn [snd].
  destruct (Nat.ltb _ _); [|done].
  pose proof (kept_fetch w m Hm) as Hfetch.
  destruct (fetch_new_proxies w m) as [[|p new_proxies] m1]; [done|].
  by apply kept_save.
Qed.

Lemma kept_fetch_and_report (w : world) (m : t) :
  kept m → kept (snd (Lifecycle.fetch_and_report w m)).
Proof.
  intros Hm. unfold Lifecycle.fetch_and_report.
  pose proof (kept_fetch w m Hm) as Hfetch.
  destruct (fetch_new_proxies w m) as [[|p new_proxies] m1]; [done|].
  by apply kept_save.
Qed.

Lemma kept_ask (w : world) (m : t) (keys : list Lifecycle.keyboard) :
  kept m → kept (snd (fst (Lifecycle.ask w m keys))).
Proof.
  intros Hm. induction keys as [|[s|] keys IH]; cbn [Lifecycle.ask]; [done| |done].
  destruct (String.eqb _ "1"); [done|].
  destruct (String.eqb _ "2").
  { pose proof (kept_fetch_and_report w m Hm) as Hfetch.
    destruct (Lifecycle.fetch_and_report w m) as [[r|] m1]; [done|].
    by destruct (Lifecycle.ask_after_fetch keys). }
  by destruct (String.eqb _ "3").
Qed.

Lemma kept_no_working_proxies (w : world) (m : t) (interactive : bool)
    (keys : list Lifecycle.keyboard) :
  kept m → kept (snd (fst (Lifecycle.no_working_proxies w m interactive keys))).
Proof.
  intros Hm. unfold Lifecycle.no_working_proxies.
  destruct interactive; [by apply kept_ask|].
  pose proof (kept_fetch_and_report w m Hm) as Hfetch.
  by destruct (Lifecycle.fetch_and_report w m) as [[r|] m1].
Qed.

Lemma kept_initialize_smart (w : world) (m : t) (interactive : bool)
    (keys : list Lifecycle.keyboard) :
  kept m → kept (snd (fst (Lifecycle.initialize_smart w m interactive keys))).
Proof.
  intros Hm. unfold Lifecycle.initialize_smart.
  pose proof (kept_load m Hm) as Hm1.
  destruct (load_saved_proxies m) as [saved m1]. cbn [snd] in Hm1.
  destruct saved as [|p0 saved']; [by apply kept_no_working_proxies|].
  destruct (quick_validate_proxies w m1 (p0 :: saved')) as [[working m2]|err]
    eqn:Hquick; [|done].
  pose proof (kept_quick_validate _ _ _ _ _ Hm1 Hquick) as Hm2.
  destruct (Nat.leb _ (length working)); [by apply kept_save|].
  destruct (Nat.ltb 0 (length working)); [|by apply kept_no_working_proxies].
  pose proof (kept_save w m2 None Hm2) as Hm3.
  set (m3 := save_working_proxies w m2 None) in *.
  assert (kept (if Nat.ltb (length (working_proxies m3))
                            (min_working_proxies (config m2))
                then let '(new_proxies, m') := fetch_new_proxies w m3 in
                     match new_proxies with
                     | [] => m'
                     | _ :: _ => save_working_proxies w m' None
                     end
                else m3)) as Hm4.
  { destruct (Nat.ltb _ _); [|done].
    pose proof (kept_fetch w m3 Hm3) as Hfetch.
    destruct (fetch_new_proxies w m3) as [[|p new_proxies] m4]; [done|].
    by apply kept_save. }
  by destruct (Nat.leb _ _).
Qed.

Lemma ok_inj {A : Type} (x y : A) : @Py.Ok A x = Py.Ok y → x = y.
Proof. congruence. Qed.

Lemma reachable_kept (m : t) : Manager.reachable m → kept m.
Proof.
  induction 1 as [cfg d sources|w m c m' _ IH Hstep].
  - split; [done|]. apply init_wf.
  - destruct c; cbn [Manager.step] in Hstep.
    + apply ok_inj in Hstep as <-. by apply kept_load.
    + apply ok_inj in Hstep as <-. by apply kept_save.
    + destruct (quick_validate_proxies w m proxies) as [[working m1]|err] eqn:Hquick;
        [|done]. apply ok_inj in Hstep as <-. by eapply kept_quick_validate.
    + destruct (Lifecycle._quick_validate_proxies_silent w m proxies)
        as [[working m1]|err] eqn:Hquick; [|done].
      apply ok_inj in Hstep as <-. by eapply kept_quick_validate_silent.
    + apply ok_inj in Hstep as <-. by apply kept_fetch.
    + unfold Manager.get_next_proxy in Hstep.
      destruct (get_next_proxy_wf (rotator m) site (proj2 IH))
        as (out & r' & Hnext & Hwf & Hssl & Hhttp & _).
      rewrite Hnext in Hstep. apply ok_inj in Hstep as <-. by apply kept_dispensed.
    + unfold Manager.get_next_ssl_proxy in Hstep.
      destruct (get_next_ssl_proxy_wf (rotator m) (proj2 IH))
        as (out & r' & Hnext & Hwf & Hssl & Hhttp & _).
      rewrite Hnext in Hstep. apply ok_inj in Hstep as <-. by apply kept_dispensed.
    + unfold Manager.get_next_http_proxy in Hstep.
      destruct (get_next_http_proxy_wf (rotator m) (proj2 IH))
        as (out & r' & Hnext & Hwf & Hssl & Hhttp & _).
      rewrite Hnext in Hstep. apply ok_inj in Hstep as <-. by apply kept_dispensed.
    + apply ok_inj in Hstep as <-. by apply kept_mark_proxy_dead.
    + apply ok_inj in Hstep as <-. by apply kept_maintain.
    + apply ok_inj in Hstep as <-. by apply kept_initialize_smart.
Qed.

End ManagerInvariant.

(** In every state a manager reaches from [__init__] through its methods,
    the legacy attributes [ssl_proxies], [http_proxies] and
    [working_proxies] are the rotator's pools, no pool holds an endpoint
    twice, and [get_stats] reports as working the number of endpoints in
    [working_proxies]. In such a state [get_next_proxy] never raises: it
    returns [None] or an endpoint of [working_proxies], and leaves the
    attributes and the pools as they are. *)
Theorem manager_attributes_mirror_the_rotator (m : SmartProxyManager.t) :
  Manager.reachable m →
  Manager.mirrors m
  ∧ NoDup (SmartProxyManager.ssl_proxies m)
  ∧ NoDup (SmartProxyManager.http_proxies m)
  ∧ Manager.working_proxies (Manager.get_stats m)
    = length (SmartProxyManager.working_proxies m)
  ∧ ∀ site, ∃ proxy m',
      Manager.get_next_proxy m site = Py.Ok (proxy, m')
      ∧ (∀ e, proxy = Some e → e ∈ SmartProxyManager.working_proxies m)
      ∧ SmartProxyManager.working_proxies m' = SmartProxyManager.working_proxies m
      ∧ ProxyRotator.ssl_proxies (SmartProxyManager.rotator m')
        = ProxyRotator.ssl_proxies (SmartProxyManager.rotator m)
      ∧ ProxyRotator.http_proxies (SmartProxyManager.rotator m')
        = ProxyRotator.http_proxies (SmartProxyManager.rotator m).
Proof.
  intros Hm. destruct (reachable_kept m Hm) as [Hmirror Hwf].
  pose proof Hmirror as (Hssl & Hhttp & Hworking).
  pose proof Hwf as (Hnodup_ssl & Hnodup_http & _).
  split_and!; [done|by rewrite Hssl|by rewrite Hhttp| |].
  - rewrite Hworking, length_app. done.
  - intros site. unfold Manager.get_next_proxy.
    destruct (get_next_proxy_wf (SmartProxyManager.rotator m) site Hwf)
      as (out & r' & -> & _ & Hs & Hh & Hout).
    cbn [Py.bind]. eexists _, _. split; [reflexivity|].
    split_and!; [|done|done|done].
    intros e He. rewrite Hworking, elem_of_app. by apply Hout.
Qed.

(** A manager that has loaded a cache file with one endpoint in each
    pool. *)
Lemma manager_attributes_mirror_the_rotator_witness :
  Manager.mirrors Scenario.loaded_manager
  ∧ Manager.working_proxies (Manager.get_stats Scenario.loaded_manager) = 2.
Proof.
  assert (Manager.reachable Scenario.loaded_manager) as Hreach.
  { eapply (Manager.reachable_step Scenario.silent_world _ Manager.LoadSaved);
      [apply Manager.reachable_init|reflexivity]. }
  destruct (manager_attributes_mirror_the_rotator _ Hreach)
    as (Hmirror & _ & _ & Hstats & _).
  split; [exact Hmirror|]. rewrite Hstats. reflexivity.
Defined.

(** ** Pool manager: an eviction the cache file does not see *)

(** When the cache file cannot be written, [mark_proxy_dead] still evicts
    the endpoint from the pools and raises nothing, and the file stays as
    it was: loading it again puts every endpoint it lists back into the
    pools, the evicted one included. *)
Theorem failed_write_keeps_the_old_file (w : world) (m : SmartProxyManager.t)
    (e : string) (err : Py.exn) :
  ProxyRotator.reachable (SmartProxyManager.rotator m) →
  e ∈ ProxyRotator.ssl_proxies (SmartProxyManager.rotator m)
  ∨ e ∈ ProxyRotator.http_proxies (SmartProxyManager.rotator m) →
  ProxyStorage.write_error (SmartProxyManager.storage m) = Some err →
  let m' := SmartProxyManager.mark_proxy_dead w m e in
  let m'' := snd (SmartProxyManager.load_saved_proxies m') in
  SmartProxyManager.storage m' = SmartProxyManager.storage m
  ∧ (e ∉ ProxyRotator.ssl_proxies (SmartProxyManager.rotator m'))
  ∧ (e ∉ ProxyRotator.http_proxies (SmartProxyManager.rotator m'))
  ∧ e ∈ SmartProxyManager.dead_proxies m'
  ∧ (∀ x, x ∈ fst (ProxyStorage.load_saved_proxies (SmartProxyManager.storage m)) →
          x ∈ ProxyRotator.ssl_proxies (SmartProxyManager.rotator m''))
  ∧ (∀ x, x ∈ snd (ProxyStorage.load_saved_proxies (SmartProxyManager.storage m)) →
          x ∈ ProxyRotator.http_proxies (SmartProxyManager.rotator m'')).
Proof.
  intros Hreach Hin Hwrite m' m''. subst m' m''.
  pose proof (reachable_wf _ Hreach) as Hwf.
  unfold SmartProxyManager.load_saved_proxies, SmartProxyManager.mark_proxy_dead.
  destruct (ProxyRotator.mark_proxy_dead (SmartProxyManager.rotator m) e)
    as [removed r'] eqn:Hmark.
  assert (removed = true) as ->.
  { change removed with (fst (removed, r')). rewrite <- Hmark.
    by apply mark_proxy_dead_removed. }
  destruct (mark_proxy_dead_wf _ r' e true Hwf Hmark) as (_ & Hes & Heh & _).
  unfold SmartProxyManager.save_working_proxies.
  cbn [SmartProxyManager.rotator SmartProxyManager.storage SmartProxyManager.dead_proxies].
  rewrite (save_failed _ _ _ _ err Hwrite).
  destruct (ProxyStorage.load_saved_proxies (SmartProxyManager.storage m))
    as [ssl http].
  cbn [snd fst SmartProxyManager.with_pools SmartProxyManager.rotator
       ProxyRotator.add_ssl_proxies ProxyRotator.add_http_proxies
       ProxyRotator.ssl_proxies ProxyRotator.http_proxies].
  split_and!; try done.
  - apply elem_of_union_l. by apply elem_of_singleton.
  - intros x Hx. apply append_new_elem. by right.
  - intros x Hx. apply append_new_elem. by right.
Qed.

(** The endpoint 1.2.3.4:8080 is evicted while the file cannot be written:
    the next load brings it back. *)
Lemma failed_write_keeps_the_old_file_witness :
  let m' := SmartProxyManager.mark_proxy_dead Scenario.silent_world
              Scenario.read_only_manager "1.2.3.4:8080" in
  ("1.2.3.4:8080" ∉ ProxyRotator.ssl_proxies (SmartProxyManager.rotator m'))
  ∧ "1.2.3.4:8080"
    ∈ ProxyRotator.ssl_proxies
        (SmartProxyManager.rotator (snd (SmartProxyManager.load_saved_proxies m'))).
Proof.
  assert (ProxyRotator.reachable (SmartProxyManager.rotator Scenario.read_only_manager))
    as Hreach.
  { eapply (ProxyRotator.reachable_step _ (ProxyRotator.AddHttp ["5.6.7.8:80"]));
      [|reflexivity].
    eapply (ProxyRotator.reachable_step _ (ProxyRotator.AddSsl ["1.2.3.4:8080"]));
      [apply ProxyRotator.reachable_init|reflexivity]. }
  destruct (failed_write_keeps_the_old_file Scenario.silent_world
              Scenario.read_only_manager "1.2.3.4:8080" Py.OSError Hreach)
    as (_ & Hout & _ & _ & Hback & _).
  - left. compute_done.
  - reflexivity.
  - split; [exact Hout|]. apply Hback. compute_done.
Defined.

(** ** Pools: exclusivity in the states of the manager *)

Section SortedPools.

Import SmartProxyManager.

Lemma sorted_by_port_subset (ssl http ssl' http' : list string) :
  Spec.sorted_by_port ssl http →
  (∀ e, e ∈ ssl' → e ∈ ssl) → (∀ e, e ∈ http' → e ∈ http) →
  Spec.sorted_by_port ssl' http'.
Proof. intros [Hs Hh] Hssl Hhttp. split; intros e He; auto. Qed.

Lemma sorted_by_port_app (ssl http ssl' http' : list string) :
  Spec.sorted_by_port ssl http → Spec.sorted_by_port ssl' http' →
  Spec.sorted_by_port (ProxyRotator.append_new ssl ssl')
    (ProxyRotator.append_new http http').
Proof.
  intros [Hs Hh] [Hs' Hh'].
  split; intros e [He|He]%append_new_elem; auto.
Qed.

Lemma sorted_by_port_filter (l : list string) :
  Spec.sorted_by_port
    (filter (fun p => ProxyStorage._is_ssl_capable_port p = true) l)
    (filter (fun p => ¬ (ProxyStorage._is_ssl_capable_port p = true)) l).
Proof.
  split; intros e [He _]%list_elem_of_filter.
  - by apply _is_ssl_capable_port_true.
  - by rewrite <- _is_ssl_capable_port_true.
Qed.

Lemma sorted_by_port_deduplicated (ssl http : list string) :
  Spec.sorted_by_port ssl http →
  Spec.sorted_by_port (ProxyStorage._deduplicate_list ssl)
    (ProxyStorage._deduplicate_list http).
Proof.
  intros Hsorted. apply (sorted_by_port_subset ssl http); [done| |];
    intros e; rewrite _deduplicate_list_spec; apply first_occurrences_elem.
Qed.

(** What a sorted file is loaded into is sorted. *)
Lemma load_sorted (d : ProxyStorage.disk) :
  Spec.file_sorted_by_port d →
  Spec.sorted_by_port (fst (ProxyStorage.load_saved_proxies d))
    (snd (ProxyStorage.load_saved_proxies d)).
Proof.
  intros Hfile. unfold ProxyStorage.load_saved_proxies.
  destruct (ProxyStorage.content d) as [|err|data] eqn:Hd;
    cbn [ProxyStorage.load_saved_proxies_try fst snd];
    try (split; intros e He; by apply elem_of_nil in He).
  destruct (ProxyStorage.ssl_proxies data) as [ssl|] eqn:Hssl;
    [destruct (ProxyStorage.http_proxies data) as [http|] eqn:Hhttp|];
    cbn [fst snd]; try apply sorted_by_port_filter.
  apply sorted_by_port_deduplicated. by apply (Hfile data).
Qed.

(** Saving sorted pools leaves a sorted file, whether the write succeeds or
    not. *)
Lemma save_sorted (now : string) (d : ProxyStorage.disk) (ssl http : list string) :
  Spec.file_sorted_by_port d → Spec.sorted_by_port ssl http →
  Spec.file_sorted_by_port (ProxyStorage.save_working_proxies now d ssl http).
Proof.
  intros Hfile Hsorted. unfold ProxyStorage.save_working_proxies.
  destruct (ProxyStorage.write_error d); [done|].
  intros data ssl' http' [= <-] [= <-] [= <-].
  by apply sorted_by_port_deduplicated.
Qed.

(** What a fetch run collects is sorted. *)
Lemma fetch_new_proxies_async_sorted (w : world) (cfg : ProxyConfig)
    (sources : list string) (dead : gset string) :
  Spec.sorted_by_port
    (ProxyFetcher.all_ssl_proxies
       (ProxyFetcher.fetch_new_proxies_async w cfg sources dead))
    (ProxyFetcher.all_http_proxies
       (ProxyFetcher.fetch_new_proxies_async w cfg sources dead)).
Proof.
  destruct (fetch_loop_provenance w cfg sources sources
              {| ProxyFetcher.all_ssl_proxies := []; ProxyFetcher.all_http_proxies := [];
                 ProxyFetcher.tested_sources := 0; ProxyFetcher.consulted := [];
                 ProxyFetcher.printed := []; ProxyFetcher.dead := dead |})
    as [Hssl Hhttp]; [done|constructor|constructor|].
  split; intros e He.
  - eapply Forall_forall in Hssl as (_ & Hport & _); [exact Hport|exact He].
  - eapply Forall_forall in Hhttp as (_ & Hport & _); [exact Hport|exact He].
Qed.

(** What the manager keeps when it starts from a sorted file: the file
    stays sorted and so do the pools. *)
Local Abbreviation sorted m :=
  (Spec.file_sorted_by_port (storage m)
   ∧ Spec.sorted_by_port (ProxyRotator.ssl_proxies (rotator m))
       (ProxyRotator.http_proxies (rotator m))).

Lemma sorted_with_pools (m : t) (dead : gset string) (ssl http : list string) :
  sorted m → Spec.sorted_by_port ssl http →
  sorted (with_pools m dead
            (ProxyRotator.add_http_proxies
               (ProxyRotator.add_ssl_proxies (rotator m) ssl) http)).
Proof.
  intros [Hfile Hpools] Hnew. split; [done|].
  cbn [with_pools rotator ProxyRotator.add_ssl_proxies ProxyRotator.add_http_proxies
       ProxyRotator.ssl_proxies ProxyRotator.http_proxies].
  by apply sorted_by_port_app.
Qed.

Lemma sorted_load (m : t) : sorted m → sorted (snd (load_saved_proxies m)).
Proof.
  intros Hm. unfold load_saved_proxies.
  pose proof (load_sorted (storage m) (proj1 Hm)) as Hloaded.
  destruct (ProxyStorage.load_saved_proxies (storage m)) as [ssl http].
  by apply sorted_with_pools.
Qed.

Lemma sorted_save (w : world) (m : t) (proxies : option (list string)) :
  sorted m → sorted (save_working_proxies w m proxies).
Proof.
  intros [Hfile Hpools]. destruct proxies as [ps|];
    cbn [save_working_proxies storage rotator]; (split; [|done]);
    apply save_sorted; try done.
  apply sorted_by_port_filter.
Qed.

Lemma validated_sorted (w : world) (cfg : ProxyConfig) (dead dead' : gset string)
    (proxies ssl http : list string) :
  ProxyValidator.validate_proxies_async w cfg dead proxies = Py.Ok (ssl, http, dead') →
  Spec.sorted_by_port ssl http.
Proof.
  intros Hvalidate.
  destruct (validate_proxies_async_ports w cfg dead dead' proxies ssl http Hvalidate)
    as [Hs Hh].
  split; intros e He.
  - apply _is_ssl_capable_port_true. by destruct (Hs e He).
  - rewrite <- _is_ssl_capable_port_true. by destruct (Hh e He).
Qed.

Lemma sorted_quick_validate (w : world) (m m' : t) (proxies working : list string) :
  sorted m → quick_validate_proxies w m proxies = Py.Ok (working, m') → sorted m'.
Proof.
  intros Hm. unfold quick_validate_proxies.
  destruct proxies as [|p0 proxies']; [by intros [= _ <-]|].
  destruct (ProxyValidator.validate_proxies_async w (config m) (validator m)
              (p0 :: proxies')) as [[[ssl http] dead]|err] eqn:Hvalidate; [|done].
  cbn [Py.bind]. intros [= _ <-]. apply sorted_with_pools; [done|].
  by eapply validated_sorted.
Qed.

Lemma sorted_quick_validate_silent (w : world) (m m' : t)
    (proxies working : list string) :
  sorted m →
  Lifecycle._quick_validate_proxies_silent w m proxies = Py.Ok (working, m') →
  sorted m'.
Proof.
  intros Hm. unfold Lifecycle._quick_validate_proxies_silent.
  destruct proxies as [|p0 proxies']; [by intros [= _ <-]|].
  destruct (ProxyValidator.validate_proxies_async w _ _ (p0 :: proxies'))
    as [[[ssl http] dead]|err] eqn:Hvalidate; [|done].
  cbn [Py.bind]. intros [= _ <-].
  apply (sorted_with_pools m dead ssl http); [done|].
  by eapply validated_sorted.
Qed.

Lemma sorted_fetch (w : world) (m : t) : sorted m → sorted (snd (fetch_new_proxies w m)).
Proof.
  intros Hm. unfold fetch_new_proxies. cbn [snd].
  apply sorted_with_pools; [done|]. apply fetch_new_proxies_async_sorted.
Qed.

Lemma mark_proxy_dead_subset (r r' : ProxyRotator.t) (proxy : string) (removed : bool) :
  ProxyRotator.mark_proxy_dead r proxy = (removed, r') →
  (∀ x, x ∈ ProxyRotator.ssl_proxies r' → x ∈ ProxyRotator.ssl_proxies r)
  ∧ (∀ x, x ∈ ProxyRotator.http_proxies r' → x ∈ ProxyRotator.http_proxies r).
Proof.
  unfold ProxyRotator.mark_proxy_dead.
  destruct (decide (proxy ∈ ProxyRotator.ssl_proxies r));
    destruct (decide (proxy ∈ ProxyRotator.http_proxies r));
    intros [= _ <-]; cbn [ProxyRotator.ssl_proxies ProxyRotator.http_proxies];
    split; intros x Hx; try done; by eapply remove_elem.
Qed.

Lemma sorted_mark_proxy_dead (w : world) (m : t) (proxy : string) :
  sorted m → sorted (mark_proxy_dead w m proxy).
Proof.
  intros [Hfile Hpools]. unfold mark_proxy_dead.
  destruct (ProxyRotator.mark_proxy_dead (rotator m) proxy) as [removed r] eqn:Hmark.
  destruct (mark_proxy_dead_subset _ _ _ _ Hmark) as [Hs Hh].
  pose proof (sorted_by_port_subset _ _ _ _ Hpools Hs Hh) as Hpools'.
  destruct removed; [|done].
  cbn [save_working_proxies storage rotator]. split; [|done]. by apply save_sorted.
Qed.

Lemma sorted_dispensed (m : t) (r : ProxyRotator.t) :
  sorted m →
  ProxyRotator.ssl_proxies r = ProxyRotator.ssl_proxies (rotator m) →
  ProxyRotator.http_proxies r = ProxyRotator.http_proxies (rotator m) →
  sorted (Manager.with_rotator m r).
Proof.
  intros [Hfile Hpools] Hs Hh. cbn [Manager.with_rotator storage rotator].
  by rewrite Hs, Hh.
Qed.

End SortedPools.

(** The methods that are made of other methods keep what these keep. *)

Section Composite.

Import SmartProxyManager.

Variable P : t → Prop.
Hypothesis P_load : ∀ m, P m → P (snd (load_saved_proxies m)).
Hypothesis P_save : ∀ w m, P m → P (save_working_proxies w m None).
Hypothesis P_quick_validate : ∀ w m m' proxies working,
  P m → quick_validate_proxies w m proxies = Py.Ok (working, m') → P m'.
Hypothesis P_fetch : ∀ w m, P m → P (snd (fetch_new_proxies w m)).

Lemma composite_maintain (w : world) (m : t) (target_count min_count : nat) :
  P m → P (snd (Lifecycle.maintain_proxy_pool w m target_count min_count)).
Proof.
  intros Hm. unfold Lifecycle.maintain_proxy_pool. cbn [snd].
  destruct (Nat.ltb _ _); [|done].
  pose proof (P_fetch w m Hm) as Hfetch.
  destruct (fetch_new_proxies w m) as [[|p new_proxies] m1]; [done|].
  by apply P_save.
Qed.

Lemma composite_fetch_and_report (w : world) (m : t) :
  P m → P (snd (Lifecycle.fetch_and_report w m)).
Proof.
  intros Hm. unfold Lifecycle.fetch_and_report.
  pose proof (P_fetch w m Hm) as Hfetch.
  destruct (fetch_new_proxies w m) as [[|p new_proxies] m1]; [done|].
  by apply P_save.
Qed.

Lemma composite_ask (w : world) (m : t) (keys : list Lifecycle.keyboard) :
  P m → P (snd (fst (Lifecycle.ask w m keys))).
Proof.
  intros Hm. induction keys as [|[s|] keys IH]; cbn [Lifecycle.ask]; [done| |done].
  destruct (String.eqb _ "1"); [done|].
  destruct (String.eqb _ "2").
  { pose proof (composite_fetch_and_report w m Hm) as Hfetch.
    destruct (Lifecycle.fetch_and_report w m) as [[r|] m1]; [done|].
    by destruct (Lifecycle.ask_after_fetch keys). }
  by destruct (String.eqb _ "3").
Qed.

Lemma composite_no_working_proxies (w : world) (m : t) (interactive : bool)
    (keys : list Lifecycle.keyboard) :
  P m → P (snd (fst (Lifecycle.no_working_proxies w m interactive keys))).
Proof.
  intros Hm. unfold Lifecycle.no_working_proxies.
  destruct interactive; [by apply composite_ask|].
  pose proof (composite_fetch_and_report w m Hm) as Hfetch.
  by destruct (Lifecycle.fetch_and_report w m) as [[r|] m1].
Qed.

Lemma composite_initialize_smart (w : world) (m : t) (interactive : bool)
    (keys : list Lifecycle.keyboard) :
  P m → P (snd (fst (Lifecycle.initialize_smart w m interactive keys))).
Proof.
  intros Hm. unfold Lifecycle.initialize_smart.
  pose proof (P_load m Hm) as Hm1.
  destruct (load_saved_proxies m) as [saved m1]. cbn [snd] in Hm1.
  destruct saved as [|p0 saved']; [by apply composite_no_working_proxies|].
  destruct (quick_validate_proxies w m1 (p0 :: saved')) as [[working m2]|err]
    eqn:Hquick; [|done].
  pose proof (P_quick_validate _ _ _ _ _ Hm1 Hquick) as Hm2.
  destruct (Nat.leb _ (length working)); [by apply P_save|].
  destruct (Nat.ltb 0 (length working)); [|by apply composite_no_working_proxies].
  pose proof (P_save w m2 Hm2) as Hm3.
  set (m3 := save_working_proxies w m2 None) in *.
  assert (P (if Nat.ltb (length (working_proxies m3))
                         (min_working_proxies (config m2))
             then let '(new_proxies, m') := fetch_new_proxies w m3 in
                  match new_proxies with
                  | [] => m'
                  | _ :: _ => save_working_proxies w m' None
                  end
             else m3)) as Hm4.
  { destruct (Nat.ltb _ _); [|done].
    pose proof (P_fetch w m3 Hm3) as Hfetch.
    destruct (fetch_new_proxies w m3) as [[|p new_proxies] m4]; [done|].
    by apply P_save. }
  by destruct (Nat.leb _ _).
Qed.

End Composite.

Section SortedStates.

Import SmartProxyManager.

(** Every method of the manager keeps the file and the pools sorted. *)
Lemma step_sorted (w : world) (m m' : t) (c : Manager.call) :
  Spec.file_sorted_by_port (storage m) →
  Spec.sorted_by_port (ProxyRotator.ssl_proxies (rotator m))
    (ProxyRotator.http_proxies (rotator m)) →
  Spec.rotator_wf (rotator m) →
  Manager.step w m c = Py.Ok m' →
  Spec.file_sorted_by_port (storage m')
  ∧ Spec.sorted_by_port (ProxyRotator.ssl_proxies (rotator m'))
      (ProxyRotator.http_proxies (rotator m')).
Proof.
  intros Hfile Hpools Hwf Hstep.
  assert (Spec.file_sorted_by_port (storage m)
          ∧ Spec.sorted_by_port (ProxyRotator.ssl_proxies (rotator m))
              (ProxyRotator.http_proxies (rotator m))) as Hm by done.
  destruct c; cbn [Manager.step] in Hstep.
  - apply ok_inj in Hstep as <-. by apply sorted_load.
  - apply ok_inj in Hstep as <-. by apply sorted_save.
  - destruct (quick_validate_proxies w m proxies) as [[working m1]|err] eqn:Hquick;
      [|done]. apply ok_inj in Hstep as <-. by eapply sorted_quick_validate.
  - destruct (Lifecycle._quick_validate_proxies_silent w m proxies)
      as [[working m1]|err] eqn:Hquick; [|done].
    apply ok_inj in Hstep as <-. by eapply sorted_quick_validate_silent.
  - apply ok_inj in Hstep as <-. by apply sorted_fetch.
  - unfold Manager.get_next_proxy in Hstep.
    destruct (get_next_proxy_wf (rotator m) site Hwf)
      as (out & r' & Hnext & _ & Hssl & Hhttp & _).
    rewrite Hnext in Hstep. apply ok_inj in Hstep as <-. by apply sorted_dispensed.
  - unfold Manager.get_next_ssl_proxy in Hstep.
    destruct (get_next_ssl_proxy_wf (rotator m) Hwf)
      as (out & r' & Hnext & _ & Hssl & Hhttp & _).
    rewrite Hnext in Hstep. apply ok_inj in Hstep as <-. by apply sorted_dispensed.
  - unfold Manager.get_next_http_proxy in Hstep.
    destruct (get_next_http_proxy_wf (rotator m) Hwf)
      as (out & r' & Hnext & _ & Hssl & Hhttp & _).
    rewrite Hnext in Hstep. apply ok_inj in Hstep as <-. by apply sorted_dispensed.
  - apply ok_inj in Hstep as <-. by apply sorted_mark_proxy_dead.
  - apply ok_inj in Hstep as <-.
    apply (composite_maintain
             (fun m => Spec.file_sorted_by_port (storage m)
                       ∧ Spec.sorted_by_port (ProxyRotator.ssl_proxies (rotator m))
                           (ProxyRotator.http_proxies (rotator m))));
      [intros; by apply sorted_save|intros; by apply sorted_fetch|done].
  - apply ok_inj in Hstep as <-.
    apply (composite_initialize_smart
             (fun m => Spec.file_sorted_by_port (storage m)
                       ∧ Spec.sorted_by_port (ProxyRotator.ssl_proxies (rotator m))
                           (ProxyRotator.http_proxies (rotator m))));
      [intros; by apply sorted_load|intros; by apply sorted_save
      |intros; by eapply sorted_quick_validate|intros; by apply sorted_fetch|done].
Qed.

Lemma reaches_reachable (m0 m : t) :
  Manager.reachable m0 → Manager.reaches m0 m → Manager.reachable m.
Proof.
  intros Hm0. induction 1 as [|w m c m' _ IH Hstep]; [done|].
  by eapply Manager.reachable_step.
Qed.

(** From a sorted file, every state of the manager has sorted pools. *)
Lemma reaches_sorted (cfg : ProxyConfig) (d : ProxyStorage.disk)
    (sources : list string) (m : t) :
  Spec.file_sorted_by_port d →
  Manager.reaches (init cfg d sources) m →
  Spec.file_sorted_by_port (storage m)
  ∧ Spec.sorted_by_port (ProxyRotator.ssl_proxies (rotator m))
      (ProxyRotator.http_proxies (rotator m)).
Proof.
  intros Hfile Hreach.
  induction Hreach as [|w m c m' Hreach IH Hstep].
  - split; [done|]. split; intros e He; by apply elem_of_nil in He.
  - destruct IH as [Hf Hp].
    apply (step_sorted w m m' c Hf Hp); [|done].
    apply reachable_kept. eapply reaches_reachable; [|exact Hreach].
    apply Manager.reachable_init.
Qed.

Lemma sorted_by_port_disjoint (ssl http : list string) :
  Spec.sorted_by_port ssl http → ∀ e, e ∈ ssl → e ∉ http.
Proof. intros [Hs Hh] e Hssl Hhttp. by apply (Hh e Hhttp), Hs. Qed.

End SortedStates.

(** C3, amended. In every state a rotator can be in, no endpoint appears
    twice within a pool; [add_ssl_proxies], [add_http_proxies] and
    [load_saved_proxies], for either shape of the file, keep the pools free
    of duplicates. Across the two pools exclusivity is an invariant of the
    engine under one condition on the cache file it starts from: the file
    is absent, unreadable, in the legacy shape, or lists under
    [ssl_proxies] only endpoints whose port is on the allow-list and under
    [http_proxies] only endpoints whose port is not. Then in every state
    the manager reaches through its methods no endpoint is in both pools,
    and the file, which the engine alone rewrites, still meets the
    condition. Without the condition exclusivity fails: whatever the
    manager, an endpoint a current-shape file lists under both fields is
    loaded into both pools, and [add_http_proxies] called on the rotator
    puts an endpoint of the SSL pool into the HTTP pool. *)
Theorem pools_exclusive_from_a_sorted_file :
  (∀ r : ProxyRotator.t,
     ProxyRotator.reachable r →
     NoDup (ProxyRotator.ssl_proxies r) ∧ NoDup (ProxyRotator.http_proxies r))
  ∧ (∀ (r : ProxyRotator.t) (proxies : list string),
       NoDup (ProxyRotator.ssl_proxies r) →
       NoDup (ProxyRotator.http_proxies r) →
       NoDup (ProxyRotator.ssl_proxies (ProxyRotator.add_ssl_proxies r proxies))
       ∧ NoDup (ProxyRotator.http_proxies (ProxyRotator.add_ssl_proxies r proxies))
       ∧ NoDup (ProxyRotator.ssl_proxies (ProxyRotator.add_http_proxies r proxies))
       ∧ NoDup (ProxyRotator.http_proxies (ProxyRotator.add_http_proxies r proxies)))
  ∧ (∀ d : ProxyStorage.disk,
       NoDup (fst (ProxyStorage.load_saved_proxies d))
       ∧ NoDup (snd (ProxyStorage.load_saved_proxies d)))
  ∧ (∀ d : ProxyStorage.disk,
       (∀ data, ProxyStorage.content d = ProxyStorage.Json data →
                ProxyStorage.ssl_proxies data = None
                ∨ ProxyStorage.http_proxies data = None) →
       Spec.file_sorted_by_port d
       ∧ Spec.pools_exclusive (fst (ProxyStorage.load_saved_proxies d))
           (snd (ProxyStorage.load_saved_proxies d)))
  ∧ (∀ (w : world) (cfg : ProxyConfig) (dead dead' : gset string)
       (proxies ssl http : list string),
       ProxyValidator.validate_proxies_async w cfg dead proxies
       = Py.Ok (ssl, http, dead') →
       ∀ e, e ∈ ssl → e ∉ http)
  ∧ (∀ (cfg : ProxyConfig) (d : ProxyStorage.disk) (sources : list string)
       (m : SmartProxyManager.t),
       Spec.file_sorted_by_port d →
       Manager.reaches (SmartProxyManager.init cfg d sources) m →
       Spec.pools_exclusive
         (ProxyRotator.ssl_proxies (SmartProxyManager.rotator m))
         (ProxyRotator.http_proxies (SmartProxyManager.rotator m))
       ∧ Spec.pools_exclusive (SmartProxyManager.ssl_proxies m)
           (SmartProxyManager.http_proxies m)
       ∧ Spec.sorted_by_port
           (ProxyRotator.ssl_proxies (SmartProxyManager.rotator m))
           (ProxyRotator.http_proxies (SmartProxyManager.rotator m))
       ∧ Spec.file_sorted_by_port (SmartProxyManager.storage m))
  ∧ (∀ (m : SmartProxyManager.t) (data : ProxyStorage.snapshot)
       (ssl http : list string) (e : string),
       ProxyStorage.content (SmartProxyManager.storage m) = ProxyStorage.Json data →
       ProxyStorage.ssl_proxies data = Some ssl →
       ProxyStorage.http_proxies data = Some http →
       e ∈ ssl → e ∈ http →
       let m1 := snd (SmartProxyManager.load_saved_proxies m) in
       e ∈ ProxyRotator.ssl_proxies (SmartProxyManager.rotator m1)
       ∧ e ∈ ProxyRotator.http_proxies (SmartProxyManager.rotator m1))
  ∧ (∀ (r : ProxyRotator.t) (e : string),
       e ∈ ProxyRotator.ssl_proxies r →
       e ∈ ProxyRotator.ssl_proxies (ProxyRotator.add_http_proxies r [e])
       ∧ e ∈ ProxyRotator.http_proxies (ProxyRotator.add_http_proxies r [e])).
Proof.
  split_and!.
  - intros r Hr. destruct (reachable_wf r Hr) as (Hs & Hh & _). by split.
  - intros r proxies Hs Hh. cbn [ProxyRotator.add_ssl_proxies
      ProxyRotator.add_http_proxies ProxyRotator.ssl_proxies ProxyRotator.http_proxies].
    split_and!; try done; by apply append_new_NoDup.
  - apply load_NoDup.
  - intros d Hshape. split; [|by apply load_legacy_exclusive].
    intros data ssl http Hd Hssl Hhttp.
    destruct (Hshape data Hd); congruence.
  - intros w cfg dead dead' proxies ssl http Hvalidate e Hssl Hhttp.
    destruct (validate_proxies_async_ports w cfg dead dead' proxies ssl http Hvalidate)
      as [Hs Hh].
    destruct (Hs e Hssl) as [_ Hport]. destruct (Hh e Hhttp) as [_ Hnot]. done.
  - intros cfg d sources m Hfile Hreach.
    destruct (reaches_sorted cfg d sources m Hfile Hreach) as [Hf Hp].
    assert (Manager.reachable m) as Hm.
    { eapply reaches_reachable; [apply Manager.reachable_init|exact Hreach]. }
    destruct (reachable_kept m Hm) as [(Hssl & Hhttp & _) (Hs & Hh & _)].
    assert (Spec.pools_exclusive
              (ProxyRotator.ssl_proxies (SmartProxyManager.rotator m))
              (ProxyRotator.http_proxies (SmartProxyManager.rotator m))) as Hex.
    { split; [done|]. split; [done|]. by apply sorted_by_port_disjoint. }
    split_and!; try done. by rewrite Hssl, Hhttp.
  - intros m data ssl http e Hd Hssl Hhttp Hes Heh m1. subst m1.
    unfold SmartProxyManager.load_saved_proxies.
    rewrite (load_current _ data ssl http Hd Hssl Hhttp).
    cbn [snd SmartProxyManager.with_pools SmartProxyManager.rotator
         ProxyRotator.add_ssl_proxies ProxyRotator.add_http_proxies
         ProxyRotator.ssl_proxies ProxyRotator.http_proxies].
    split; apply append_new_elem; right; by apply first_occurrences_elem.
  - intros r e He. cbn [ProxyRotator.add_http_proxies ProxyRotator.ssl_proxies
      ProxyRotator.http_proxies]. split; [done|].
    apply append_new_elem. right. by left.
Qed.

(** C3, amended, on the legacy file of the specification's example: the
    manager that has loaded it, fetched in the world of the three sources
    and saved has no endpoint in both pools. *)
Lemma pools_exclusive_from_a_sorted_file_witness :
  let m0 := SmartProxyManager.init default_config
              (Scenario.legacy_file ["1.2.3.4:443"; "5.6.7.8:80"])
              Scenario.three_sources in
  let m1 := snd (SmartProxyManager.load_saved_proxies m0) in
  let m2 := snd (SmartProxyManager.fetch_new_proxies Scenario.generous_world m1) in
  let m3 := SmartProxyManager.save_working_proxies Scenario.generous_world m2 None in
  Spec.file_sorted_by_port (Scenario.legacy_file ["1.2.3.4:443"; "5.6.7.8:80"])
  ∧ Spec.pools_exclusive
      (ProxyRotator.ssl_proxies (SmartProxyManager.rotator m3))
      (ProxyRotator.http_proxies (SmartProxyManager.rotator m3)).
Proof.
  intros m0 m1 m2 m3.
  assert (Spec.file_sorted_by_port (Scenario.legacy_file ["1.2.3.4:443"; "5.6.7.8:80"]))
    as Hfile.
  { apply (proj1 (proj2 (proj2 (proj2 pools_exclusive_from_a_sorted_file)))).
    intros data [= <-]. left. reflexivity. }
  split; [exact Hfile|].
  assert (Manager.reaches m0 m3) as Hreach.
  { apply (Manager.reaches_step m0 Scenario.generous_world m2 (Manager.Save None) m3);
      [|exact eq_refl].
    apply (Manager.reaches_step m0 Scenario.generous_world m1 Manager.Fetch m2);
      [|exact eq_refl].
    apply (Manager.reaches_step m0 Scenario.generous_world m0 Manager.LoadSaved m1);
      [|exact eq_refl].
    apply Manager.reaches_refl. }
  exact (proj1 (proj1 (proj2 (proj2 (proj2 (proj2 (proj2
           pools_exclusive_from_a_sorted_file)))))
           default_config (Scenario.legacy_file ["1.2.3.4:443"; "5.6.7.8:80"])
           Scenario.three_sources m3 Hfile Hreach)).
Defined.
